(** * poezio, src/data_forms.py: the data-forms tab and its input windows

    A shallow embedding of the focus/navigation state machine ([FormWin]),
    of the per-field-type input windows ([BooleanWin], [ListMultiWin],
    [ListSingleWin], [TextSingleWin], [TextPrivateWin], [DummyInput]) and of
    the two commands of [DataFormsTab], followed by the properties of the
    specification that were checked against them.

    Conventions of the embedding:
    - Python integers are [Z]; list indexing is [getitem], with Python's
      negative indices and its [IndexError];
    - a method is a computation in [Py S A]: it runs on the state [S] of
      [self] (or of the object it mutates) and either returns a value or
      raises; in both cases the state it leaves behind is kept, as in Python,
      where the mutations made before an exception are not rolled back;
    - drawing ([curses], [windows.Win], the global lock) is not modelled: the
      calls are taken to succeed and to leave the modelled state alone.  What
      is kept of each [refresh] is the Python-level indexing it performs,
      since that can raise. *)

From Stdlib Require Import ZArith Lia.
From stdpp Require Import gmap strings list.
From Equations Require Import Equations.

Open Scope string_scope.
Open Scope Z_scope.

(** ** Python values, exceptions, and the method monad *)

Inductive exception := TypeError | IndexError | NotImplementedError.

Inductive result (A : Type) : Type :=
| Returns (a : A)
| Raises (e : exception).
Arguments Returns {A} a.
Arguments Raises {A} e.

Definition Py (S A : Type) : Type := S -> result A * S.

Definition ret {S A} (a : A) : Py S A := fun s => (Returns a, s).

Definition raise {S A} (e : exception) : Py S A := fun s => (Raises e, s).

Definition bind {S A B} (m : Py S A) (k : A -> Py S B) : Py S B :=
  fun s => match m s with
           | (Returns a, s') => k a s'
           | (Raises e, s') => (Raises e, s')
           end.

Definition get {S} : Py S S := fun s => (Returns s, s).

Definition put {S} (s : S) : Py S unit := fun _ => (Returns tt, s).

Definition modify {S} (f : S -> S) : Py S unit := fun s => (Returns tt, f s).

(** A pure computation that may raise, run without touching the state. *)
Definition lift {S A} (r : result A) : Py S A := fun s => (r, s).

(** The methods are written with stdpp's monad notations:
    [x ← m; k] runs [m], stops if it raised, and otherwise runs [k]. *)
#[global] Instance Py_ret {S} : MRet (Py S) := fun A => ret.
#[global] Instance Py_bind {S} : MBind (Py S) := fun A B k m => bind m k.
#[global] Instance Py_fmap {S} : FMap (Py S) :=
  fun A B f m => bind m (fun a => ret (f a)).

(** [len(l)] *)
Definition len {A} (l : list A) : Z := Z.of_nat (length l).

(** A [str] is held as the bytes of its UTF-8 encoding, in which every byte
    of a character but the first has the two top bits 10. *)
Definition is_continuation (b : Ascii.ascii) : bool :=
  match b with
  | Ascii.Ascii _ _ _ _ _ _ b6 b7 => b7 && negb b6
  end.

(** [len(s)] for a [str]: the number of characters, not of bytes. *)
Fixpoint str_len (s : string) : Z :=
  match s with
  | EmptyString => 0
  | String b rest => (if is_continuation b then 0 else 1) + str_len rest
  end.

(** [l[i]]: a negative [i] counts from the end; out of range is [None], which
    the callers turn into [IndexError]. *)
Definition getitem {A} (l : list A) (i : Z) : option A :=
  if i <? 0
  then (if - len l <=? i then l !! Z.to_nat (len l + i) else None)
  else l !! Z.to_nat i.

(** The position [l[i]] denotes, for writing an element back in place. *)
Definition position {A} (l : list A) (i : Z) : nat :=
  if i <? 0 then Z.to_nat (len l + i) else Z.to_nat i.

Definition index {A} (l : list A) (i : Z) : result A :=
  match getitem l i with
  | Some x => Returns x
  | None => Raises IndexError
  end.

(** Run a method on the object stored at [l[i]]; the object is mutated in
    place, so what the method leaves behind is what the list holds after. *)
Definition at_index {A B} (i : Z) (m : Py A B) : Py (list A) B :=
  fun l => match getitem l i with
           | None => (Raises IndexError, l)
           | Some x => let '(r, x') := m x in (r, <[position l i := x']> l)
           end.

(** The values a form field can hold. *)
Inductive pyvalue :=
| VNone
| VBool (b : bool)
| VStr (s : string)
| VList (l : list string).

(** [bool(v)] *)
Definition truth (v : pyvalue) : bool :=
  match v with
  | VNone => false
  | VBool b => b
  | VStr s => negb (String.eqb s "")
  | VList l => match l with [] => false | _ => true end
  end.

(** [v == s] for a string [s] *)
Definition equals_str (v : pyvalue) (s : string) : bool :=
  match v with
  | VStr s' => String.eqb s' s
  | _ => false
  end.

(** Is [s] a substring of [t] ([s in t] for two strings). *)
Definition substring_of (s t : string) : bool :=
  match String.index 0 s t with
  | Some _ => true
  | None => match s with EmptyString => true | _ => false end
  end.

(** [s in v]: membership in a list, substring of a string, [TypeError] on a
    value that is not iterable. *)
Definition contains (v : pyvalue) (s : string) : result bool :=
  match v with
  | VList l => Returns (existsb (String.eqb s) l)
  | VStr t => Returns (substring_of s t)
  | VNone | VBool _ => Raises TypeError
  end.

(** ** The form and its fields (external to data_forms.py) *)

Record FieldOption := { opt_value : string; opt_label : string }.

(** Modelled from the spec: the field class of the XMPP library is not under
    src/; section 3 gives a field a type, a label, instructions, a
    type-dependent value (bool, string or sequence of strings, or none) and an
    ordered option list, and section 4.1 has [reply] commit "into the
    underlying Field's value". *)
Record Field := {
  fld_type : string;
  fld_label : string;
  fld_instructions : string;
  fld_value : pyvalue;
  fld_options : list FieldOption
}.

Module FormField.

Definition getValue : Py Field pyvalue := fun f => (Returns (fld_value f), f).

Definition getOptions : Py Field (list FieldOption) :=
  fun f => (Returns (fld_options f), f).

Definition setValue (v : pyvalue) : Py Field unit :=
  modify (fun f => {| fld_type := fld_type f; fld_label := fld_label f;
                      fld_instructions := fld_instructions f;
                      fld_value := v; fld_options := fld_options f |}).

(** Modelled from the spec: the answer is the field's value. *)
Definition setAnswer (v : pyvalue) : Py Field unit := setValue v.

Definition delOptions : Py Field unit :=
  modify (fun f => {| fld_type := fld_type f; fld_label := fld_label f;
                      fld_instructions := fld_instructions f;
                      fld_value := fld_value f; fld_options := [] |}).

(** [field['label'] = s] *)
Definition set_label (s : string) : Py Field unit :=
  modify (fun f => {| fld_type := fld_type f; fld_label := s;
                      fld_instructions := fld_instructions f;
                      fld_value := fld_value f; fld_options := fld_options f |}).

End FormField.

(** Modelled from the spec: the form is "an ordered, iterable collection of
    Field records plus two top-level string attributes (title, instructions)"
    (section 6).  [form_fields] is what [getFields()] iterates over; a field
    object is identified by its position in it, and the input windows hold
    that position as their reference to the field. *)
Record Form := {
  form_title : string;
  form_instructions : string;
  form_fields : list (string * Field)
}.

Module FormObj.

Definition with_fields (fs : list (string * Field)) (form : Form) : Form :=
  {| form_title := form_title form;
     form_instructions := form_instructions form;
     form_fields := fs |}.

(** [form['title'] = s] *)
Definition set_title (s : string) : Py Form unit :=
  modify (fun form => {| form_title := s;
                         form_instructions := form_instructions form;
                         form_fields := form_fields form |}).

(** [form['instructions'] = s] *)
Definition set_instructions (s : string) : Py Form unit :=
  modify (fun form => {| form_title := form_title form;
                         form_instructions := s;
                         form_fields := form_fields form |}).

(** Run a method of the field object [ref] of the form; the field is
    mutated in place.  The input windows only hold references to fields of
    the form they were built from: a reference to no field does not occur
    in the source, and the model leaves the form alone there. *)
Definition on_field (ref : nat) (m : Py Field unit) : Py Form unit :=
  fun form => match form_fields form !! ref with
              | None => (Returns tt, form)
              | Some (name, f) =>
                  let '(r, f') := m f in
                  (r, with_fields (<[ref := (name, f')]> (form_fields form)) form)
              end.

End FormObj.

(** ** The input windows

    Each class below is the state its instances add to the two attributes of
    [FieldInput] ([_field], [color]), with the methods the class defines.  A
    constructor runs on the field it is given, which it only reads. *)

Definition key := string.

(** [class DummyInput(FieldInput, windows.Win)] *)
Module DummyInput.

(** [def do_command(self)]: the method has no parameter besides [self], so
    a call that passes a key does not bind. *)
Definition do_command (args : list key) : Py unit unit :=
  match args with
  | [] => mret tt
  | _ :: _ => raise TypeError
  end.

Definition refresh : Py unit unit := mret tt.

Definition is_dummy : bool := true.

End DummyInput.

(** [class BooleanWin(FieldInput, windows.Win)] *)
Module BooleanWin.

Record t := { last_key : key; value : bool }.

Definition __init__ : Py Field t :=
  v ← FormField.getValue;
  mret {| last_key := "KEY_RIGHT"; value := truth v |}.

Definition refresh : Py t unit := mret tt.

Definition do_command (args : list key) : Py t unit :=
  match args with
  | [key] =>
      (if String.eqb key "KEY_LEFT" || String.eqb key "KEY_RIGHT"
       then modify (fun self => {| last_key := key; value := negb (value self) |})
       else mret tt);;
      refresh
  | _ => raise TypeError
  end.

Definition reply (self : t) : Py Field unit :=
  FormField.set_label "";;
  FormField.setAnswer (VBool (value self)).

End BooleanWin.

(** [class ListMultiWin(FieldInput, windows.Win)] *)
Module ListMultiWin.

Record t := { options : list (FieldOption * bool); val_pos : Z }.

(** [[[option, True if option['value'] in values else False]
      for option in field.getOptions()]] *)
Fixpoint flag_options (values : pyvalue) (opts : list FieldOption)
  : result (list (FieldOption * bool)) :=
  match opts with
  | [] => Returns []
  | option :: rest =>
      match contains values (opt_value option) with
      | Raises e => Raises e
      | Returns b =>
          match flag_options values rest with
          | Raises e => Raises e
          | Returns flagged => Returns ((option, b) :: flagged)
          end
      end
  end.

Definition __init__ : Py Field t :=
  values ← FormField.getValue;
  opts ← FormField.getOptions;
  flagged ← lift (flag_options values opts);
  mret {| options := flagged; val_pos := 0 |}.

(** [option = self.options[self.val_pos]] is the one step of the drawing
    code that can raise. *)
Definition refresh : Py t unit :=
  self ← get;
  _ ← lift (index (options self) (val_pos self));
  mret tt.

Definition set_val_pos (p : Z) : Py t unit :=
  modify (fun self => {| options := options self; val_pos := p |}).

(** [self.options[self.val_pos][1] = not self.options[self.val_pos][1]] *)
Definition toggle : Py t unit :=
  fun self =>
    let '(r, opts) :=
      at_index (val_pos self)
        (modify (fun o : FieldOption * bool => (fst o, negb (snd o))))
        (options self) in
    (r, {| options := opts; val_pos := val_pos self |}).

Definition do_command (args : list key) : Py t unit :=
  match args with
  | [key] =>
      self ← get;
      if String.eqb key "KEY_LEFT" then
        (if val_pos self >? 0 then set_val_pos (val_pos self - 1) else mret tt);;
        refresh
      else if String.eqb key "KEY_RIGHT" then
        (if val_pos self <? len (options self) - 1
         then set_val_pos (val_pos self + 1) else mret tt);;
        refresh
      else if String.eqb key " " then
        toggle;;
        refresh
      else mret tt
  | _ => raise TypeError
  end.

(** [[option[0]['value'] for option in self.options if option[1] is True]] *)
Definition selected_values (self : t) : list string :=
  map (fun o => opt_value (fst o)) (filter (fun o => snd o = true) (options self)).

Definition reply (self : t) : Py Field unit :=
  FormField.set_label "";;
  FormField.delOptions;;
  FormField.setAnswer (VList (selected_values self)).

End ListMultiWin.

(** [class ListSingleWin(FieldInput, windows.Win)] *)
Module ListSingleWin.

(** [options] is what [field.getOptions()] returned at construction ("the
    option list never changes"): clearing the field's options later does
    not empty it. *)
Record t := { options : list FieldOption; val_pos : Z }.

(** [for i, option in enumerate(self.options):
       if field.getValue() == option['value']: self.val_pos = i] *)
Fixpoint find_val_pos (v : pyvalue) (opts : list FieldOption) (i val_pos : Z) : Z :=
  match opts with
  | [] => val_pos
  | option :: rest =>
      find_val_pos v rest (i + 1)
        (if equals_str v (opt_value option) then i else val_pos)
  end.

Definition __init__ : Py Field t :=
  opts ← FormField.getOptions;
  v ← FormField.getValue;
  mret {| options := opts; val_pos := find_val_pos v opts 0 0 |}.

(** [option = self.options[self.val_pos]['label']] *)
Definition refresh : Py t unit :=
  self ← get;
  _ ← lift (index (options self) (val_pos self));
  mret tt.

Definition set_val_pos (p : Z) : Py t unit :=
  modify (fun self => {| options := options self; val_pos := p |}).

Definition do_command (args : list key) : Py t unit :=
  match args with
  | [key] =>
      self ← get;
      if String.eqb key "KEY_LEFT" then
        (if val_pos self >? 0 then set_val_pos (val_pos self - 1) else mret tt);;
        refresh
      else if String.eqb key "KEY_RIGHT" then
        (if val_pos self <? len (options self) - 1
         then set_val_pos (val_pos self + 1) else mret tt);;
        refresh
      else mret tt
  | _ => raise TypeError
  end.

Definition reply (self : t) : Py Field unit :=
  FormField.set_label "";;
  FormField.delOptions;;
  option ← lift (index (options self) (val_pos self));
  FormField.setAnswer (VStr (opt_value option)).

End ListSingleWin.

(** [class TextSingleWin(FieldInput, windows.Input)], and
    [class TextPrivateWin(TextSingleWin)], which only overrides the drawing. *)
Module TextSingleWin.

Record t := { text : string; pos : Z }.

Definition __init__ : Py Field t :=
  v ← FormField.getValue;
  let text := match v with VStr s => s | _ => "" end in
  mret {| text := text; pos := str_len text |}.

(** Modelled from the spec: [windows.Input.get_text] is not under src/;
    [reply] "sets the field's answer to the current buffer contents". *)
Definition get_text (self : t) : string := text self.

Definition refresh : Py t unit := mret tt.

Definition reply (self : t) : Py Field unit :=
  FormField.set_label "";;
  FormField.setAnswer (VStr (get_text self)).

Section Editing.
(** The line editor of [windows.Input] is not under src/: how a key edits
    the buffer is a parameter. *)
Variable Input_do_command : key -> Py t unit.

Definition do_command (args : list key) : Py t unit :=
  match args with
  | [key] => Input_do_command key
  | _ => raise TypeError
  end.
End Editing.

End TextSingleWin.

(** ** Input objects and dynamic dispatch *)

(** The class of an input object together with the state the class adds. *)
Inductive Win :=
| Dummy
| Boolean (w : BooleanWin.t)
| ListMulti (w : ListMultiWin.t)
| ListSingle (w : ListSingleWin.t)
| TextSingle (w : TextSingleWin.t)
| TextPrivate (w : TextSingleWin.t).

(** An input object: the attributes of [FieldInput] and those of its class.
    [_field] refers to a field of the form by its position. *)
Record Input := { _field : nat; color : Z; win : Win }.

(** The values of [FormWin.input_classes]. *)
Inductive input_class :=
| cBooleanWin | cDummyInput | cListMultiWin | cListSingleWin
| cTextPrivateWin | cTextSingleWin.

(** [class FieldInput(object)], with the method lookup of its subclasses. *)
Module FieldInput.

(** Run a method of the class on the part of the object the class owns. *)
Definition in_class {T A} (wrap : T -> Win) (m : Py T A) (w : T) : Py Input A :=
  fun self =>
    let '(r, w') := m w in
    (r, {| _field := _field self; color := color self; win := wrap w' |}).

(** [input_class(field)]: [FieldInput.__init__] sets [_field] and
    [color = 14], the class adds its own attributes ([TextSingleWin] sets
    [color = 14] once more). *)
Definition __init__ (cls : input_class) (field : nat) : Py Field Input :=
  w ← match cls with
      | cDummyInput => mret Dummy
      | cBooleanWin => Boolean <$> BooleanWin.__init__
      | cListMultiWin => ListMulti <$> ListMultiWin.__init__
      | cListSingleWin => ListSingle <$> ListSingleWin.__init__
      | cTextSingleWin => TextSingle <$> TextSingleWin.__init__
      | cTextPrivateWin => TextPrivate <$> TextSingleWin.__init__
      end;
  mret {| _field := field; color := 14; win := w |}.

Definition is_dummy (self : Input) : bool :=
  match win self with
  | Dummy => DummyInput.is_dummy
  | _ => false
  end.

Definition refresh : Py Input unit :=
  fun self =>
    match win self with
    | Dummy => in_class (fun _ => Dummy) DummyInput.refresh tt self
    | Boolean w => in_class Boolean BooleanWin.refresh w self
    | ListMulti w => in_class ListMulti ListMultiWin.refresh w self
    | ListSingle w => in_class ListSingle ListSingleWin.refresh w self
    | TextSingle w => in_class TextSingle TextSingleWin.refresh w self
    | TextPrivate w => in_class TextPrivate TextSingleWin.refresh w self
    end.

Definition set_color (c : Z) : Py Input unit :=
  modify (fun self => {| _field := _field self; color := c; win := win self |});;
  refresh.

(** [reply] is [NotImplementedError] unless the class overrides it;
    [DummyInput] does not. *)
Definition reply (self : Input) : Py Field unit :=
  match win self with
  | Dummy => raise NotImplementedError
  | Boolean w => BooleanWin.reply w
  | ListMulti w => ListMultiWin.reply w
  | ListSingle w => ListSingleWin.reply w
  | TextSingle w => TextSingleWin.reply w
  | TextPrivate w => TextSingleWin.reply w
  end.

Section Editing.
Variable Input_do_command : key -> Py TextSingleWin.t unit.

(** [inp.do_command(...)], by the class of [inp] *)
Definition do_command (args : list key) : Py Input unit :=
  fun self =>
    match win self with
    | Dummy => in_class (fun _ => Dummy) (DummyInput.do_command args) tt self
    | Boolean w => in_class Boolean (BooleanWin.do_command args) w self
    | ListMulti w => in_class ListMulti (ListMultiWin.do_command args) w self
    | ListSingle w => in_class ListSingle (ListSingleWin.do_command args) w self
    | TextSingle w =>
        in_class TextSingle (TextSingleWin.do_command Input_do_command args) w self
    | TextPrivate w =>
        in_class TextPrivate (TextSingleWin.do_command Input_do_command args) w self
    end.
End Editing.

End FieldInput.

(** ** [class FormWin(object)] *)

Definition inspect {A} (a : A) : {b : A | a = b} := exist _ a eq_refl.

Module FormWin.

Definition input_classes : gmap string input_class :=
  list_to_map [("boolean", cBooleanWin);
               ("fixed", cDummyInput);
               ("jid-single", cTextSingleWin);
               ("list-multi", cListMultiWin);
               ("list-single", cListSingleWin);
               ("text-private", cTextPrivateWin);
               ("text-single", cTextSingleWin)].

(** An element of [self.inputs]: the dict with the keys ['label'],
    ['instructions'] and ['input'].  The label of a fixed field is the
    field's value, so it is a value rather than a string. *)
Record entry := { label : pyvalue; instructions : string; input : Input }.

Record t := { inputs : list entry; current_input : Z }.

(** The body of the loop of [__init__], on one field of the form; [None]
    is the [continue] of a hidden field. *)
Definition add_input (ref : nat) : Py Field (option entry) :=
  field ← get;
  if String.eqb (fld_type field) "hidden" then mret None
  else
    cls ← match input_classes !! fld_type field with
          | Some cls => mret cls
          | None =>
              FormField.setValue (VStr (fld_type field));;
              mret cTextSingleWin
          end;
    field ← get;
    let instructions := fld_instructions field in
    label ← (if String.eqb (fld_type field) "fixed"
             then FormField.getValue
             else mret (VStr (fld_label field)));
    inp ← FieldInput.__init__ cls ref;
    mret (Some {| label := label; instructions := instructions; input := inp |}).

(** [for (name, field) in self._form.getFields(): ...], from the field at
    position [ref] on, with the inputs appended so far. *)
Fixpoint add_inputs (ref : nat) (fields : list (string * Field))
    (inputs : list entry) : result (list entry) * list (string * Field) :=
  match fields with
  | [] => (Returns inputs, [])
  | (name, field) :: rest =>
      match add_input ref field with
      | (Raises e, field') => (Raises e, (name, field') :: rest)
      | (Returns added, field') =>
          let inputs' := match added with
                         | Some inp => (inputs ++ [inp])%list
                         | None => inputs
                         end in
          let '(r, rest') := add_inputs (S ref) rest inputs' in
          (r, (name, field') :: rest')
      end
  end.

Definition __init__ : Py Form t :=
  fun form =>
    let '(r, fields') := add_inputs 0 (form_fields form) [] in
    (match r with
     | Returns inputs => Returns {| inputs := inputs; current_input := 0 |}
     | Raises e => Raises e
     end,
     FormObj.with_fields fields' form).

(** Run a method of [inp['input']]. *)
Definition on_obj {A} (m : Py Input A) : Py entry A :=
  fun inp =>
    let '(r, obj) := m (input inp) in
    (r, {| label := label inp; instructions := instructions inp; input := obj |}).

(** Run a method of [self.inputs[i]['input']]. *)
Definition on_inputs {A} (i : Z) (m : Py Input A) : Py t A :=
  fun self =>
    let '(r, inputs') := at_index i (on_obj m) (inputs self) in
    (r, {| inputs := inputs'; current_input := current_input self |}).

Definition set_current_input (i : Z) : Py t unit :=
  modify (fun self => {| inputs := inputs self; current_input := i |}).

(** [inputs[i]['input'].is_dummy()] *)
Definition dummy_at (inputs : list entry) (i : Z) : result bool :=
  match getitem inputs i with
  | Some inp => Returns (FieldInput.is_dummy (input inp))
  | None => Raises IndexError
  end.

(** [for inp in self.inputs: if inp['input'].is_dummy(): continue
                             else: inp['input'].reply()] *)
Fixpoint reply_inputs (inputs : list entry) : Py Form unit :=
  match inputs with
  | [] => mret tt
  | inp :: rest =>
      (if FieldInput.is_dummy (input inp) then mret tt
       else FormObj.on_field (_field (input inp)) (FieldInput.reply (input inp)));;
      reply_inputs rest
  end.

Definition reply (self : t) : Py Form unit :=
  reply_inputs (inputs self);;
  FormObj.set_title "";;
  FormObj.set_instructions "".

(** [while self.current_input+jump != len(self.inputs) - 1
          and self.inputs[self.current_input+jump]['input'].is_dummy():
        jump += 1]
    The value of [jump] when the loop ends. *)
Equations? next_jump (inputs : list entry) (current_input jump : Z) : result Z
  by wf (Z.to_nat (len inputs - (current_input + jump))) lt :=
  next_jump inputs current_input jump
    with current_input + jump =? len inputs - 1 := {
    | true := Returns jump
    | false with inspect (dummy_at inputs (current_input + jump)) := {
        | exist _ (Raises e) _ := Raises e
        | exist _ (Returns true) E := next_jump inputs current_input (jump + 1)
        | exist _ (Returns false) _ := Returns jump } }.
Proof.
  unfold dummy_at, getitem in E. unfold len in *.
  match type of E with
  | context [?i <? 0] => destruct (Z.ltb_spec i 0) as [Hneg | Hpos]
  end; [lia |].
  match type of E with
  | context [?l !! ?n] => destruct (l !! n) eqn:Hread
  end; [| discriminate].
  apply lookup_lt_Some in Hread. lia.
Qed.

(** [while self.current_input-jump > 0
          and self.inputs[self.current_input+jump]['input'].is_dummy():
        jump += 1] *)
Equations? previous_jump (inputs : list entry) (current_input jump : Z) : result Z
  by wf (Z.to_nat (current_input - jump)) lt :=
  previous_jump inputs current_input jump
    with inspect (current_input - jump >? 0) := {
    | exist _ false _ := Returns jump
    | exist _ true E with dummy_at inputs (current_input + jump) := {
        | Raises e := Raises e
        | Returns true := previous_jump inputs current_input (jump + 1)
        | Returns false := Returns jump } }.
Proof. lia. Qed.

Definition go_to_next_input : Py t unit :=
  self ← get;
  match inputs self with
  | [] => mret tt
  | _ :: _ =>
      if current_input self =? len (inputs self) - 1 then mret tt
      else
        on_inputs (current_input self) (FieldInput.set_color 14);;
        set_current_input (current_input self + 1);;
        self ← get;
        jump ← lift (next_jump (inputs self) (current_input self) 0);
        dummy ← lift (dummy_at (inputs self) (current_input self + jump));
        if dummy : bool then mret tt
        else
          set_current_input (current_input self + jump);;
          self ← get;
          on_inputs (current_input self) (FieldInput.set_color 13)
  end.

Definition go_to_previous_input : Py t unit :=
  self ← get;
  match inputs self with
  | [] => mret tt
  | _ :: _ =>
      if current_input self =? 0 then mret tt
      else
        on_inputs (current_input self) (FieldInput.set_color 14);;
        set_current_input (current_input self - 1);;
        self ← get;
        jump ← lift (previous_jump (inputs self) (current_input self) 0);
        dummy ← lift (dummy_at (inputs self) (current_input self + jump));
        if dummy : bool then mret tt
        else
          set_current_input (current_input self - jump);;
          self ← get;
          on_inputs (current_input self) (FieldInput.set_color 13)
  end.

(** The first loop of [refresh], over the fields of the form from the
    counter [i] on: a hidden field is skipped, and for any other field
    [self.inputs[i]] is read (for its label, then for its window, which is
    given its place on the screen) and [i] goes up by one. *)
Fixpoint refresh_labels (fields : list (string * Field)) (i : Z) : Py t unit :=
  match fields with
  | [] => mret tt
  | (name, field) :: rest =>
      if String.eqb (fld_type field) "hidden" then refresh_labels rest i
      else
        self ← get;
        _ ← lift (index (inputs self) i);
        refresh_labels rest (i + 1)
  end.

(** [for inp in self.inputs: inp['input'].refresh()], from the input at
    index [i] on, for [n] inputs. *)
Fixpoint refresh_inputs (n : nat) (i : Z) : Py t unit :=
  match n with
  | O => mret tt
  | S n' => on_inputs i FieldInput.refresh;; refresh_inputs n' (i + 1)
  end.

(** [refresh], for the form [self._form] is at the time. *)
Definition refresh (form : Form) : Py t unit :=
  refresh_labels (form_fields form) 0;;
  self ← get;
  refresh_inputs (length (inputs self)) 0;;
  self ← get;
  on_inputs (current_input self) (FieldInput.set_color 13);;
  self ← get;
  on_inputs (current_input self) FieldInput.refresh.

Section Editing.
Variable Input_do_command : key -> Py TextSingleWin.t unit.

Definition on_input (key : key) : Py t unit :=
  self ← get;
  match inputs self with
  | [] => mret tt
  | _ :: _ =>
      on_inputs (current_input self)
        (FieldInput.do_command Input_do_command [key])
  end.
End Editing.

End FormWin.

(** ** [class DataFormsTab(Tab)]: the two commands *)

Module DataFormsTab.

(** A call of one of the two functions the tab was given, with the form as
    it is when the call is made. *)
Inductive call :=
| OnCancel (form : Form)
| OnSend (form : Form).

(** [_form] is the form object the tab, its [FormWin] and the input windows
    all refer to; [calls] lists the calls of [_on_cancel] and [_on_send]
    made so far. *)
Record t := { _form : Form; form_win : FormWin.t; calls : list call }.

Definition on_form {A} (m : Py Form A) : Py t A :=
  fun self =>
    let '(r, form) := m (_form self) in
    (r, {| _form := form; form_win := form_win self; calls := calls self |}).

Definition invoke (callback : Form -> call) : Py t unit :=
  modify (fun self => {| _form := _form self; form_win := form_win self;
                         calls := (calls self ++ [callback (_form self)])%list |}).

(** The part of [__init__] that is not drawing or key binding:
    [self._form = form] and [self.form_win = FormWin(form, ...)]. *)
Definition __init__ : Py Form t :=
  win ← FormWin.__init__;
  form ← get;
  mret {| _form := form; form_win := win; calls := [] |}.

Definition on_cancel : Py t unit :=
  invoke OnCancel.

Section Library.
(** [self._form.reply()] is a method of the XMPP library's form class,
    not under src/: a parameter. *)
Variable Form_reply : Py Form unit.

Definition on_send : Py t unit :=
  on_form Form_reply;;
  self ← get;
  on_form (FormWin.reply (form_win self));;
  invoke OnSend.
End Library.

Definition on_form_win {A} (m : Py FormWin.t A) : Py t A :=
  fun self =>
    let '(r, win) := m (form_win self) in
    (r, {| _form := _form self; form_win := win; calls := calls self |}).

Section Keys.
Variable Form_reply : Py Form unit.
Variable Input_do_command : key -> Py TextSingleWin.t unit.
(** [self.key_func] as [Tab.__init__] leaves it ([Tab] is not under src/):
    the bound methods are the computations they run. *)
Variable Tab_key_func : gmap string (Py t unit).

(** [self.key_func] once [__init__] has bound its four keys. *)
Definition key_func : gmap string (Py t unit) :=
  <["^Y" := on_send Form_reply]>
    (<["^G" := on_cancel]>
       (<["KEY_DOWN" := on_form_win FormWin.go_to_next_input]>
          (<["KEY_UP" := on_form_win FormWin.go_to_previous_input]>
             Tab_key_func))).

Definition on_input (key : key) : Py t unit :=
  match key_func !! key with
  | Some command => command
  | None => on_form_win (FormWin.on_input Input_do_command key)
  end.
End Keys.

End DataFormsTab.

(** ** Notions the properties are stated with *)

(** The keys of [FormWin.input_classes]. *)
Definition recognized_types : list string :=
  ["boolean"; "fixed"; "jid-single"; "list-multi"; "list-single";
   "text-private"; "text-single"].

(** The window [FormWin.__init__] builds for a list field without options. *)
Definition empty_list_input (ref : nat) (ty : string) : Input :=
  {| _field := ref; color := 14;
     win := if String.eqb ty "list-single"
            then ListSingle {| ListSingleWin.options := []; ListSingleWin.val_pos := 0 |}
            else ListMulti {| ListMultiWin.options := []; ListMultiWin.val_pos := 0 |} |}.

(** [for x in l: body(x)] *)
Fixpoint for_each {S A} (l : list A) (body : A -> Py S unit) : Py S unit :=
  match l with
  | [] => mret tt
  | x :: rest => body x;; for_each rest body
  end.



(** An input window whose redraw does not raise: the cursor of a list
    window is on an option. *)
Definition draws (obj : Input) : Prop :=
  match win obj with
  | ListMulti w =>
      is_Some (getitem (ListMultiWin.options w) (ListMultiWin.val_pos w))
  | ListSingle w =>
      is_Some (getitem (ListSingleWin.options w) (ListSingleWin.val_pos w))
  | _ => True
  end.

Definition all_draw (inputs : list FormWin.entry) : Prop :=
  forall inp, inp ∈ inputs -> draws (FormWin.input inp).

(** The invariant of section 3 on a field: a list field has options. *)
Definition has_options (field : Field) : Prop :=
  fld_type field = "list-single" \/ fld_type field = "list-multi" ->
  fld_options field <> [].

(** The entry [inp] once its window has the colour [c]. *)
Definition recolour (c : Z) (inp : FormWin.entry) : FormWin.entry :=
  {| FormWin.label := FormWin.label inp;
     FormWin.instructions := FormWin.instructions inp;
     FormWin.input := {| _field := _field (FormWin.input inp); color := c;
                         win := win (FormWin.input inp) |} |}.

(** The list of input windows [inputs'] is [inputs] up to the colours. *)
Definition same_windows (inputs inputs' : list FormWin.entry) : Prop :=
  len inputs' = len inputs
  /\ (forall j, FormWin.dummy_at inputs' j = FormWin.dummy_at inputs j)
  /\ (all_draw inputs -> all_draw inputs').

(** [m] called [n] times in a row. *)
Fixpoint repeat_call {S} (n : nat) (m : Py S unit) : Py S unit :=
  match n with
  | O => mret tt
  | Datatypes.S n' => m;; repeat_call n' m
  end.

(** The invariant of section 3, as C1 states it: the focus is on a window
    that is not a dummy, unless every window of the list is a dummy. *)
Definition focus_invariant (self : FormWin.t) : Prop :=
  FormWin.dummy_at (FormWin.inputs self) (FormWin.current_input self) = Returns false
  \/ forall k, 0 <= k < len (FormWin.inputs self) ->
       FormWin.dummy_at (FormWin.inputs self) k = Returns true.

(** What the code keeps: the focus is on a window that is not a dummy,
    unless every window from the focus to the end of the list is a dummy. *)
Definition focus_settled (self : FormWin.t) : Prop :=
  FormWin.dummy_at (FormWin.inputs self) (FormWin.current_input self) = Returns false
  \/ forall k, FormWin.current_input self <= k < len (FormWin.inputs self) ->
       FormWin.dummy_at (FormWin.inputs self) k = Returns true.

Definition focus_in_range (self : FormWin.t) : Prop :=
  0 <= FormWin.current_input self < len (FormWin.inputs self).

(** The keys a [BooleanWin] reacts to. *)
Definition is_arrow (key : key) : bool :=
  String.eqb key "KEY_LEFT" || String.eqb key "KEY_RIGHT".

(** Where a key takes the cursor of a list window with [n] options: one to
    the left but not below 0, one to the right but not past the last
    option, and nowhere for any other key. *)
Definition cursor_after (n : Z) (p : Z) (key : key) : Z :=
  if String.eqb key "KEY_LEFT" then Z.max 0 (p - 1)
  else if String.eqb key "KEY_RIGHT" then Z.min (n - 1) (p + 1)
  else p.

(** A list-multi field [ListMultiWin.__init__] raises on: it has options,
    and a value ([None] or a boolean) that [in] cannot search. *)
Definition unseedable (field : Field) : Prop :=
  fld_type field = "list-multi"
  /\ fld_options field <> []
  /\ (fld_value field = VNone \/ exists b, fld_value field = VBool b).

(** The positions, counted from [ref], of the fields that are not hidden. *)
Fixpoint shown_refs (ref : nat) (fields : list (string * Field)) : list nat :=
  match fields with
  | [] => []
  | (_, field) :: rest =>
      if String.eqb (fld_type field) "hidden" then shown_refs (S ref) rest
      else ref :: shown_refs (S ref) rest
  end.

(** A field once [FormWin.__init__] is through with it: a field that is
    neither hidden nor of a type among the keys of [input_classes] has its
    type name as its value. *)
Definition after_init (field : Field) : Field :=
  if decide (fld_type field ∈ "hidden" :: recognized_types) then field
  else {| fld_type := fld_type field; fld_label := fld_label field;
          fld_instructions := fld_instructions field;
          fld_value := VStr (fld_type field);
          fld_options := fld_options field |}.

(** The input windows are those of the fields: one per field that is not
    hidden, in field order, each referring to its field, and a dummy exactly
    for a fixed field. *)
Definition wired (fields : list (string * Field)) (inputs : list FormWin.entry) : Prop :=
  map (fun inp => _field (FormWin.input inp)) inputs = shown_refs 0 fields
  /\ forall inp name f,
       inp ∈ inputs -> fields !! _field (FormWin.input inp) = Some (name, f) ->
       (FieldInput.is_dummy (FormWin.input inp) = true <-> fld_type f = "fixed").

(** The class of an input window. *)
Definition class_of (w : Win) : input_class :=
  match w with
  | Dummy => cDummyInput
  | Boolean _ => cBooleanWin
  | ListMulti _ => cListMultiWin
  | ListSingle _ => cListSingleWin
  | TextSingle _ => cTextSingleWin
  | TextPrivate _ => cTextPrivateWin
  end.

(** What an entry of [self.inputs] is wired to: its label and instructions,
    the field its window refers to, and the class of the window. *)
Definition wiring (inp : FormWin.entry) : pyvalue * string * nat * input_class :=
  (FormWin.label inp, FormWin.instructions inp,
   _field (FormWin.input inp), class_of (win (FormWin.input inp))).

Definition same_wiring (self self' : FormWin.t) : Prop :=
  map wiring (FormWin.inputs self') = map wiring (FormWin.inputs self).

(** [m] leaves the state it runs on related by [R] to the state it leaves
    behind, whether it returns or raises. *)
Definition keeps {S A} (R : S -> S -> Prop) (m : Py S A) : Prop :=
  forall s, R s (snd (m s)).

(** No input window but the one under the focus is highlighted: every
    other window has the colour 14 of a window without the focus. *)
Definition highlight_ok (self : FormWin.t) : Prop :=
  forall (k : nat) inp,
    FormWin.inputs self !! k = Some inp ->
    Z.of_nat k <> FormWin.current_input self ->
    color (FormWin.input inp) = 14.

Definition all_plain (inputs : list FormWin.entry) : Prop :=
  forall (k : nat) inp, inputs !! k = Some inp -> color (FormWin.input inp) = 14.

(** What the input windows hold, colours apart: for each entry its window
    with the text, the cursor or the option flags it has. *)
Definition contents (self : FormWin.t) : list Win :=
  map (fun inp => win (FormWin.input inp)) (FormWin.inputs self).

Definition same_contents (self self' : FormWin.t) : Prop :=
  contents self' = contents self.

(** The four keys [DataFormsTab.__init__] binds. *)
Definition tab_keys : list key := ["KEY_UP"; "KEY_DOWN"; "^G"; "^Y"].

(** The answer a field with the value [v] gets from a window of the class
    [cls] that no key has edited, for the classes without options. *)
Definition unedited_answer (cls : input_class) (v : pyvalue) : pyvalue :=
  match cls with
  | cBooleanWin => VBool (truth v)
  | _ => VStr (match v with VStr s => s | _ => "" end)
  end.

(** The field [field] once a window has replied with the answer [v]. *)
Definition answered (v : pyvalue) (field : Field) : Field :=
  {| fld_type := fld_type field; fld_label := "";
     fld_instructions := fld_instructions field;
     fld_value := v; fld_options := fld_options field |}.

(** A call of one of the methods of a [FormWin] that the tab makes: a key
    handed to [on_input], one of the two focus moves, or [refresh] for the
    form as it is at the time. *)
Inductive action :=
| Key (k : key)
| Next
| Previous
| Refresh (form : Form).

Definition act (Input_do_command : key -> Py TextSingleWin.t unit) (a : action) :
    Py FormWin.t unit :=
  match a with
  | Key k => FormWin.on_input Input_do_command k
  | Next => FormWin.go_to_next_input
  | Previous => FormWin.go_to_previous_input
  | Refresh form => FormWin.refresh form
  end.

(** As many input windows after as before, and all of them can be drawn if
    all of them could. *)
Definition still_drawable (self self' : FormWin.t) : Prop :=
  length (FormWin.inputs self') = length (FormWin.inputs self)
  /\ (all_draw (FormWin.inputs self) -> all_draw (FormWin.inputs self')).

(** An input window that refers to the field it referred to and is of the
    class it was of. *)
Definition same_object (obj obj' : Input) : Prop :=
  _field obj' = _field obj /\ class_of (win obj') = class_of (win obj).

(** An input window that holds what it held. *)
Definition same_win (obj obj' : Input) : Prop := win obj' = win obj.

(** An input window that can be drawn if it could. *)
Definition still_draws (obj obj' : Input) : Prop := draws obj -> draws obj'.

(** * Properties *)

(** Unfolding of the monad operations, for evaluating a method by hand. *)
Ltac py_unfold :=
  unfold mbind, mret, fmap, Py_bind, Py_ret, Py_fmap, bind, ret, raise, lift,
    get, put, modify in *.

Ltac py_simpl := py_unfold; cbn in *.

(** ** Indexing *)

Lemma getitem_nil {A} (i : Z) : getitem (@nil A) i = None.
Proof.
  unfold getitem. rewrite !lookup_nil.
  destruct (i <? 0); [destruct (- len [] <=? i) |]; reflexivity.
Qed.

Lemma getitem_nat {A} (l : list A) (i : nat) : getitem l (Z.of_nat i) = l !! i.
Proof.
  unfold getitem. destruct (Z.ltb_spec (Z.of_nat i) 0); [lia |].
  now rewrite Nat2Z.id.
Qed.

Lemma getitem_nonneg {A} (l : list A) (i : Z) :
  0 <= i -> getitem l i = l !! Z.to_nat i.
Proof. intros Hi. unfold getitem. destruct (Z.ltb_spec i 0); [lia | reflexivity]. Qed.

Lemma getitem_in_range {A} (l : list A) (i : Z) :
  0 <= i < len l -> exists x, getitem l i = Some x.
Proof.
  intros [Hi Hlen]. rewrite getitem_nonneg by assumption.
  apply lookup_lt_is_Some_2. unfold len in Hlen. lia.
Qed.

Lemma position_nonneg {A} (l : list A) (i : Z) : 0 <= i -> position l i = Z.to_nat i.
Proof. intros Hi. unfold position. destruct (Z.ltb_spec i 0); [lia | reflexivity]. Qed.

Lemma getitem_position {A} (l : list A) (i : Z) (x : A) :
  getitem l i = Some x -> l !! position l i = Some x.
Proof.
  unfold getitem, position. destruct (i <? 0); [| easy].
  destruct (- len l <=? i); [easy | discriminate].
Qed.

(** Writing back the object that was read leaves the list as it was. *)
Lemma at_index_same {A B} (l : list A) (i : Z) (x : A) (m : Py A B) (r : result B) :
  getitem l i = Some x -> m x = (r, x) -> at_index i m l = (r, l).
Proof.
  intros Hx Hm. unfold at_index. rewrite Hx, Hm.
  now rewrite (list_insert_id _ _ _ (getitem_position _ _ _ Hx)).
Qed.

(** ** C6 and C7: what the list windows reply *)

(** C6. [ListMultiWin.reply] always returns; it empties the field's option
    list and sets the field's value to the values of the options whose flag
    is set, in the order of the option list: the answer is a subsequence of
    the option values, and a value is in it exactly when an option with that
    value is flagged.  With the flags A: true, B: false, C: true the answer
    is [A, C]. *)
Theorem C6_list_multi_reply (w : ListMultiWin.t) (field : Field) :
  let answer :=
    map (fun o => opt_value (fst o))
        (filter (fun o => snd o = true) (ListMultiWin.options w)) in
  ListMultiWin.reply w field =
    (Returns tt,
     {| fld_type := fld_type field; fld_label := "";
        fld_instructions := fld_instructions field;
        fld_value := VList answer; fld_options := [] |})
  /\ sublist answer (map (fun o => opt_value (fst o)) (ListMultiWin.options w))
  /\ (forall v, v ∈ answer <->
                exists o, (o, true) ∈ ListMultiWin.options w /\ opt_value o = v)
  /\ (forall a b c la lb lc,
        ListMultiWin.options w =
          [({| opt_value := a; opt_label := la |}, true);
           ({| opt_value := b; opt_label := lb |}, false);
           ({| opt_value := c; opt_label := lc |}, true)] ->
        answer = [a; c]).
Proof.
  cbn zeta. repeat split.
  - apply fmap_sublist, sublist_filter.
  - intros Hv. apply list_elem_of_fmap in Hv as [[o b] [-> Ho]].
    apply list_elem_of_filter in Ho as [Hb Ho]. cbn in Hb. subst b.
    now exists o.
  - intros [o [Ho <-]]. apply list_elem_of_fmap. exists (o, true).
    split; [reflexivity |]. apply list_elem_of_filter. now split.
  - intros a b c la lb lc ->. reflexivity.
Qed.

(** C7. With the cursor at index [i] of the option list and an option [o]
    there, [ListSingleWin.reply] returns, empties the field's option list and
    sets the field's value to the value of [o]. *)
Theorem C7_list_single_reply (w : ListSingleWin.t) (field : Field)
    (i : nat) (o : FieldOption) :
  ListSingleWin.val_pos w = Z.of_nat i ->
  ListSingleWin.options w !! i = Some o ->
  ListSingleWin.reply w field =
    (Returns tt,
     {| fld_type := fld_type field; fld_label := "";
        fld_instructions := fld_instructions field;
        fld_value := VStr (opt_value o); fld_options := [] |}).
Proof.
  intros Hpos Ho. unfold ListSingleWin.reply, index. py_simpl.
  now rewrite Hpos, getitem_nat, Ho.
Qed.

(** The cursor at index 2 of [A, B, C]: the answer is the value of C. *)
Lemma C7_list_single_reply_witness :
  let w := {| ListSingleWin.options :=
                [{| opt_value := "A"; opt_label := "a" |};
                 {| opt_value := "B"; opt_label := "b" |};
                 {| opt_value := "C"; opt_label := "c" |}];
              ListSingleWin.val_pos := 2 |} in
  let field := {| fld_type := "list-single"; fld_label := "Pick one";
                  fld_instructions := ""; fld_value := VStr "A";
                  fld_options := ListSingleWin.options w |} in
  ListSingleWin.reply w field =
    (Returns tt,
     {| fld_type := "list-single"; fld_label := ""; fld_instructions := "";
        fld_value := VStr "C"; fld_options := [] |}).
Proof.
  intros w field.
  exact (C7_list_single_reply w field 2%nat
           {| opt_value := "C"; opt_label := "c" |} eq_refl eq_refl).
Defined.

(** ** C10: every class that overrides [reply] clears the label *)

(** C10 as stated fails: the window [FormWin.__init__] builds for a
    list-single field without options is not a [DummyInput], and its [reply]
    empties the label, raises [IndexError] and leaves the value of the field
    as it was: no answer is committed. *)
Theorem C10_reply_clears_label_counterexample :
  let field := {| fld_type := "list-single"; fld_label := "Language";
                  fld_instructions := ""; fld_value := VStr "en";
                  fld_options := [] |} in
  exists inp,
    FormWin.add_input 0 field = (Returns (Some inp), field)
    /\ FieldInput.is_dummy (FormWin.input inp) = false
    /\ FieldInput.reply (FormWin.input inp) field =
         (Raises IndexError,
          {| fld_type := "list-single"; fld_label := ""; fld_instructions := "";
             fld_value := VStr "en"; fld_options := [] |}).
Proof.
  eexists. split; [vm_compute; reflexivity |]. split; reflexivity.
Qed.

(** C10, amended. For an input window that is not a [DummyInput], [reply]
    leaves the field's label empty, whether it returns or raises.  For a
    [BooleanWin], a [ListMultiWin], a [TextSingleWin] and a [TextPrivateWin]
    it returns, with the window's state as the value of the field: the
    boolean; the values of the flagged options in the order of the option
    list (the field's options are deleted); the text.  For a [ListSingleWin]
    whose cursor is on an option it returns with the value of that option
    as the value of the field (the field's options are deleted); when the
    cursor is on no option it raises [IndexError], with the label emptied
    and the options deleted but the value of the field as it was. *)
Theorem C10_reply_clears_label (inp : Input) (field : Field) :
  FieldInput.is_dummy inp = false ->
  let result := FieldInput.reply inp field in
  let answer (v : pyvalue) (opts : list FieldOption) :=
    {| fld_type := fld_type field; fld_label := "";
       fld_instructions := fld_instructions field;
       fld_value := v; fld_options := opts |} in
  fld_label (snd result) = ""
  /\ match win inp with
     | Dummy => False
     | Boolean w =>
         result = (Returns tt, answer (VBool (BooleanWin.value w)) (fld_options field))
     | ListMulti w =>
         result =
           (Returns tt,
            answer (VList (map (fun o => opt_value (fst o))
                             (filter (fun o => snd o = true) (ListMultiWin.options w))))
                   [])
     | ListSingle w =>
         match getitem (ListSingleWin.options w) (ListSingleWin.val_pos w) with
         | Some o => result = (Returns tt, answer (VStr (opt_value o)) [])
         | None => result = (Raises IndexError, answer (fld_value field) [])
         end
     | TextSingle w | TextPrivate w =>
         result = (Returns tt, answer (VStr (TextSingleWin.text w)) (fld_options field))
     end.
Proof.
  destruct inp as [ref c [| w | w | w | w | w]]; cbn; intros Hdummy;
    try discriminate; try (split; reflexivity).
  unfold FieldInput.reply, ListSingleWin.reply, index. py_simpl.
  destruct (getitem _ _); split; reflexivity.
Qed.

(** A list-multi window with the first and the third of three options
    flagged: the answer is the values of these two, in that order. *)
Lemma C10_reply_clears_label_witness :
  let opt v := {| opt_value := v; opt_label := v |} in
  let w := {| ListMultiWin.options :=
                [(opt "red", true); (opt "green", false); (opt "blue", true)];
              ListMultiWin.val_pos := 1 |} in
  let inp := {| _field := 0; color := 13; win := ListMulti w |} in
  let field := {| fld_type := "list-multi"; fld_label := "Colours";
                  fld_instructions := ""; fld_value := VList ["green"];
                  fld_options := [opt "red"; opt "green"; opt "blue"] |} in
  FieldInput.reply inp field =
    (Returns tt,
     {| fld_type := "list-multi"; fld_label := ""; fld_instructions := "";
        fld_value := VList ["red"; "blue"]; fld_options := [] |}).
Proof.
  intros opt w inp field.
  exact (proj2 (C10_reply_clears_label inp field eq_refl)).
Defined.

(** ** C8: cancelling *)

(** C8. [on_cancel] returns, having called [_on_cancel] with the form; the
    form (every field's value, label and options, the title and the
    instructions) and the input windows are as they were before. *)
Theorem C8_cancel_leaves_form (self : DataFormsTab.t) :
  exists self',
    DataFormsTab.on_cancel self = (Returns tt, self')
    /\ DataFormsTab.calls self' =
         (DataFormsTab.calls self ++ [DataFormsTab.OnCancel (DataFormsTab._form self)])%list
    /\ DataFormsTab._form self' = DataFormsTab._form self
    /\ DataFormsTab.form_win self' = DataFormsTab.form_win self.
Proof. eexists. repeat split. Qed.

(** ** C3: a key on a [DummyInput] *)

(** [on_input] with a [DummyInput] under the focus: [do_command] is called
    with the key, which the method of [DummyInput] has no parameter for. *)
Lemma on_input_dummy Input_do_command (self : FormWin.t) (key : key)
    (inp : FormWin.entry) :
  getitem (FormWin.inputs self) (FormWin.current_input self) = Some inp ->
  win (FormWin.input inp) = Dummy ->
  FormWin.on_input Input_do_command key self = (Raises TypeError, self).
Proof.
  intros Hinp Hwin. unfold FormWin.on_input. py_simpl.
  destruct self as [inputs cur]. cbn in *.
  destruct inputs as [| first rest].
  { now rewrite getitem_nil in Hinp. }
  unfold FormWin.on_inputs. cbn.
  erewrite at_index_same; [reflexivity | exact Hinp |].
  unfold FormWin.on_obj, FieldInput.do_command, FieldInput.in_class.
  rewrite Hwin. cbn.
  destruct inp as [l i [f c w]]. cbn in *. now subst w.
Qed.

(** C3 (the code at the failing input). A form with one fixed field: the
    focus is on its [DummyInput] from construction on, and the key "a" makes
    [on_input] raise [TypeError], whatever the line editor of the text
    windows does. *)
Theorem C3_key_on_dummy_raises :
  let form := {| form_title := "Registration"; form_instructions := "";
                 form_fields :=
                   [("note", {| fld_type := "fixed"; fld_label := "";
                                fld_instructions := "";
                                fld_value := VStr "Fill in the fields below";
                                fld_options := [] |})] |} in
  exists form_win,
    FormWin.__init__ form = (Returns form_win, form)
    /\ forall Input_do_command,
         FormWin.on_input Input_do_command "a" form_win = (Raises TypeError, form_win).
Proof.
  eexists. split; [reflexivity |].
  intros Input_do_command. eapply on_input_dummy; reflexivity.
Qed.

(** ** C9: a field of a type [input_classes] does not know *)

Lemma input_classes_unrecognized (ty : string) :
  ty ∉ recognized_types -> FormWin.input_classes !! ty = None.
Proof.
  intros Hty. unfold FormWin.input_classes.
  apply not_elem_of_list_to_map_1. exact Hty.
Qed.

Lemma eqb_other (s t : string) : s <> t -> String.eqb s t = false.
Proof. intros Hne. now apply String.eqb_neq. Qed.



(** ** C4: list fields without options *)

(** C4 as stated fails: a list-single field without options gets a window
    whose [reply] raises [IndexError], and the list-multi window built from a
    field without options raises [IndexError] on the space key. *)
Lemma C4_empty_options_counterexample :
  let single := {| fld_type := "list-single"; fld_label := "Colour";
                   fld_instructions := ""; fld_value := VNone;
                   fld_options := [] |} in
  let multi := {| fld_type := "list-multi"; fld_label := "Colours";
                  fld_instructions := ""; fld_value := VNone;
                  fld_options := [] |} in
  (exists inp,
     FormWin.add_input 0 single = (Returns (Some inp), single)
     /\ fst (FieldInput.reply (FormWin.input inp) single) = Raises IndexError)
  /\ (exists inp,
        FormWin.add_input 1 multi = (Returns (Some inp), multi)
        /\ forall Input_do_command,
             fst (FieldInput.do_command Input_do_command [" "] (FormWin.input inp))
             = Raises IndexError).
Proof.
  split; eexists; (split; [vm_compute; reflexivity |]); [reflexivity |].
  intros Input_do_command. reflexivity.
Qed.

(** C4, amended. For a list-single or list-multi field without options the
    loop body of [FormWin.__init__] returns, leaves the field as it is and
    appends a window with an empty option list and the cursor at 0.  Every
    key leaves that window as it is; the left and right keys raise
    [IndexError] (the redraw indexes the option list), and so does the space
    key on a list-multi window.  [reply] on the list-multi window returns and
    sets the empty sequence as the field's value; on the list-single window
    it raises [IndexError], having emptied the label. *)
Theorem C4_empty_options (ref : nat) (field : Field) :
  fld_type field = "list-single" \/ fld_type field = "list-multi" ->
  fld_options field = [] ->
  let inp := empty_list_input ref (fld_type field) in
  FormWin.add_input ref field =
    (Returns (Some {| FormWin.label := VStr (fld_label field);
                      FormWin.instructions := fld_instructions field;
                      FormWin.input := inp |}),
     field)
  /\ (forall Input_do_command key,
        snd (FieldInput.do_command Input_do_command [key] inp) = inp
        /\ (key = "KEY_LEFT" \/ key = "KEY_RIGHT" ->
            fst (FieldInput.do_command Input_do_command [key] inp)
            = Raises IndexError))
  /\ (fld_type field = "list-multi" ->
      (forall Input_do_command,
         fst (FieldInput.do_command Input_do_command [" "] inp) = Raises IndexError)
      /\ FieldInput.reply inp field =
           (Returns tt,
            {| fld_type := fld_type field; fld_label := "";
               fld_instructions := fld_instructions field;
               fld_value := VList []; fld_options := [] |}))
  /\ (fld_type field = "list-single" ->
      FieldInput.reply inp field =
        (Raises IndexError,
         {| fld_type := fld_type field; fld_label := "";
            fld_instructions := fld_instructions field;
            fld_value := fld_value field; fld_options := [] |})).
Proof.
  intros Hty Hopts. destruct field as [ty l i v opts]. cbn in *. subst opts.
  destruct Hty as [-> | ->]; cbn zeta.
  - split; [reflexivity |]. split; [| split; [discriminate | reflexivity]].
    intros idc key. unfold empty_list_input, FieldInput.do_command. cbn.
    unfold FieldInput.in_class, ListSingleWin.do_command. py_unfold. cbn -[String.eqb].
    split.
    + destruct (String.eqb key "KEY_LEFT"); [reflexivity |].
      destruct (String.eqb key "KEY_RIGHT"); reflexivity.
    + intros [-> | ->]; reflexivity.
  - split; [reflexivity |]. split; [| split; [| discriminate]].
    + intros idc key. unfold empty_list_input, FieldInput.do_command. cbn.
      unfold FieldInput.in_class, ListMultiWin.do_command. py_unfold. cbn -[String.eqb].
      split.
      * destruct (String.eqb key "KEY_LEFT"); [reflexivity |].
        destruct (String.eqb key "KEY_RIGHT"); [reflexivity |].
        destruct (String.eqb key " "); reflexivity.
      * intros [-> | ->]; reflexivity.
    + intros _. split; reflexivity.
Qed.

(** A list-multi field without options. *)
Lemma C4_empty_options_witness :
  let field := {| fld_type := "list-multi"; fld_label := "Colours";
                  fld_instructions := ""; fld_value := VList [];
                  fld_options := [] |} in
  let inp := empty_list_input 0 "list-multi" in
  FormWin.add_input 0 field =
    (Returns (Some {| FormWin.label := VStr "Colours"; FormWin.instructions := "";
                      FormWin.input := inp |}),
     field)
  /\ FieldInput.reply inp field =
       (Returns tt,
        {| fld_type := "list-multi"; fld_label := ""; fld_instructions := "";
           fld_value := VList []; fld_options := [] |}).
Proof.
  intros field inp.
  destruct (C4_empty_options 0 field (or_intror eq_refl) eq_refl)
    as (Hadd & _ & Hmulti & _).
  split; [exact Hadd |]. exact (proj2 (Hmulti eq_refl)).
Defined.

(** ** C5: submitting *)



Lemma on_field_other (ref i : nat) (m : Py Field unit) (form : Form) :
  ref <> i ->
  form_fields (snd (FormObj.on_field ref m form)) !! i = form_fields form !! i.
Proof.
  intros Hne. unfold FormObj.on_field.
  destruct (form_fields form !! ref) as [[name f] |]; [| reflexivity].
  destruct (m f) as [r f']. cbn. now apply list_lookup_insert_ne.
Qed.



(** What [FormWin.__init__] builds refers to the fields it was built from,
    and to no hidden one. *)
Lemma FieldInput_init_ref (cls : input_class) (ref : nat) (field field' : Field)
    (inp : Input) :
  FieldInput.__init__ cls ref field = (Returns inp, field') -> _field inp = ref.
Proof.
  unfold FieldInput.__init__. py_unfold.
  destruct cls; cbn; try (intros [= <- _]; reflexivity).
  unfold ListMultiWin.__init__. py_unfold. cbn.
  destruct (ListMultiWin.flag_options _ _); cbn; [| discriminate].
  intros [= <- _]. reflexivity.
Qed.







(** ** Navigation: what [set_color] and the two scans do *)

Lemma run_bind {S A B} (m : Py S A) (k : A -> Py S B) (s s' : S) (a : A) :
  m s = (Returns a, s') -> (m ≫= k) s = k a s'.
Proof. intros Hm. py_unfold. now rewrite Hm. Qed.

Lemma set_color_draws (c : Z) (obj : Input) :
  draws obj ->
  FieldInput.set_color c obj =
    (Returns tt, {| _field := _field obj; color := c; win := win obj |}).
Proof.
  destruct obj as [ref c0 [| w | w | w | w | w]]; unfold draws; cbn;
    intros Hdraws; try reflexivity.
  - destruct w as [opts p]. destruct Hdraws as [o Ho]. cbn in Ho.
    unfold FieldInput.set_color, FieldInput.refresh, FieldInput.in_class,
      ListMultiWin.refresh, index. py_simpl. now rewrite Ho.
  - destruct w as [opts p]. destruct Hdraws as [o Ho]. cbn in Ho.
    unfold FieldInput.set_color, FieldInput.refresh, FieldInput.in_class,
      ListSingleWin.refresh, index. py_simpl. now rewrite Ho.
Qed.

Lemma on_inputs_set_color (c : Z) (inputs : list FormWin.entry) (cur i : Z)
    (inp : FormWin.entry) :
  0 <= i ->
  getitem inputs i = Some inp ->
  draws (FormWin.input inp) ->
  FormWin.on_inputs i (FieldInput.set_color c)
    {| FormWin.inputs := inputs; FormWin.current_input := cur |} =
  (Returns tt,
   {| FormWin.inputs := <[Z.to_nat i := recolour c inp]> inputs;
      FormWin.current_input := cur |}).
Proof.
  intros Hi Hinp Hdraws. unfold FormWin.on_inputs, at_index, FormWin.on_obj. cbn.
  rewrite Hinp, (set_color_draws c _ Hdraws), position_nonneg by assumption.
  reflexivity.
Qed.

Lemma len_insert {A} (l : list A) (k : nat) (x : A) : len (<[k := x]> l) = len l.
Proof. unfold len. now rewrite length_insert. Qed.

Lemma getitem_insert_recolour (c : Z) (inputs : list FormWin.entry) (k : nat)
    (inp : FormWin.entry) (j : Z) :
  inputs !! k = Some inp ->
  getitem (<[k := recolour c inp]> inputs) j =
    (if decide (getitem inputs j = None) then None
     else if decide (position inputs j = k) then Some (recolour c inp)
          else getitem inputs j).
Proof.
  intros Hk. unfold getitem, position. rewrite len_insert.
  assert (Hlookup : forall n : nat,
            <[k := recolour c inp]> inputs !! n =
            (if decide (inputs !! n = None) then None
             else if decide (n = k) then Some (recolour c inp) else inputs !! n)).
  { intros n. destruct (decide (inputs !! n = None)) as [Hnone | Hsome].
    - apply lookup_ge_None. rewrite length_insert. now apply lookup_ge_None.
    - destruct (decide (n = k)) as [-> | Hne].
      + apply list_lookup_insert_eq. now apply lookup_lt_Some in Hk.
      + now apply list_lookup_insert_ne. }
  destruct (j <? 0); [destruct (- len inputs <=? j) |];
    rewrite ?Hlookup; reflexivity.
Qed.

(** Colouring a window changes neither the length of the list nor which
    windows are dummies nor which can be drawn. *)
Lemma dummy_at_recolour (c : Z) (inputs : list FormWin.entry) (k : nat)
    (inp : FormWin.entry) (j : Z) :
  inputs !! k = Some inp ->
  FormWin.dummy_at (<[k := recolour c inp]> inputs) j = FormWin.dummy_at inputs j.
Proof.
  intros Hk. unfold FormWin.dummy_at.
  rewrite (getitem_insert_recolour c inputs k inp j Hk).
  destruct (decide (getitem inputs j = None)) as [-> | Hsome]; [reflexivity |].
  destruct (decide (position inputs j = k)) as [Hpos | Hpos]; [| reflexivity].
  destruct (getitem inputs j) as [e |] eqn:Hj; [| contradiction].
  apply getitem_position in Hj. rewrite Hpos, Hk in Hj. now injection Hj as <-.
Qed.

Lemma all_draw_recolour (c : Z) (inputs : list FormWin.entry) (k : nat)
    (inp : FormWin.entry) :
  inputs !! k = Some inp -> all_draw inputs ->
  all_draw (<[k := recolour c inp]> inputs).
Proof.
  intros Hk Hall e He. apply list_elem_of_lookup in He as [n Hn].
  destruct (decide (n = k)) as [-> | Hne].
  - rewrite list_lookup_insert_eq in Hn by (now apply lookup_lt_Some in Hk).
    injection Hn as <-. unfold draws, recolour. cbn.
    apply (Hall inp). apply list_elem_of_lookup. now exists k.
  - rewrite list_lookup_insert_ne in Hn by congruence.
    apply Hall. apply list_elem_of_lookup. now exists n.
Qed.

Lemma dummy_at_in_range (inputs : list FormWin.entry) (i : Z) :
  0 <= i < len inputs -> exists b, FormWin.dummy_at inputs i = Returns b.
Proof.
  intros Hi. unfold FormWin.dummy_at.
  destruct (getitem_in_range inputs i Hi) as [inp ->]. now eexists.
Qed.

(** The forward scan from an index of the list returns: it stops on the first
    index that is the last one or holds a window that is not a dummy. *)
Lemma next_jump_spec (inputs : list FormWin.entry) (cur jump : Z) :
  0 <= cur + jump <= len inputs - 1 ->
  exists j,
    FormWin.next_jump inputs cur jump = Returns j
    /\ jump <= j /\ cur + j <= len inputs - 1
    /\ (forall k, jump <= k < j -> FormWin.dummy_at inputs (cur + k) = Returns true)
    /\ (cur + j = len inputs - 1 \/ FormWin.dummy_at inputs (cur + j) = Returns false).
Proof.
  funelim (FormWin.next_jump inputs cur jump); intros Hrange.
  - exists jump. apply Z.eqb_eq in Heq. repeat split; lia.
  - apply Z.eqb_neq in Heq.
    destruct H as (j & Hj & Hle & Hlast & Hskipped & Hstop); [lia |].
    exists j. repeat split; try assumption; try lia.
    intros k Hk. destruct (Z.eq_dec k jump) as [-> | Hne]; [exact E |].
    apply Hskipped. lia.
  - exists jump. repeat split; try lia. now right.
  - exfalso. apply Z.eqb_neq in Heq.
    destruct (dummy_at_in_range inputs (current_input + jump)) as [b Hb]; [lia |].
    congruence.
Qed.

(** The backward scan does not start when the index it is given is 0 or
    holds a window that is not a dummy. *)
Lemma previous_jump_stops (inputs : list FormWin.entry) (cur jump : Z) :
  cur - jump <= 0 \/ FormWin.dummy_at inputs (cur + jump) = Returns false ->
  FormWin.previous_jump inputs cur jump = Returns jump.
Proof.
  funelim (FormWin.previous_jump inputs cur jump); intros Hstop; try reflexivity.
  - destruct Hstop as [Hzero | Hdummy]; [lia | congruence].
  - destruct Hstop as [Hzero | Hdummy]; [lia | congruence].
Qed.

Lemma same_windows_refl inputs : same_windows inputs inputs.
Proof. repeat split. tauto. Qed.

Lemma same_windows_trans l1 l2 l3 :
  same_windows l1 l2 -> same_windows l2 l3 -> same_windows l1 l3.
Proof.
  intros (Hlen & Hdummy & Hdraw) (Hlen' & Hdummy' & Hdraw'). repeat split.
  - congruence.
  - intros j. now rewrite Hdummy', Hdummy.
  - tauto.
Qed.

Lemma same_windows_recolour (c : Z) (inputs : list FormWin.entry) (k : nat)
    (inp : FormWin.entry) :
  inputs !! k = Some inp ->
  same_windows inputs (<[k := recolour c inp]> inputs).
Proof.
  intros Hk. repeat split.
  - apply len_insert.
  - intros j. now apply dummy_at_recolour.
  - now apply all_draw_recolour.
Qed.

Lemma all_draw_at (inputs : list FormWin.entry) (i : Z) (inp : FormWin.entry) :
  all_draw inputs -> getitem inputs i = Some inp -> draws (FormWin.input inp).
Proof.
  intros Hall Hi. apply Hall. apply list_elem_of_lookup.
  exists (position inputs i). now apply getitem_position.
Qed.

(** ** Windows that can be drawn

    The windows [FormWin.__init__] builds from fields that satisfy the
    invariant of section 3 can be drawn, and a key leaves a window that can
    be drawn in that state: [all_draw] holds of every list of input windows
    the tab goes through. *)

Lemma getitem_is_Some {A} (l : list A) (i : Z) :
  is_Some (getitem l i) <-> - len l <= i < len l.
Proof.
  unfold getitem, len.
  destruct (Z.ltb_spec i 0) as [Hneg | Hpos].
  - destruct (Z.leb_spec (- Z.of_nat (length l)) i) as [Hin | Hout].
    + rewrite lookup_lt_is_Some. lia.
    + split; [intros [x Hx]; discriminate | lia].
  - rewrite lookup_lt_is_Some. lia.
Qed.

Lemma find_val_pos_range (v : pyvalue) (opts : list FieldOption) :
  forall i p,
    ListSingleWin.find_val_pos v opts i p = p
    \/ i <= ListSingleWin.find_val_pos v opts i p < i + len opts.
Proof.
  induction opts as [| option rest IH]; intros i p; [now left |].
  cbn [ListSingleWin.find_val_pos]. unfold len. cbn [length].
  destruct (IH (i + 1) (if equals_str v (opt_value option) then i else p))
    as [-> | Hrange].
  - destruct (equals_str v (opt_value option)); [right; lia | now left].
  - right. unfold len in Hrange. lia.
Qed.

Lemma flag_options_length (v : pyvalue) (opts : list FieldOption)
    (flagged : list (FieldOption * bool)) :
  ListMultiWin.flag_options v opts = Returns flagged ->
  length flagged = length opts.
Proof.
  revert flagged. induction opts as [| option rest IH]; intros flagged.
  - now intros [= <-].
  - cbn [ListMultiWin.flag_options].
    destruct (contains v (opt_value option)); [| discriminate].
    destruct (ListMultiWin.flag_options v rest); [| discriminate].
    intros [= <-]. cbn. now rewrite (IH _ eq_refl).
Qed.

Lemma FieldInput_init_draws (cls : input_class) (ref : nat) (field field' : Field)
    (inp : Input) :
  FieldInput.__init__ cls ref field = (Returns inp, field') ->
  (cls = cListMultiWin \/ cls = cListSingleWin -> fld_options field <> []) ->
  draws inp.
Proof.
  unfold FieldInput.__init__. py_unfold.
  destruct cls; cbn; try (intros [= <- _] _; exact I).
  - unfold ListMultiWin.__init__. py_unfold. cbn.
    destruct (ListMultiWin.flag_options _ _) as [flagged |] eqn:Hflag; cbn;
      [| discriminate].
    intros [= <- _] Hopts. unfold draws. cbn -[getitem is_Some]. apply getitem_is_Some.
    apply flag_options_length in Hflag. unfold len. rewrite Hflag.
    specialize (Hopts (or_introl eq_refl)).
    destruct (fld_options field); [contradiction | cbn; lia].
  - intros [= <- _] Hopts. unfold draws. cbn -[getitem is_Some]. apply getitem_is_Some.
    specialize (Hopts (or_intror eq_refl)).
    pose proof (find_val_pos_range (fld_value field) (fld_options field) 0 0) as Hpos.
    destruct (fld_options field) eqn:Hfield; [contradiction |].
    rewrite <- Hfield in *. assert (0 < len (fld_options field))
      by (rewrite Hfield; unfold len; cbn; lia).
    lia.
Qed.

Lemma input_classes_list (ty : string) (cls : input_class) :
  FormWin.input_classes !! ty = Some cls ->
  cls = cListMultiWin \/ cls = cListSingleWin ->
  ty = "list-single" \/ ty = "list-multi".
Proof.
  intros Hlookup Hcls. unfold FormWin.input_classes in Hlookup.
  apply elem_of_list_to_map_2 in Hlookup.
  repeat (apply elem_of_cons in Hlookup as [[= -> ->] | Hlookup];
          [destruct Hcls; (discriminate || tauto) |]).
  now apply elem_of_nil in Hlookup.
Qed.

Lemma add_input_draws (ref : nat) (field field' : Field) (inp : FormWin.entry) :
  FormWin.add_input ref field = (Returns (Some inp), field') ->
  has_options field ->
  draws (FormWin.input inp).
Proof.
  unfold FormWin.add_input. py_unfold. cbn beta iota.
  destruct (String.eqb (fld_type field) "hidden"); [discriminate |].
  intros Hadd Hopts. revert Hadd.
  destruct (FormWin.input_classes !! fld_type field) as [cls |] eqn:Hcls;
    cbn -[String.eqb].
  - destruct (String.eqb (fld_type field) "fixed"); cbn -[String.eqb];
      destruct (FieldInput.__init__ cls ref field) as [[obj | e] f1] eqn:Hinit;
      try discriminate;
      intros [= <- _]; cbn;
      apply (FieldInput_init_draws _ _ _ _ _ Hinit);
      intros Hlist; apply Hopts; exact (input_classes_list _ _ Hcls Hlist).
  - destruct (String.eqb (fld_type field) "fixed"); cbn -[String.eqb];
      intros [= <- _]; exact I.
Qed.

Lemma add_inputs_draw (fields : list (string * Field)) :
  forall (ref : nat) (acc inputs : list FormWin.entry) fields',
    FormWin.add_inputs ref fields acc = (Returns inputs, fields') ->
    (forall name f, (name, f) ∈ fields -> has_options f) ->
    all_draw acc ->
    all_draw inputs.
Proof.
  induction fields as [| [name field] rest IH]; intros ref acc inputs fields'.
  - cbn. now intros [= <- _].
  - cbn [FormWin.add_inputs].
    destruct (FormWin.add_input ref field) as [[added | e] field1] eqn:Hadd;
      [| discriminate].
    destruct (FormWin.add_inputs (S ref) rest _) as [r rest'] eqn:Hrest.
    intros [= -> _] Hfields Hacc.
    apply (IH _ _ _ _ Hrest).
    + intros n f Hin. apply (Hfields n f). now apply list_elem_of_further.
    + destruct added as [new |]; [| exact Hacc].
      intros inp Hin. apply elem_of_app in Hin as [Hin | Hnew]; [now apply Hacc |].
      apply list_elem_of_singleton in Hnew. subst inp.
      apply (add_input_draws _ _ _ _ Hadd). apply (Hfields name field).
      apply list_elem_of_here.
Qed.

(** After construction the focus index is 0, which is in range when there
    is an input window at all; when the list fields of the form have
    options, every window can be drawn. *)
Lemma FormWin_init_ready (form form' : Form) (self : FormWin.t) :
  FormWin.__init__ form = (Returns self, form') ->
  FormWin.current_input self = 0
  /\ (FormWin.inputs self <> [] -> focus_in_range self)
  /\ ((forall name f, (name, f) ∈ form_fields form -> has_options f) ->
      all_draw (FormWin.inputs self)).
Proof.
  unfold FormWin.__init__.
  destruct (FormWin.add_inputs 0 (form_fields form) []) as [[inputs | e] fields'] eqn:Hadd;
    [| discriminate].
  intros [= <- _]. split; [reflexivity |]. split.
  - unfold focus_in_range, len. cbn. destruct inputs; [contradiction | cbn; lia].
  - intros Hfields. cbn. apply (add_inputs_draw _ _ _ _ _ Hadd Hfields).
    intros inp Hin. now apply elem_of_nil in Hin.
Qed.

Lemma in_class_win {T A} (wrap : T -> Win) (m : Py T A) (w : T) (self : Input) :
  win (snd (FieldInput.in_class wrap m w self)) = wrap (snd (m w)).
Proof. unfold FieldInput.in_class. now destruct (m w). Qed.

(** A key leaves a list-multi window with its cursor on an option. *)
Lemma ListMultiWin_do_command_cursor (key : key) (w : ListMultiWin.t) :
  let w' := snd (ListMultiWin.do_command [key] w) in
  is_Some (getitem (ListMultiWin.options w) (ListMultiWin.val_pos w)) ->
  is_Some (getitem (ListMultiWin.options w') (ListMultiWin.val_pos w')).
Proof.
  destruct w as [opts p]. cbn zeta. cbn [ListMultiWin.options ListMultiWin.val_pos].
  intros Hcursor. pose proof Hcursor as Hrange. apply getitem_is_Some in Hrange.
  unfold ListMultiWin.do_command, ListMultiWin.refresh, ListMultiWin.toggle,
    ListMultiWin.set_val_pos, at_index, index.
  py_unfold. cbn -[String.eqb getitem is_Some len].
  destruct (String.eqb key "KEY_LEFT").
  { destruct (Z.gtb_spec p 0); cbn -[getitem is_Some len];
      match goal with
      | |- context [getitem opts ?i] =>
          destruct (getitem opts i); cbn -[getitem is_Some len];
          apply getitem_is_Some; lia
      end. }
  destruct (String.eqb key "KEY_RIGHT").
  { destruct (Z.ltb_spec p (len opts - 1)); cbn -[getitem is_Some len];
      match goal with
      | |- context [getitem opts ?i] =>
          destruct (getitem opts i); cbn -[getitem is_Some len];
          apply getitem_is_Some; lia
      end. }
  destruct (String.eqb key " "); cbn -[getitem is_Some len]; [| exact Hcursor].
  destruct (getitem opts p) as [o |]; cbn -[getitem is_Some len];
    [| apply getitem_is_Some; lia].
  match goal with
  | |- context [getitem ?l p] =>
      destruct (getitem l p); cbn -[getitem is_Some len];
      apply getitem_is_Some; rewrite len_insert; lia
  end.
Qed.

(** A key leaves a list-single window with its cursor on an option. *)
Lemma ListSingleWin_do_command_cursor (key : key) (w : ListSingleWin.t) :
  let w' := snd (ListSingleWin.do_command [key] w) in
  is_Some (getitem (ListSingleWin.options w) (ListSingleWin.val_pos w)) ->
  is_Some (getitem (ListSingleWin.options w') (ListSingleWin.val_pos w')).
Proof.
  destruct w as [opts p]. cbn zeta. cbn [ListSingleWin.options ListSingleWin.val_pos].
  intros Hcursor. pose proof Hcursor as Hrange. apply getitem_is_Some in Hrange.
  unfold ListSingleWin.do_command, ListSingleWin.refresh,
    ListSingleWin.set_val_pos, index.
  py_unfold. cbn -[String.eqb getitem is_Some len].
  destruct (String.eqb key "KEY_LEFT").
  { destruct (Z.gtb_spec p 0); cbn -[getitem is_Some len];
      match goal with
      | |- context [getitem opts ?i] =>
          destruct (getitem opts i); cbn -[getitem is_Some len];
          apply getitem_is_Some; lia
      end. }
  destruct (String.eqb key "KEY_RIGHT"); cbn -[getitem is_Some len];
    [| exact Hcursor].
  destruct (Z.ltb_spec p (len opts - 1)); cbn -[getitem is_Some len];
    match goal with
    | |- context [getitem opts ?i] =>
        destruct (getitem opts i); cbn -[getitem is_Some len];
        apply getitem_is_Some; lia
    end.
Qed.

(** A key leaves a window that can be drawn in that state, whatever the line
    editor does to a text window. *)
Lemma do_command_draws Input_do_command (key : key) (inp : Input) :
  draws inp -> draws (snd (FieldInput.do_command Input_do_command [key] inp)).
Proof.
  destruct inp as [ref c [| w | w | w | w | w]];
    unfold draws, FieldInput.do_command; cbn [win]; rewrite in_class_win;
    intros Hdraws; try exact I.
  - now apply ListMultiWin_do_command_cursor.
  - now apply ListSingleWin_do_command_cursor.
Qed.

(** ** Navigation: the two moves *)

Lemma match_nonempty {A B} (l : list A) (x y : B) :
  l <> [] -> match l with [] => x | _ :: _ => y end = y.
Proof. now destruct l. Qed.

(** [go_to_next_input] away from the last index: it returns, and the focus
    goes to the first later window that is not a dummy, past dummies only;
    when every later window is a dummy, the focus goes one index on. *)
Lemma go_to_next_input_moves (inputs : list FormWin.entry) (cur : Z) :
  0 <= cur < len inputs - 1 ->
  all_draw inputs ->
  exists inputs' cur',
    FormWin.go_to_next_input
      {| FormWin.inputs := inputs; FormWin.current_input := cur |} =
      (Returns tt, {| FormWin.inputs := inputs'; FormWin.current_input := cur' |})
    /\ same_windows inputs inputs'
    /\ cur < cur' <= len inputs - 1
    /\ (forall k, cur < k < cur' -> FormWin.dummy_at inputs k = Returns true)
    /\ (FormWin.dummy_at inputs cur' = Returns false
        \/ (cur' = cur + 1
            /\ forall k, cur < k < len inputs ->
                 FormWin.dummy_at inputs k = Returns true)).
Proof.
  intros Hcur Hdraw.
  destruct (getitem_in_range inputs cur) as [old Hold]; [lia |].
  assert (Hold' : inputs !! Z.to_nat cur = Some old)
    by (now rewrite <- getitem_nonneg by lia).
  set (inputs1 := <[Z.to_nat cur := recolour 14 old]> inputs).
  assert (Hsame1 : same_windows inputs inputs1)
    by (now apply same_windows_recolour).
  destruct Hsame1 as (Hlen1 & Hdummy1 & Hdraw1).
  destruct (next_jump_spec inputs1 (cur + 1) 0) as (j & Hj & Hj0 & Hjlast & Hskipped & Hstop);
    [lia |].
  destruct (dummy_at_in_range inputs1 (cur + 1 + j)) as [b Hb]; [lia |].
  unfold FormWin.go_to_next_input.
  erewrite run_bind by reflexivity. cbn [FormWin.inputs FormWin.current_input].
  rewrite match_nonempty by (intros ->; unfold len in Hcur; cbn in Hcur; lia).
  replace (cur =? len inputs - 1) with false by (symmetry; apply Z.eqb_neq; lia).
  erewrite run_bind
    by (apply on_inputs_set_color; [lia | exact Hold | exact (all_draw_at _ _ _ Hdraw Hold)]).
  fold inputs1.
  erewrite run_bind by reflexivity.
  erewrite run_bind by reflexivity. cbn [FormWin.inputs FormWin.current_input].
  erewrite run_bind by (unfold lift; rewrite Hj; reflexivity).
  erewrite run_bind by (unfold lift; rewrite Hb; reflexivity).
  destruct b.
  - (* every later window is a dummy *)
    assert (Hall : forall k, cur < k < len inputs ->
                     FormWin.dummy_at inputs k = Returns true).
    { intros k Hk. rewrite <- Hdummy1.
      destruct Hstop as [Hlast | Hfalse]; [| congruence].
      destruct (Z.eq_dec k (cur + 1 + j)) as [-> | Hne]; [exact Hb |].
      replace k with (cur + 1 + (k - cur - 1)) by lia. apply Hskipped. lia. }
    exists inputs1, (cur + 1). split; [reflexivity |].
    split; [repeat split; assumption |].
    split; [lia |]. split; [intros k Hk; lia |]. right. now split.
  - destruct (getitem_in_range inputs1 (cur + 1 + j)) as [new Hnew]; [lia |].
    assert (Hnew' : inputs1 !! Z.to_nat (cur + 1 + j) = Some new)
      by (now rewrite <- getitem_nonneg by lia).
    erewrite run_bind by reflexivity.
    erewrite run_bind by reflexivity. cbn [FormWin.inputs FormWin.current_input].
    rewrite (on_inputs_set_color 13 inputs1 _ _ new);
      [| lia | exact Hnew | exact (all_draw_at _ _ _ (Hdraw1 Hdraw) Hnew)].
    eexists. exists (cur + 1 + j). split; [reflexivity |].
    split.
    { apply (same_windows_trans _ inputs1); [repeat split; assumption |].
      now apply same_windows_recolour. }
    split; [lia |]. split.
    + intros k Hk. rewrite <- Hdummy1.
      replace k with (cur + 1 + (k - cur - 1)) by lia. apply Hskipped. lia.
    + left. now rewrite <- Hdummy1.
Qed.

Lemma go_to_next_input_last (inputs : list FormWin.entry) (cur : Z) :
  cur = len inputs - 1 ->
  FormWin.go_to_next_input
    {| FormWin.inputs := inputs; FormWin.current_input := cur |} =
  (Returns tt, {| FormWin.inputs := inputs; FormWin.current_input := cur |}).
Proof.
  intros ->. unfold FormWin.go_to_next_input.
  erewrite run_bind by reflexivity. cbn [FormWin.inputs FormWin.current_input].
  destruct inputs; [reflexivity |]. now rewrite Z.eqb_refl.
Qed.

(** ** C1: where the focus can rest *)

(** One call of [go_to_next_input] from a focus in range. *)
Lemma go_to_next_input_settles (self : FormWin.t) :
  focus_in_range self ->
  all_draw (FormWin.inputs self) ->
  exists self',
    FormWin.go_to_next_input self = (Returns tt, self')
    /\ same_windows (FormWin.inputs self) (FormWin.inputs self')
    /\ FormWin.current_input self <= FormWin.current_input self'
    /\ focus_in_range self'
    /\ focus_settled self'.
Proof.
  destruct self as [inputs cur]. unfold focus_in_range, focus_settled. cbn.
  intros Hrange Hdraw.
  destruct (Z.eq_dec cur (len inputs - 1)) as [Hlast | Hnotlast].
  - exists {| FormWin.inputs := inputs; FormWin.current_input := cur |}.
    split; [now apply go_to_next_input_last |]. cbn.
    split; [apply same_windows_refl |]. split; [lia |]. split; [lia |].
    destruct (dummy_at_in_range inputs cur Hrange) as [[|] Hb]; [right | now left].
    intros k Hk. now replace k with cur by lia.
  - destruct (go_to_next_input_moves inputs cur) as
      (inputs' & cur' & Hrun & Hsame & Hcur' & Hskipped & Hstop); [lia | assumption |].
    exists {| FormWin.inputs := inputs'; FormWin.current_input := cur' |}.
    split; [exact Hrun |]. cbn. split; [exact Hsame |].
    destruct Hsame as (Hlen & Hdummy & _). rewrite Hlen.
    split; [lia |]. split; [lia |].
    destruct Hstop as [Hfalse | [-> Hall]].
    + left. now rewrite Hdummy.
    + right. intros k Hk. rewrite Hdummy. apply Hall. lia.
Qed.

(** C1 as stated fails, in three ways.  A form whose first field is fixed has
    the focus on the dummy at index 0 after construction ([__init__] sets
    [current_input = 0] and corrects nothing), although its second window is
    not a dummy.  From a text window followed by a fixed one,
    [go_to_next_input] leaves the focus on the dummy at index 1.  And from
    the last of text, fixed, fixed, text, [go_to_previous_input] leaves the
    focus on the dummy at index 1. *)
Lemma C1_focus_invariant_counterexample :
  let text := {| fld_type := "text-single"; fld_label := "Name";
                 fld_instructions := ""; fld_value := VStr "";
                 fld_options := [] |} in
  let fixed := {| fld_type := "fixed"; fld_label := ""; fld_instructions := "";
                  fld_value := VStr "Section"; fld_options := [] |} in
  let form fields := {| form_title := "t"; form_instructions := "";
                        form_fields := fields |} in
  (exists self form',
     FormWin.__init__ (form [("a", fixed); ("b", text)]) = (Returns self, form')
     /\ FormWin.inputs self <> []
     /\ ~ focus_invariant self)
  /\ (exists self form' self',
        FormWin.__init__ (form [("a", text); ("b", fixed)]) = (Returns self, form')
        /\ focus_invariant self
        /\ FormWin.go_to_next_input self = (Returns tt, self')
        /\ ~ focus_invariant self')
  /\ (exists self form' self1 self2,
        FormWin.__init__ (form [("a", text); ("b", fixed); ("c", fixed); ("d", text)])
          = (Returns self, form')
        /\ FormWin.go_to_next_input self = (Returns tt, self1)
        /\ focus_invariant self1
        /\ FormWin.go_to_previous_input self1 = (Returns tt, self2)
        /\ ~ focus_invariant self2).
Proof.
  intros text fixed form.
  assert (Hno : forall self : FormWin.t,
            FormWin.dummy_at (FormWin.inputs self) (FormWin.current_input self)
              = Returns true ->
            (exists k, 0 <= k < len (FormWin.inputs self)
                       /\ FormWin.dummy_at (FormWin.inputs self) k = Returns false) ->
            ~ focus_invariant self).
  { intros self Hfocus (k & Hk & Hfalse) [Hcontra | Hall]; [congruence |].
    specialize (Hall k Hk). congruence. }
  split; [| split].
  - eexists. eexists. split; [vm_compute; reflexivity |].
    split; [discriminate |].
    apply Hno; [reflexivity |]. exists 1. split; [unfold len; cbn; lia | reflexivity].
  - eexists. eexists. eexists. split; [vm_compute; reflexivity |].
    split; [left; reflexivity |].
    split; [vm_compute; reflexivity |].
    apply Hno; [reflexivity |]. exists 0. split; [unfold len; cbn; lia | reflexivity].
  - eexists. eexists. eexists. eexists. split; [vm_compute; reflexivity |].
    split; [vm_compute; reflexivity |].
    split; [left; reflexivity |].
    split; [vm_compute; reflexivity |].
    apply Hno; [reflexivity |]. exists 0. split; [unfold len; cbn; lia | reflexivity].
Qed.

(** C1, amended. From a focus that is in range, with windows that can be
    drawn, any number of calls of [go_to_next_input] returns; the windows are
    the same up to their colours, the focus stays in range, and after the
    calls it is on a window that is not a dummy unless every window from the
    focus to the end of the list is a dummy.  This needs at least one call, or
    a focus that was so before: construction leaves the focus at 0, so that
    is when the first window is not a dummy. *)
Theorem C1_advance_settles (self : FormWin.t) (n : nat) :
  focus_in_range self ->
  all_draw (FormWin.inputs self) ->
  focus_settled self \/ (0 < n)%nat ->
  exists self',
    repeat_call n FormWin.go_to_next_input self = (Returns tt, self')
    /\ same_windows (FormWin.inputs self) (FormWin.inputs self')
    /\ focus_in_range self'
    /\ focus_settled self'.
Proof.
  revert self. induction n as [| n IH]; intros self Hrange Hdraw Hstart.
  - destruct Hstart as [Hsettled | Hpos]; [| lia].
    exists self. repeat split; try assumption; try apply Hrange. tauto.
  - destruct (go_to_next_input_settles self Hrange Hdraw)
      as (self1 & Hrun & Hsame & _ & Hrange1 & Hsettled1).
    destruct (IH self1 Hrange1 (proj2 (proj2 Hsame) Hdraw) (or_introl Hsettled1))
      as (self' & Hrun' & Hsame' & Hrange' & Hsettled').
    exists self'. split.
    + cbn [repeat_call]. erewrite run_bind by exact Hrun. exact Hrun'.
    + split; [exact (same_windows_trans _ _ _ Hsame Hsame') |]. now split.
Qed.

(** Three fields, the second one fixed: two advances from construction. *)
Lemma C1_advance_settles_witness :
  let text := {| fld_type := "text-single"; fld_label := "Name";
                 fld_instructions := ""; fld_value := VStr "";
                 fld_options := [] |} in
  let fixed := {| fld_type := "fixed"; fld_label := ""; fld_instructions := "";
                  fld_value := VStr "Section"; fld_options := [] |} in
  let form := {| form_title := "t"; form_instructions := "";
                 form_fields := [("a", text); ("b", fixed); ("c", text)] |} in
  exists self form' self',
    FormWin.__init__ form = (Returns self, form')
    /\ repeat_call 2 FormWin.go_to_next_input self = (Returns tt, self')
    /\ same_windows (FormWin.inputs self) (FormWin.inputs self')
    /\ focus_in_range self'
    /\ focus_settled self'.
Proof.
  intros text fixed form.
  destruct (FormWin.__init__ form) as [[self | e] form'] eqn:Hinit;
    [| vm_compute in Hinit; discriminate Hinit].
  destruct (FormWin_init_ready form form' self Hinit) as (_ & Hrange & Hdraw).
  assert (Hinputs : FormWin.inputs self <> []).
  { vm_compute in Hinit. injection Hinit as <- _. discriminate. }
  assert (Hfields : forall name f, (name, f) ∈ form_fields form -> has_options f).
  { intros name f Hin [Hty | Hty]; cbn in Hin;
      repeat (apply elem_of_cons in Hin as [[= -> ->] | Hin]; [discriminate Hty |]);
      now apply elem_of_nil in Hin. }
  destruct (C1_advance_settles self 2 (Hrange Hinputs) (Hdraw Hfields)
              (or_intror (Nat.lt_0_succ 1)))
    as (self' & Hrun & Hrest).
  exists self, form', self'. split; [reflexivity |]. split; [exact Hrun | exact Hrest].
Defined.

(** ** C2: advance, then retreat *)

(** [go_to_previous_input] onto a window that is not a dummy: one index back. *)
Lemma go_to_previous_input_one (inputs : list FormWin.entry) (cur : Z) :
  0 < cur < len inputs ->
  all_draw inputs ->
  FormWin.dummy_at inputs (cur - 1) = Returns false ->
  exists inputs',
    FormWin.go_to_previous_input
      {| FormWin.inputs := inputs; FormWin.current_input := cur |} =
      (Returns tt, {| FormWin.inputs := inputs'; FormWin.current_input := cur - 1 |})
    /\ same_windows inputs inputs'.
Proof.
  intros Hcur Hdraw Hprev.
  destruct (getitem_in_range inputs cur) as [old Hold]; [lia |].
  assert (Hold' : inputs !! Z.to_nat cur = Some old)
    by (now rewrite <- getitem_nonneg by lia).
  set (inputs1 := <[Z.to_nat cur := recolour 14 old]> inputs).
  assert (Hsame1 : same_windows inputs inputs1)
    by (now apply same_windows_recolour).
  pose proof Hsame1 as (Hlen1 & Hdummy1 & Hdraw1).
  assert (Hprev1 : FormWin.dummy_at inputs1 (cur - 1 + 0) = Returns false)
    by (now rewrite Z.add_0_r, Hdummy1).
  destruct (getitem_in_range inputs1 (cur - 1 - 0)) as [new Hnew]; [lia |].
  assert (Hnew' : inputs1 !! Z.to_nat (cur - 1 - 0) = Some new)
    by (now rewrite <- getitem_nonneg by lia).
  unfold FormWin.go_to_previous_input.
  erewrite run_bind by reflexivity. cbn [FormWin.inputs FormWin.current_input].
  rewrite match_nonempty by (intros ->; unfold len in Hcur; cbn in Hcur; lia).
  replace (cur =? 0) with false by (symmetry; apply Z.eqb_neq; lia).
  erewrite run_bind
    by (apply on_inputs_set_color; [lia | exact Hold | exact (all_draw_at _ _ _ Hdraw Hold)]).
  fold inputs1.
  erewrite run_bind by reflexivity.
  erewrite run_bind by reflexivity. cbn [FormWin.inputs FormWin.current_input].
  erewrite run_bind
    by (unfold lift; rewrite previous_jump_stops by (right; exact Hprev1); reflexivity).
  erewrite run_bind by (unfold lift; rewrite Hprev1; reflexivity).
  cbv beta iota.
  erewrite run_bind by reflexivity.
  erewrite run_bind by reflexivity. cbn [FormWin.inputs FormWin.current_input].
  rewrite (on_inputs_set_color 13 inputs1 _ _ new);
    [| lia | exact Hnew | exact (all_draw_at _ _ _ (Hdraw1 Hdraw) Hnew)].
  eexists. split; [now rewrite Z.sub_0_r |].
  apply (same_windows_trans _ inputs1); [exact Hsame1 |].
  apply same_windows_recolour. now rewrite Z.sub_0_r in Hnew'.
Qed.

(** The scan of [go_to_previous_input] reads [inputs[current_input+jump]]
    where it counts down with [current_input-jump]: with the focus on the
    last of text, text, fixed, fixed (three advances from construction), it
    reads past the end of the list and raises [IndexError]. *)
Lemma go_to_previous_input_index_error :
  let text := {| fld_type := "text-single"; fld_label := "Name";
                 fld_instructions := ""; fld_value := VStr "";
                 fld_options := [] |} in
  let fixed := {| fld_type := "fixed"; fld_label := ""; fld_instructions := "";
                  fld_value := VStr "Section"; fld_options := [] |} in
  let form := {| form_title := "t"; form_instructions := "";
                 form_fields := [("a", text); ("b", text); ("c", fixed); ("d", fixed)] |} in
  exists self form' self3,
    FormWin.__init__ form = (Returns self, form')
    /\ repeat_call 3 FormWin.go_to_next_input self = (Returns tt, self3)
    /\ FormWin.current_input self3 = 3
    /\ fst (FormWin.go_to_previous_input self3) = Raises IndexError.
Proof.
  intros text fixed form. eexists. eexists. eexists.
  split; [vm_compute; reflexivity |].
  split; [vm_compute; reflexivity |]. split; reflexivity.
Qed.

(** C2 as stated fails: with the focus on the second of two text windows
    (one advance from construction), the window under the focus is not a
    dummy, [go_to_next_input] does nothing since the index is the last one,
    and [go_to_previous_input] then moves the focus to index 0. *)
Lemma C2_round_trip_counterexample :
  let text := {| fld_type := "text-single"; fld_label := "Name";
                 fld_instructions := ""; fld_value := VStr "";
                 fld_options := [] |} in
  let form := {| form_title := "t"; form_instructions := "";
                 form_fields := [("a", text); ("b", text)] |} in
  exists self0 form' self self',
    FormWin.__init__ form = (Returns self0, form')
    /\ FormWin.go_to_next_input self0 = (Returns tt, self)
    /\ FormWin.inputs self <> []
    /\ FormWin.dummy_at (FormWin.inputs self) (FormWin.current_input self)
       = Returns false
    /\ (FormWin.go_to_next_input;; FormWin.go_to_previous_input) self
       = (Returns tt, self')
    /\ FormWin.current_input self = 1
    /\ FormWin.current_input self' = 0.
Proof.
  intros text form. eexists. eexists. eexists. eexists.
  split; [vm_compute; reflexivity |].
  split; [vm_compute; reflexivity |].
  split; [discriminate |].
  split; [reflexivity |].
  split; [vm_compute; reflexivity |]. split; reflexivity.
Qed.

(** C2, amended. With the focus in range, not on the last index, on a window
    that is not a dummy, and windows that can be drawn: when the next window
    is not a dummy, or every later window is a dummy, [go_to_next_input]
    returns with the focus one index on, and [go_to_previous_input] then
    returns with the focus on the original index. *)
Theorem C2_round_trip (self : FormWin.t) :
  let inputs := FormWin.inputs self in
  let cur := FormWin.current_input self in
  0 <= cur < len inputs - 1 ->
  all_draw inputs ->
  FormWin.dummy_at inputs cur = Returns false ->
  (FormWin.dummy_at inputs (cur + 1) = Returns false
   \/ forall k, cur < k < len inputs -> FormWin.dummy_at inputs k = Returns true) ->
  exists self1 self2,
    FormWin.go_to_next_input self = (Returns tt, self1)
    /\ FormWin.current_input self1 = cur + 1
    /\ FormWin.go_to_previous_input self1 = (Returns tt, self2)
    /\ FormWin.current_input self2 = cur
    /\ same_windows inputs (FormWin.inputs self2).
Proof.
  destruct self as [inputs cur]. cbn. intros Hcur Hdraw Hfocus Hnext.
  destruct (go_to_next_input_moves inputs cur Hcur Hdraw)
    as (inputs1 & cur1 & Hrun1 & Hsame1 & Hcur1 & Hskipped & Hstop).
  assert (Hone : cur1 = cur + 1).
  { destruct Hnext as [Hfalse | Hall].
    - destruct (Z.eq_dec cur1 (cur + 1)) as [| Hne]; [assumption |].
      rewrite Hskipped in Hfalse by lia. discriminate.
    - destruct Hstop as [Hfalse | [-> _]]; [| reflexivity].
      rewrite Hall in Hfalse by lia. discriminate. }
  subst cur1. pose proof Hsame1 as (Hlen1 & Hdummy1 & Hdraw1).
  destruct (go_to_previous_input_one inputs1 (cur + 1)) as (inputs2 & Hrun2 & Hsame2).
  - lia.
  - now apply Hdraw1.
  - replace (cur + 1 - 1) with cur by lia. now rewrite Hdummy1.
  - replace (cur + 1 - 1) with cur in Hrun2 by lia.
    eexists. eexists. split; [exact Hrun1 |]. split; [reflexivity |].
    split; [exact Hrun2 |]. split; [reflexivity |].
    exact (same_windows_trans _ _ _ Hsame1 Hsame2).
Qed.

(** Text, fixed, with the focus on the text window: every later window is a
    dummy. *)
Lemma C2_round_trip_witness :
  let text := {| fld_type := "text-single"; fld_label := "Name";
                 fld_instructions := ""; fld_value := VStr "";
                 fld_options := [] |} in
  let fixed := {| fld_type := "fixed"; fld_label := ""; fld_instructions := "";
                  fld_value := VStr "Section"; fld_options := [] |} in
  let form := {| form_title := "t"; form_instructions := "";
                 form_fields := [("a", text); ("b", fixed)] |} in
  exists self form' self1 self2,
    FormWin.__init__ form = (Returns self, form')
    /\ FormWin.go_to_next_input self = (Returns tt, self1)
    /\ FormWin.current_input self1 = 1
    /\ FormWin.go_to_previous_input self1 = (Returns tt, self2)
    /\ FormWin.current_input self2 = 0.
Proof.
  intros text fixed form.
  destruct (FormWin.__init__ form) as [r form'] eqn:Hinit.
  vm_compute in Hinit. injection Hinit as <- <-.
  match goal with
  | |- exists self _ _ _, (Returns ?s, ?f) = _ /\ _ =>
      assert (Hdraw : all_draw (FormWin.inputs s));
      [| assert (Hcur : 0 <= FormWin.current_input s < len (FormWin.inputs s) - 1)
           by (unfold len; cbn; lia);
         assert (Hlater : forall k,
                   FormWin.current_input s < k < len (FormWin.inputs s) ->
                   FormWin.dummy_at (FormWin.inputs s) k = Returns true)
           by (intros k Hk; unfold len in Hk; cbn in Hk;
               replace k with 1 by lia; reflexivity);
         destruct (C2_round_trip s Hcur Hdraw eq_refl (or_intror Hlater))
           as (self1 & self2 & Hrun1 & Hcur1 & Hrun2 & Hcur2 & _);
         exists s, f, self1, self2;
         split; [reflexivity |];
         split; [exact Hrun1 |]; split; [exact Hcur1 |];
         split; [exact Hrun2 | exact Hcur2] ]
  end.
  intros inp Hin. cbn in Hin.
  repeat (apply elem_of_cons in Hin as [-> | Hin]; [exact I |]).
  now apply elem_of_nil in Hin.
Defined.


(** * Further properties of the code *)

(** ** Keys on a [BooleanWin] *)

Lemma last_cons_default {A} (x d : A) (l : list A) :
  List.last (x :: l) d = List.last l x.
Proof.
  revert x d. induction l as [| y l IH]; intros x d; [reflexivity |].
  change (List.last (x :: y :: l) d) with (List.last (y :: l) d).
  now rewrite (IH y d), (IH y x).
Qed.

Lemma BooleanWin_do_command_key (key : key) (w : BooleanWin.t) :
  BooleanWin.do_command [key] w =
    (Returns tt,
     if is_arrow key
     then {| BooleanWin.last_key := key;
             BooleanWin.value := negb (BooleanWin.value w) |}
     else w).
Proof.
  unfold BooleanWin.do_command, BooleanWin.refresh, is_arrow. py_unfold.
  now destruct (String.eqb key "KEY_LEFT" || String.eqb key "KEY_RIGHT").
Qed.

(** X1. Any sequence of keys on a [BooleanWin] returns; the value is the
    initial one flipped once per left or right key in the sequence, and
    [last_key] is the last such key (unchanged when there is none). *)
Theorem X1_boolean_keys (keys : list key) (w : BooleanWin.t) :
  let arrows := List.filter is_arrow keys in
  for_each keys (fun key => BooleanWin.do_command [key]) w =
    (Returns tt,
     {| BooleanWin.last_key := List.last arrows (BooleanWin.last_key w);
        BooleanWin.value := xorb (BooleanWin.value w) (Nat.odd (length arrows)) |}).
Proof.
  cbn zeta. revert w. induction keys as [| key keys IH]; intros w.
  - destruct w as [k v]. cbn. now rewrite xorb_false_r.
  - cbn [for_each]. erewrite run_bind by apply BooleanWin_do_command_key.
    rewrite IH. cbn [List.filter].
    destruct (is_arrow key); [| reflexivity].
    cbn [BooleanWin.last_key BooleanWin.value length].
    rewrite last_cons_default, Nat.odd_succ, <- Nat.negb_odd.
    now destruct (BooleanWin.value w), (Nat.odd _).
Qed.

(** ** Keys on a [ListSingleWin] *)

Lemma index_in_range {A} (l : list A) (i : Z) :
  0 <= i < len l -> exists x, index l i = Returns x /\ l !! Z.to_nat i = Some x.
Proof.
  intros Hi. destruct (getitem_in_range l i Hi) as [x Hx].
  exists x. unfold index. rewrite Hx. split; [reflexivity |].
  now rewrite <- getitem_nonneg by lia.
Qed.

Lemma cursor_after_range (n p : Z) (key : key) :
  0 <= p < n -> 0 <= cursor_after n p key < n.
Proof.
  intros Hp. unfold cursor_after.
  destruct (String.eqb key "KEY_LEFT"); [lia |].
  destruct (String.eqb key "KEY_RIGHT"); lia.
Qed.

Lemma ListSingleWin_do_command_key (key : key) (w : ListSingleWin.t) :
  0 <= ListSingleWin.val_pos w < len (ListSingleWin.options w) ->
  ListSingleWin.do_command [key] w =
    (Returns tt,
     {| ListSingleWin.options := ListSingleWin.options w;
        ListSingleWin.val_pos :=
          cursor_after (len (ListSingleWin.options w)) (ListSingleWin.val_pos w) key |}).
Proof.
  destruct w as [opts p]. cbn [ListSingleWin.options ListSingleWin.val_pos].
  intros Hp.
  unfold ListSingleWin.do_command, ListSingleWin.refresh, ListSingleWin.set_val_pos,
    cursor_after.
  py_unfold. cbn -[String.eqb index len].
  destruct (String.eqb key "KEY_LEFT").
  { destruct (Z.gtb_spec p 0); cbn -[index len].
    - destruct (index_in_range opts (p - 1)) as (o & -> & _); [lia |].
      now rewrite Z.max_r by lia.
    - destruct (index_in_range opts p) as (o & -> & _); [lia |].
      now replace (Z.max 0 (p - 1)) with p by lia. }
  destruct (String.eqb key "KEY_RIGHT"); [| reflexivity].
  destruct (Z.ltb_spec p (len opts - 1)); cbn -[index len].
  - destruct (index_in_range opts (p + 1)) as (o & -> & _); [lia |].
    now rewrite Z.min_r by lia.
  - destruct (index_in_range opts p) as (o & -> & _); [lia |].
    now replace (Z.min (len opts - 1) (p + 1)) with p by lia.
Qed.

(** Key by key: the window after a sequence of keys. *)
Lemma ListSingleWin_for_each_keys (keys : list key) (w : ListSingleWin.t) :
  let n := len (ListSingleWin.options w) in
  let p := fold_left (cursor_after n) keys (ListSingleWin.val_pos w) in
  0 <= ListSingleWin.val_pos w < n ->
  for_each keys (fun key => ListSingleWin.do_command [key]) w =
    (Returns tt,
     {| ListSingleWin.options := ListSingleWin.options w;
        ListSingleWin.val_pos := p |})
  /\ 0 <= p < n.
Proof.
  cbn zeta. revert w. induction keys as [| key keys IH]; intros w Hp.
  - destruct w as [opts p]. now split.
  - cbn [for_each fold_left].
    erewrite run_bind by (now apply ListSingleWin_do_command_key).
    apply (IH {| ListSingleWin.options := ListSingleWin.options w;
                 ListSingleWin.val_pos := _ |}).
    cbn [ListSingleWin.options ListSingleWin.val_pos].
    now apply cursor_after_range.
Qed.

(** X2. With the cursor on an option, any sequence of keys on a
    [ListSingleWin] returns; the option list is the one it had ("the option
    list never changes"), every key but left and right is ignored, and the
    cursor is on an option again. *)
Theorem X2_list_single_keys (keys : list key) (w : ListSingleWin.t) :
  0 <= ListSingleWin.val_pos w < len (ListSingleWin.options w) ->
  exists w',
    for_each keys (fun key => ListSingleWin.do_command [key]) w = (Returns tt, w')
    /\ ListSingleWin.options w' = ListSingleWin.options w
    /\ 0 <= ListSingleWin.val_pos w' < len (ListSingleWin.options w')
    /\ ListSingleWin.val_pos w' =
         fold_left (cursor_after (len (ListSingleWin.options w)))
           (List.filter is_arrow keys) (ListSingleWin.val_pos w).
Proof.
  intros Hp. destruct (ListSingleWin_for_each_keys keys w Hp) as [Hrun Hrange].
  eexists. split; [exact Hrun |]. cbn. split; [reflexivity |].
  split; [exact Hrange |].
  generalize (ListSingleWin.val_pos w). clear.
  induction keys as [| key keys IH]; intros p; [reflexivity |].
  cbn [fold_left List.filter]. unfold is_arrow at 1, cursor_after at 2.
  destruct (String.eqb key "KEY_LEFT") eqn:Hleft.
  - cbn [orb fold_left]. rewrite <- IH. unfold cursor_after at 3. now rewrite Hleft.
  - destruct (String.eqb key "KEY_RIGHT") eqn:Hright.
    + cbn [orb fold_left]. rewrite <- IH. unfold cursor_after at 3.
      now rewrite Hleft, Hright.
    + cbn [orb]. apply IH.
Qed.

Lemma X2_list_single_keys_witness :
  let w := {| ListSingleWin.options :=
                [{| opt_value := "A"; opt_label := "a" |};
                 {| opt_value := "B"; opt_label := "b" |}];
              ListSingleWin.val_pos := 0 |} in
  for_each ["KEY_RIGHT"; "KEY_RIGHT"; "x"; "KEY_LEFT"; "KEY_RIGHT"]
    (fun key => ListSingleWin.do_command [key]) w =
    (Returns tt,
     {| ListSingleWin.options := ListSingleWin.options w;
        ListSingleWin.val_pos := 1 |}).
Proof.
  intros w.
  destruct (X2_list_single_keys
              ["KEY_RIGHT"; "KEY_RIGHT"; "x"; "KEY_LEFT"; "KEY_RIGHT"] w)
    as (w' & Hrun & Hopts & _ & Hpos); [unfold len; cbn; lia |].
  transitivity (Returns tt, w'); [exact Hrun |].
  destruct w' as [opts p]. cbn in Hopts, Hpos. now subst.
Defined.

Lemma fold_cursor_right (n : Z) (k : nat) (p : Z) :
  0 <= p < n ->
  fold_left (cursor_after n) (replicate k "KEY_RIGHT") p = Z.min (n - 1) (p + Z.of_nat k).
Proof.
  revert p. induction k as [| k IH]; intros p Hp.
  - cbn. lia.
  - cbn [replicate fold_left]. rewrite IH by (now apply cursor_after_range).
    unfold cursor_after. cbn. lia.
Qed.

Lemma fold_cursor_left (n : Z) (k : nat) (p : Z) :
  0 <= p < n ->
  fold_left (cursor_after n) (replicate k "KEY_LEFT") p = Z.max 0 (p - Z.of_nat k).
Proof.
  revert p. induction k as [| k IH]; intros p Hp.
  - cbn. lia.
  - cbn [replicate fold_left]. rewrite IH by (now apply cursor_after_range).
    unfold cursor_after. cbn. lia.
Qed.

(** X3. The cursor of a [ListSingleWin] stops at the ends and does not wrap:
    from an option at index [p] of [n], [k] right keys leave it at
    [min (n-1) (p+k)] and [k] left keys at [max 0 (p-k)]. *)
Theorem X3_list_single_clamps (k : nat) (w : ListSingleWin.t) :
  let n := len (ListSingleWin.options w) in
  let p := ListSingleWin.val_pos w in
  0 <= p < n ->
  for_each (replicate k "KEY_RIGHT") (fun key => ListSingleWin.do_command [key]) w =
    (Returns tt,
     {| ListSingleWin.options := ListSingleWin.options w;
        ListSingleWin.val_pos := Z.min (n - 1) (p + Z.of_nat k) |})
  /\ for_each (replicate k "KEY_LEFT") (fun key => ListSingleWin.do_command [key]) w =
       (Returns tt,
        {| ListSingleWin.options := ListSingleWin.options w;
           ListSingleWin.val_pos := Z.max 0 (p - Z.of_nat k) |}).
Proof.
  cbn zeta. intros Hp. split.
  - rewrite (proj1 (ListSingleWin_for_each_keys _ w Hp)).
    now rewrite fold_cursor_right.
  - rewrite (proj1 (ListSingleWin_for_each_keys _ w Hp)).
    now rewrite fold_cursor_left.
Qed.

Lemma X3_list_single_clamps_witness :
  let w := {| ListSingleWin.options :=
                [{| opt_value := "A"; opt_label := "a" |};
                 {| opt_value := "B"; opt_label := "b" |};
                 {| opt_value := "C"; opt_label := "c" |}];
              ListSingleWin.val_pos := 1 |} in
  for_each (replicate 5 "KEY_RIGHT") (fun key => ListSingleWin.do_command [key]) w =
    (Returns tt,
     {| ListSingleWin.options := ListSingleWin.options w;
        ListSingleWin.val_pos := 2 |})
  /\ for_each (replicate 5 "KEY_LEFT") (fun key => ListSingleWin.do_command [key]) w =
       (Returns tt,
        {| ListSingleWin.options := ListSingleWin.options w;
           ListSingleWin.val_pos := 0 |}).
Proof.
  intros w. refine (X3_list_single_clamps 5 w _). unfold len. cbn. lia.
Defined.

(** ** The cursor a [ListSingleWin] starts with *)

Lemma find_val_pos_no_match (v : pyvalue) (opts : list FieldOption) :
  forall i p,
    Forall (fun o => equals_str v (opt_value o) = false) opts ->
    ListSingleWin.find_val_pos v opts i p = p.
Proof.
  induction opts as [| o rest IH]; intros i p Hnone; [reflexivity |].
  apply Forall_cons in Hnone as [Ho Hrest]. cbn [ListSingleWin.find_val_pos].
  rewrite Ho. now apply IH.
Qed.

Lemma find_val_pos_match (v : pyvalue) (opts : list FieldOption) :
  forall i p,
    Exists (fun o => equals_str v (opt_value o) = true) opts ->
    exists (k : nat) (o : FieldOption),
      ListSingleWin.find_val_pos v opts i p = i + Z.of_nat k
      /\ opts !! k = Some o
      /\ equals_str v (opt_value o) = true
      /\ forall (k' : nat) o',
           (k < k')%nat -> opts !! k' = Some o' ->
           equals_str v (opt_value o') = false.
Proof.
  induction opts as [| o rest IH]; intros i p Hsome.
  - now apply Exists_nil in Hsome.
  - cbn [ListSingleWin.find_val_pos].
    destruct (decide (Exists (fun o => equals_str v (opt_value o) = true) rest))
      as [Hrest | Hrest].
    + destruct (IH (i + 1) (if equals_str v (opt_value o) then i else p) Hrest)
        as (k & o' & Hpos & Hk & Hmatch & Hlater).
      exists (S k), o'. split; [lia |]. split; [exact Hk |].
      split; [exact Hmatch |].
      intros [| k'] o'' Hlt Hk'; [lia |]. apply (Hlater k'); [lia | exact Hk'].
    + apply Exists_cons in Hsome as [Ho | Hsome]; [| contradiction].
      rewrite Ho. exists 0%nat, o.
      split.
      { rewrite find_val_pos_no_match; [lia |].
        apply Forall_forall. intros x Hx.
        destruct (equals_str v (opt_value x)) eqn:Hmatch; [| reflexivity].
        exfalso. apply Hrest. apply Exists_exists. now exists x. }
      split; [reflexivity |]. split; [exact Ho |].
      intros [| k'] o' Hlt Hk'; [lia |]. cbn in Hk'.
      destruct (equals_str v (opt_value o')) eqn:Hmatch; [| reflexivity].
      exfalso. apply Hrest. apply Exists_exists. exists o'.
      split; [| exact Hmatch]. apply list_elem_of_lookup. now exists k'.
Qed.

(** X4. [ListSingleWin.__init__] returns and leaves the field as it is.
    When the field's value is a string that is the value of one of its
    options, the cursor starts on the last option with that value, and a
    [reply] without any key in between writes that value back.  When no
    option has the field's value, the cursor starts at 0. *)
Theorem X4_list_single_seed (field : Field) :
  let opts := fld_options field in
  let w := {| ListSingleWin.options := opts;
              ListSingleWin.val_pos :=
                ListSingleWin.find_val_pos (fld_value field) opts 0 0 |} in
  ListSingleWin.__init__ field = (Returns w, field)
  /\ (forall s,
        fld_value field = VStr s ->
        s ∈ map opt_value opts ->
        exists (k : nat) o,
          ListSingleWin.val_pos w = Z.of_nat k
          /\ opts !! k = Some o /\ opt_value o = s
          /\ (forall (k' : nat) o',
                (k < k')%nat -> opts !! k' = Some o' -> opt_value o' <> s)
          /\ ListSingleWin.reply w field =
               (Returns tt,
                {| fld_type := fld_type field; fld_label := "";
                   fld_instructions := fld_instructions field;
                   fld_value := VStr s; fld_options := [] |}))
  /\ ((forall o, o ∈ opts -> fld_value field <> VStr (opt_value o)) ->
      ListSingleWin.val_pos w = 0).
Proof.
  cbn zeta. split; [reflexivity |]. split.
  - intros s Hvalue Hin. rewrite Hvalue.
    destruct (find_val_pos_match (VStr s) (fld_options field) 0 0)
      as (k & o & Hpos & Hk & Hmatch & Hlater).
    { apply Exists_exists. apply list_elem_of_fmap in Hin as [o [-> Ho]].
      exists o. split; [exact Ho |]. cbn. apply String.eqb_refl. }
    cbn in Hmatch. apply String.eqb_eq in Hmatch.
    exists k, o. cbn [ListSingleWin.val_pos].
    split; [lia |]. split; [exact Hk |]. split; [now symmetry |].
    split.
    + intros k' o' Hlt Hk' Heq. specialize (Hlater k' o' Hlt Hk'). cbn in Hlater.
      apply String.eqb_neq in Hlater. congruence.
    + unfold ListSingleWin.reply, index. py_unfold.
      cbn [ListSingleWin.options ListSingleWin.val_pos].
      rewrite Hpos, Z.add_0_l, getitem_nat, Hk. cbn. now rewrite <- Hmatch.
  - intros Hnone. cbn [ListSingleWin.val_pos]. apply find_val_pos_no_match.
    apply Forall_forall. intros o Ho. specialize (Hnone o Ho).
    destruct (fld_value field) as [| b | s | l]; try reflexivity.
    cbn. apply String.eqb_neq. congruence.
Qed.

Lemma X4_list_single_seed_witness :
  let opts := [{| opt_value := "en"; opt_label := "English" |};
               {| opt_value := "fr"; opt_label := "French" |};
               {| opt_value := "fr"; opt_label := "Francais" |}] in
  let field := {| fld_type := "list-single"; fld_label := "Language";
                  fld_instructions := ""; fld_value := VStr "fr";
                  fld_options := opts |} in
  exists w,
    ListSingleWin.__init__ field = (Returns w, field)
    /\ ListSingleWin.val_pos w = 2
    /\ fld_value (snd (ListSingleWin.reply w field)) = VStr "fr".
Proof.
  intros opts field.
  destruct (X4_list_single_seed field) as (Hinit & Hseed & _).
  destruct (Hseed "fr" eq_refl) as (k & o & Hpos & Hk & Ho & Hlast & Hreply).
  { cbn. set_solver. }
  eexists. split; [exact Hinit |]. split; [reflexivity |].
  rewrite Hreply. reflexivity.
Defined.

(** X5. From a list-single field with at least one option: construction
    returns, any sequence of keys returns, and the [reply] after them
    returns with the value of one of the field's options as the field's
    value. *)
Theorem X5_list_single_answer (field : Field) (keys : list key) :
  fld_options field <> [] ->
  exists w0 w o,
    ListSingleWin.__init__ field = (Returns w0, field)
    /\ for_each keys (fun key => ListSingleWin.do_command [key]) w0 = (Returns tt, w)
    /\ o ∈ fld_options field
    /\ ListSingleWin.reply w field =
         (Returns tt,
          {| fld_type := fld_type field; fld_label := "";
             fld_instructions := fld_instructions field;
             fld_value := VStr (opt_value o); fld_options := [] |}).
Proof.
  intros Hopts.
  set (w0 := {| ListSingleWin.options := fld_options field;
                ListSingleWin.val_pos :=
                  ListSingleWin.find_val_pos (fld_value field) (fld_options field) 0 0 |}).
  assert (Hstart : 0 <= ListSingleWin.val_pos w0 < len (ListSingleWin.options w0)).
  { cbn. pose proof (find_val_pos_range (fld_value field) (fld_options field) 0 0).
    assert (0 < len (fld_options field))
      by (destruct (fld_options field); [contradiction | unfold len; cbn; lia]).
    lia. }
  destruct (ListSingleWin_for_each_keys keys w0 Hstart) as [Hrun Hrange].
  cbn zeta in Hrange.
  destruct (index_in_range (ListSingleWin.options w0) _ Hrange) as (o & Ho & Ho').
  eexists w0, _, o. split; [reflexivity |]. split; [exact Hrun |].
  split; [apply list_elem_of_lookup; eexists; exact Ho' |].
  unfold ListSingleWin.reply. py_unfold. subst w0.
  cbn -[index len] in Ho |- *. now rewrite Ho.
Qed.

Lemma X5_list_single_answer_witness :
  let field := {| fld_type := "list-single"; fld_label := "Language";
                  fld_instructions := ""; fld_value := VNone;
                  fld_options := [{| opt_value := "en"; opt_label := "English" |};
                                  {| opt_value := "fr"; opt_label := "French" |}] |} in
  exists w0 w o,
    ListSingleWin.__init__ field = (Returns w0, field)
    /\ for_each ["KEY_RIGHT"; "KEY_RIGHT"] (fun key => ListSingleWin.do_command [key]) w0
       = (Returns tt, w)
    /\ o ∈ fld_options field
    /\ ListSingleWin.reply w field =
         (Returns tt,
          {| fld_type := fld_type field; fld_label := "";
             fld_instructions := fld_instructions field;
             fld_value := VStr (opt_value o); fld_options := [] |}).
Proof.
  intros field.
  apply (X5_list_single_answer field ["KEY_RIGHT"; "KEY_RIGHT"]). discriminate.
Defined.

(** ** Keys on a [ListMultiWin] *)

Lemma ListMultiWin_toggle (w : ListMultiWin.t) (k : nat) (o : FieldOption * bool) :
  ListMultiWin.val_pos w = Z.of_nat k ->
  ListMultiWin.options w !! k = Some o ->
  ListMultiWin.toggle w =
    (Returns tt,
     {| ListMultiWin.options :=
          <[k := (fst o, negb (snd o))]> (ListMultiWin.options w);
        ListMultiWin.val_pos := ListMultiWin.val_pos w |}).
Proof.
  destruct w as [opts p]. cbn [ListMultiWin.options ListMultiWin.val_pos].
  intros -> Ho. unfold ListMultiWin.toggle, at_index. py_unfold.
  cbn [ListMultiWin.options ListMultiWin.val_pos].
  rewrite getitem_nat, Ho, position_nonneg, Nat2Z.id by lia. reflexivity.
Qed.

Lemma ListMultiWin_do_command_key (key : key) (w : ListMultiWin.t)
    (k : nat) (o : FieldOption * bool) :
  ListMultiWin.val_pos w = Z.of_nat k ->
  ListMultiWin.options w !! k = Some o ->
  ListMultiWin.do_command [key] w =
    (Returns tt,
     {| ListMultiWin.options :=
          if is_arrow key then ListMultiWin.options w
          else if String.eqb key " "
               then <[k := (fst o, negb (snd o))]> (ListMultiWin.options w)
               else ListMultiWin.options w;
        ListMultiWin.val_pos :=
          cursor_after (len (ListMultiWin.options w)) (ListMultiWin.val_pos w) key |}).
Proof.
  intros Hpos Ho.
  assert (Hp : 0 <= ListMultiWin.val_pos w < len (ListMultiWin.options w)).
  { apply lookup_lt_Some in Ho. unfold len. lia. }
  unfold ListMultiWin.do_command. erewrite run_bind by reflexivity.
  unfold is_arrow, cursor_after.
  destruct (String.eqb key "KEY_LEFT").
  { unfold ListMultiWin.refresh, ListMultiWin.set_val_pos. py_unfold.
    destruct w as [opts p]. cbn -[index len] in *.
    destruct (Z.gtb_spec p 0); cbn -[index len].
    - destruct (index_in_range opts (p - 1)) as (x & -> & _); [lia |].
      now rewrite Z.max_r by lia.
    - destruct (index_in_range opts p) as (x & -> & _); [lia |].
      now replace (Z.max 0 (p - 1)) with p by lia. }
  destruct (String.eqb key "KEY_RIGHT").
  { unfold ListMultiWin.refresh, ListMultiWin.set_val_pos. py_unfold.
    destruct w as [opts p]. cbn -[index len] in *.
    destruct (Z.ltb_spec p (len opts - 1)); cbn -[index len].
    - destruct (index_in_range opts (p + 1)) as (x & -> & _); [lia |].
      now rewrite Z.min_r by lia.
    - destruct (index_in_range opts p) as (x & -> & _); [lia |].
      now replace (Z.min (len opts - 1) (p + 1)) with p by lia. }
  cbn [orb]. destruct (String.eqb key " "); [| now destruct w].
  erewrite run_bind by (now apply (ListMultiWin_toggle w k o)).
  unfold ListMultiWin.refresh. py_unfold.
  cbn [ListMultiWin.options ListMultiWin.val_pos].
  destruct (index_in_range (<[k := (fst o, negb (snd o))]> (ListMultiWin.options w))
              (ListMultiWin.val_pos w)) as (x & -> & _);
    [now rewrite len_insert | reflexivity].
Qed.

(** X6. With the cursor of a [ListMultiWin] on an option, the space key
    returns and flips the flag of that option; the window is otherwise as
    it was (same options, same other flags, same cursor), and a second space
    key gives back the window there was before the first. *)
Theorem X6_list_multi_space (w : ListMultiWin.t) (k : nat) (o : FieldOption * bool) :
  ListMultiWin.val_pos w = Z.of_nat k ->
  ListMultiWin.options w !! k = Some o ->
  ListMultiWin.do_command [" "] w =
    (Returns tt,
     {| ListMultiWin.options :=
          <[k := (fst o, negb (snd o))]> (ListMultiWin.options w);
        ListMultiWin.val_pos := ListMultiWin.val_pos w |})
  /\ for_each [" "; " "] (fun key => ListMultiWin.do_command [key]) w = (Returns tt, w).
Proof.
  intros Hpos Ho.
  pose proof (ListMultiWin_do_command_key " " w k o Hpos Ho) as Hfirst.
  cbn in Hfirst. split; [exact Hfirst |].
  cbn [for_each]. erewrite run_bind by exact Hfirst.
  erewrite run_bind.
  2:{ apply (ListMultiWin_do_command_key " " _ k (fst o, negb (snd o)));
        cbn [ListMultiWin.options ListMultiWin.val_pos]; [exact Hpos |].
      apply list_lookup_insert_eq. now apply lookup_lt_Some in Ho. }
  cbn. rewrite list_insert_insert_eq, negb_involutive.
  destruct w as [opts p], o as [x b]. cbn in *.
  now rewrite (list_insert_id _ _ _ Ho).
Qed.

Lemma X6_list_multi_space_witness :
  let a := {| opt_value := "A"; opt_label := "a" |} in
  let b := {| opt_value := "B"; opt_label := "b" |} in
  let w := {| ListMultiWin.options := [(a, false); (b, true)];
              ListMultiWin.val_pos := 1 |} in
  ListMultiWin.do_command [" "] w =
    (Returns tt,
     {| ListMultiWin.options := [(a, false); (b, false)];
        ListMultiWin.val_pos := 1 |})
  /\ for_each [" "; " "] (fun key => ListMultiWin.do_command [key]) w = (Returns tt, w).
Proof.
  intros a b w. exact (X6_list_multi_space w 1%nat (b, true) eq_refl eq_refl).
Defined.

(** X7. With the cursor on an option, any sequence of keys on a
    [ListMultiWin] returns; the options are the same, in the same order (only
    flags change), the cursor is on an option, and it is where the left and
    right keys of the sequence take it.  The values [reply] would commit are
    a subsequence of the values of the options. *)
Theorem X7_list_multi_keys (keys : list key) (w : ListMultiWin.t) :
  0 <= ListMultiWin.val_pos w < len (ListMultiWin.options w) ->
  exists w',
    for_each keys (fun key => ListMultiWin.do_command [key]) w = (Returns tt, w')
    /\ map fst (ListMultiWin.options w') = map fst (ListMultiWin.options w)
    /\ 0 <= ListMultiWin.val_pos w' < len (ListMultiWin.options w')
    /\ ListMultiWin.val_pos w' =
         fold_left (cursor_after (len (ListMultiWin.options w))) keys
           (ListMultiWin.val_pos w)
    /\ sublist (ListMultiWin.selected_values w')
         (map (fun o => opt_value (fst o)) (ListMultiWin.options w)).
Proof.
  revert w. induction keys as [| key keys IH]; intros w Hp.
  - exists w. repeat split; try lia.
    apply fmap_sublist, sublist_filter.
  - destruct (index_in_range _ _ Hp) as (o & _ & Ho).
    pose proof (ListMultiWin_do_command_key key w (Z.to_nat (ListMultiWin.val_pos w)) o)
      as Hstep.
    rewrite Z2Nat.id in Hstep by lia. specialize (Hstep eq_refl Ho).
    set (w1 := {| ListMultiWin.options := _; ListMultiWin.val_pos := _ |}) in Hstep.
    assert (Hopts1 : map fst (ListMultiWin.options w1) = map fst (ListMultiWin.options w)).
    { subst w1. cbn [ListMultiWin.options].
      destruct (is_arrow key); [reflexivity |].
      destruct (String.eqb key " "); [| reflexivity].
      apply list_eq. intros i. rewrite !list_lookup_fmap.
      destruct (decide (i = Z.to_nat (ListMultiWin.val_pos w))) as [-> | Hne].
      - rewrite list_lookup_insert_eq by (now apply lookup_lt_Some in Ho).
        now rewrite Ho.
      - now rewrite list_lookup_insert_ne by congruence. }
    assert (Hlen1 : len (ListMultiWin.options w1) = len (ListMultiWin.options w)).
    { unfold len. apply (f_equal (@length _)) in Hopts1.
      rewrite !length_map in Hopts1. now rewrite Hopts1. }
    destruct (IH w1) as (w' & Hrun & Hopts & Hrange & Hpos & Hsub).
    { rewrite Hlen1. subst w1. cbn [ListMultiWin.val_pos].
      now apply cursor_after_range. }
    exists w'. split.
    { cbn [for_each]. erewrite run_bind by exact Hstep. exact Hrun. }
    split; [congruence |]. split; [exact Hrange |]. split.
    { rewrite Hpos, Hlen1. reflexivity. }
    replace (map (fun o => opt_value (fst o)) (ListMultiWin.options w))
      with (map (fun o => opt_value (fst o)) (ListMultiWin.options w1)); [exact Hsub |].
    rewrite <- !(map_map fst opt_value). now rewrite Hopts1.
Qed.

Lemma X7_list_multi_keys_witness :
  let a := {| opt_value := "A"; opt_label := "a" |} in
  let b := {| opt_value := "B"; opt_label := "b" |} in
  let w := {| ListMultiWin.options := [(a, false); (b, false)];
              ListMultiWin.val_pos := 0 |} in
  exists w',
    for_each ["KEY_RIGHT"; " "; "KEY_LEFT"; " "] (fun key => ListMultiWin.do_command [key]) w
    = (Returns tt, w')
    /\ ListMultiWin.val_pos w' = 0
    /\ map fst (ListMultiWin.options w') = [a; b].
Proof.
  intros a b w.
  destruct (X7_list_multi_keys ["KEY_RIGHT"; " "; "KEY_LEFT"; " "] w)
    as (w' & Hrun & Hopts & _ & Hpos & _); [unfold len; cbn; lia |].
  exists w'. split; [exact Hrun |]. split; [exact Hpos | exact Hopts].
Defined.

(** ** The flags a [ListMultiWin] starts with *)

Lemma existsb_eqb_elem (s : string) (l : list string) :
  existsb (String.eqb s) l = true <-> s ∈ l.
Proof.
  rewrite existsb_exists. split.
  - intros (x & Hx & Heq). apply String.eqb_eq in Heq. subst x.
    now apply list_elem_of_In.
  - intros Hs. exists s. split; [now apply list_elem_of_In | apply String.eqb_refl].
Qed.

Lemma flag_options_list (l : list string) (opts : list FieldOption) :
  ListMultiWin.flag_options (VList l) opts =
    Returns (map (fun o => (o, existsb (String.eqb (opt_value o)) l)) opts).
Proof.
  induction opts as [| o rest IH]; [reflexivity |].
  cbn [ListMultiWin.flag_options contains map]. now rewrite IH.
Qed.

Lemma selected_seeded (l : list string) (opts : list FieldOption) :
  map (fun o : FieldOption * bool => opt_value (fst o))
    (filter (fun o : FieldOption * bool => snd o = true)
       (map (fun o => (o, existsb (String.eqb (opt_value o)) l)) opts))
  = filter (fun v => v ∈ l) (map opt_value opts).
Proof.
  induction opts as [| o rest IH]; [reflexivity |].
  cbn [map]. rewrite !filter_cons. cbn [snd fst].
  destruct (existsb (String.eqb (opt_value o)) l) eqn:Hflag.
  - rewrite decide_True by reflexivity.
    rewrite decide_True by (now apply existsb_eqb_elem). cbn. now rewrite IH.
  - rewrite decide_False by discriminate.
    rewrite decide_False; [exact IH |].
    intros Hin. apply existsb_eqb_elem in Hin. congruence.
Qed.

(** X8. For a field whose value is a list of strings,
    [ListMultiWin.__init__] returns and leaves the field as it is: the
    window has the field's options in their order, each flagged exactly when
    its value is in the list, and the cursor at 0.  A [reply] without any key
    in between commits the option values that are in the list, in option
    order: values of the list that no option has are dropped. *)
Theorem X8_list_multi_seed (field : Field) (l : list string) :
  fld_value field = VList l ->
  exists w,
    ListMultiWin.__init__ field = (Returns w, field)
    /\ ListMultiWin.val_pos w = 0
    /\ map fst (ListMultiWin.options w) = fld_options field
    /\ (forall o b, (o, b) ∈ ListMultiWin.options w -> (b = true <-> opt_value o ∈ l))
    /\ ListMultiWin.reply w field =
         (Returns tt,
          {| fld_type := fld_type field; fld_label := "";
             fld_instructions := fld_instructions field;
             fld_value :=
               VList (filter (fun v => v ∈ l) (map opt_value (fld_options field)));
             fld_options := [] |}).
Proof.
  intros Hvalue.
  exists {| ListMultiWin.options :=
              map (fun o => (o, existsb (String.eqb (opt_value o)) l)) (fld_options field);
            ListMultiWin.val_pos := 0 |}.
  split.
  { unfold ListMultiWin.__init__. py_unfold. cbn.
    now rewrite Hvalue, flag_options_list. }
  split; [reflexivity |]. cbn [ListMultiWin.options]. split.
  { rewrite map_map. cbn. apply map_id. }
  split.
  { intros o b Hin. apply list_elem_of_fmap in Hin as (o' & [= -> ->] & _).
    apply existsb_eqb_elem. }
  unfold ListMultiWin.reply, ListMultiWin.selected_values.
  cbn [ListMultiWin.options]. now rewrite selected_seeded.
Qed.

Lemma X8_list_multi_seed_witness :
  let opts := [{| opt_value := "A"; opt_label := "a" |};
               {| opt_value := "B"; opt_label := "b" |};
               {| opt_value := "C"; opt_label := "c" |}] in
  let field := {| fld_type := "list-multi"; fld_label := "Pick";
                  fld_instructions := ""; fld_value := VList ["C"; "Z"; "A"];
                  fld_options := opts |} in
  exists w,
    ListMultiWin.__init__ field = (Returns w, field)
    /\ fld_value (snd (ListMultiWin.reply w field)) = VList ["A"; "C"].
Proof.
  intros opts field.
  destruct (X8_list_multi_seed field ["C"; "Z"; "A"] eq_refl)
    as (w & Hinit & _ & _ & _ & Hreply).
  exists w. split; [exact Hinit |]. rewrite Hreply. reflexivity.
Defined.

(** ** When construction raises *)

Lemma flag_options_raises (v : pyvalue) (opts : list FieldOption) :
  opts <> [] -> v = VNone \/ (exists b, v = VBool b) ->
  ListMultiWin.flag_options v opts = Raises TypeError.
Proof.
  intros Hopts Hv. destruct opts as [| o rest]; [contradiction |].
  cbn [ListMultiWin.flag_options]. now destruct Hv as [-> | [b ->]].
Qed.

Lemma flag_options_raise_inv (v : pyvalue) (opts : list FieldOption) (e : exception) :
  ListMultiWin.flag_options v opts = Raises e ->
  e = TypeError /\ opts <> [] /\ (v = VNone \/ exists b, v = VBool b).
Proof.
  induction opts as [| o rest IH]; [discriminate |].
  cbn [ListMultiWin.flag_options].
  destruct v as [| b | s | l]; cbn [contains].
  - intros [= <-]. split; [reflexivity |]. split; [discriminate | now left].
  - intros [= <-]. split; [reflexivity |]. split; [discriminate | right; now exists b].
  - destruct (ListMultiWin.flag_options (VStr s) rest) eqn:Hrest; [discriminate |].
    intros [= <-]. destruct (IH eq_refl) as (_ & _ & [Hv | [b Hv]]); discriminate.
  - destruct (ListMultiWin.flag_options (VList l) rest) eqn:Hrest; [discriminate |].
    intros [= <-]. destruct (IH eq_refl) as (_ & _ & [Hv | [b Hv]]); discriminate.
Qed.

Lemma input_classes_multi (ty : string) :
  FormWin.input_classes !! ty = Some cListMultiWin -> ty = "list-multi".
Proof.
  intros Hlookup. unfold FormWin.input_classes in Hlookup.
  apply elem_of_list_to_map_2 in Hlookup.
  repeat (apply elem_of_cons in Hlookup as [Heq | Hlookup];
          [first [ injection Heq as Hty Hcls; discriminate Hcls
                 | injection Heq as Hty; exact Hty ] |]).
  now apply elem_of_nil in Hlookup.
Qed.

Lemma FieldInput_init_raise_inv (cls : input_class) (ref : nat) (field field' : Field)
    (e : exception) :
  FieldInput.__init__ cls ref field = (Raises e, field') ->
  cls = cListMultiWin /\ e = TypeError /\ field' = field
  /\ fld_options field <> []
  /\ (fld_value field = VNone \/ exists b, fld_value field = VBool b).
Proof.
  unfold FieldInput.__init__. py_unfold.
  destruct cls; cbn; try discriminate.
  unfold ListMultiWin.__init__. py_unfold. cbn.
  destruct (ListMultiWin.flag_options _ _) as [flagged | e'] eqn:Hflag; cbn;
    [discriminate |].
  intros [= <- <-]. apply flag_options_raise_inv in Hflag. tauto.
Qed.

Lemma add_input_raises (ref : nat) (field : Field) :
  unseedable field -> FormWin.add_input ref field = (Raises TypeError, field).
Proof.
  destruct field as [ty l i v opts]. intros (Hty & Hopts & Hv). cbn in *. subst ty.
  destruct opts as [| o rest]; [contradiction |].
  destruct Hv as [-> | [b ->]]; reflexivity.
Qed.

Lemma add_input_raise_inv (ref : nat) (field field' : Field) (e : exception) :
  FormWin.add_input ref field = (Raises e, field') ->
  e = TypeError /\ unseedable field.
Proof.
  unfold FormWin.add_input. py_unfold. cbn beta iota.
  destruct (String.eqb (fld_type field) "hidden"); [discriminate |].
  destruct (FormWin.input_classes !! fld_type field) as [cls |] eqn:Hcls;
    cbn -[String.eqb].
  - destruct (String.eqb (fld_type field) "fixed"); cbn -[String.eqb];
      destruct (FieldInput.__init__ cls ref field) as [[obj | e'] f1] eqn:Hinit;
      try discriminate;
      intros [= <- _];
      apply FieldInput_init_raise_inv in Hinit as (-> & -> & _ & Hopts & Hv);
      (split; [reflexivity |]);
      (split; [exact (input_classes_multi _ Hcls) | now split]).
  - destruct (String.eqb (fld_type field) "fixed"); discriminate.
Qed.

Lemma add_inputs_returns (fields : list (string * Field)) :
  forall ref acc,
    Forall (fun field => ~ unseedable (snd field)) fields ->
    exists inputs fields', FormWin.add_inputs ref fields acc = (Returns inputs, fields').
Proof.
  induction fields as [| [name field] rest IH]; intros ref acc Hok.
  - now eexists _, _.
  - apply Forall_cons in Hok as [Hfield Hrest]. cbn [FormWin.add_inputs].
    destruct (FormWin.add_input ref field) as [[added | e] field1] eqn:Hadd.
    + destruct (IH (S ref) (match added with
                            | Some inp => (acc ++ [inp])%list
                            | None => acc
                            end) Hrest) as (inputs & fields' & ->).
      now eexists _, _.
    + apply add_input_raise_inv in Hadd as [_ Hbad]. contradiction.
Qed.

Lemma add_inputs_raises (fields : list (string * Field)) :
  forall ref acc,
    Exists (fun field => unseedable (snd field)) fields ->
    exists fields', FormWin.add_inputs ref fields acc = (Raises TypeError, fields').
Proof.
  induction fields as [| [name field] rest IH]; intros ref acc Hbad.
  - now apply Exists_nil in Hbad.
  - cbn [FormWin.add_inputs].
    destruct (FormWin.add_input ref field) as [[added | e] field1] eqn:Hadd.
    + apply Exists_cons in Hbad as [Hfield | Hrest].
      * cbn in Hfield. rewrite (add_input_raises ref field Hfield) in Hadd.
        discriminate.
      * destruct (IH (S ref) (match added with
                              | Some inp => (acc ++ [inp])%list
                              | None => acc
                              end) Hrest) as (fields' & ->).
        now eexists.
    + apply add_input_raise_inv in Hadd as [-> _]. now eexists.
Qed.

(** X9. [FormWin.__init__] raises exactly when the form has a list-multi
    field with options whose value is [None] or a boolean, and what it raises
    is then [TypeError]; for every other form it returns a [FormWin]. *)
Theorem X9_construction_raises (form : Form) :
  (Exists (fun field => unseedable (snd field)) (form_fields form) ->
   fst (FormWin.__init__ form) = Raises TypeError)
  /\ (Forall (fun field => ~ unseedable (snd field)) (form_fields form) ->
      exists self, fst (FormWin.__init__ form) = Returns self).
Proof.
  unfold FormWin.__init__. split.
  - intros Hbad.
    destruct (add_inputs_raises (form_fields form) 0%nat [] Hbad) as (fields' & ->).
    reflexivity.
  - intros Hok.
    destruct (add_inputs_returns (form_fields form) 0%nat [] Hok)
      as (inputs & fields' & ->).
    now eexists.
Qed.

Lemma X9_construction_raises_witness :
  let opts := [{| opt_value := "A"; opt_label := "a" |}] in
  let multi v := {| fld_type := "list-multi"; fld_label := "Pick";
                    fld_instructions := ""; fld_value := v; fld_options := opts |} in
  let form v := {| form_title := "t"; form_instructions := "";
                   form_fields := [("m", multi v)] |} in
  fst (FormWin.__init__ (form VNone)) = Raises TypeError
  /\ exists self, fst (FormWin.__init__ (form (VList ["A"]))) = Returns self.
Proof.
  intros opts multi form. split.
  - apply (proj1 (X9_construction_raises (form VNone))).
    apply Exists_cons_hd. unfold unseedable. cbn.
    split; [reflexivity |]. split; [discriminate | now left].
  - apply (proj2 (X9_construction_raises (form (VList ["A"])))).
    apply Forall_cons_2; [| apply Forall_nil_2].
    unfold unseedable. cbn. intros (_ & _ & [Hv | [b Hv]]); discriminate.
Defined.

(** ** What [FormWin.__init__] builds *)

Lemma input_classes_recognized (ty : string) :
  ty ∈ recognized_types -> exists cls, FormWin.input_classes !! ty = Some cls.
Proof.
  unfold recognized_types. intros Hty.
  repeat (apply elem_of_cons in Hty as [-> | Hty]; [now eexists |]).
  now apply elem_of_nil in Hty.
Qed.

Lemma input_classes_fixed (ty : string) :
  FormWin.input_classes !! ty = Some cDummyInput <-> ty = "fixed".
Proof.
  split; [| now intros ->].
  intros Hlookup. unfold FormWin.input_classes in Hlookup.
  apply elem_of_list_to_map_2 in Hlookup.
  repeat (apply elem_of_cons in Hlookup as [Heq | Hlookup];
          [first [ injection Heq as Hty Hcls; discriminate Hcls
                 | injection Heq as Hty; exact Hty ] |]).
  now apply elem_of_nil in Hlookup.
Qed.

(** A constructor only reads the field. *)
Lemma FieldInput_init_state (cls : input_class) (ref : nat) (field : Field) :
  snd (FieldInput.__init__ cls ref field) = field.
Proof.
  unfold FieldInput.__init__. py_unfold. destruct cls; cbn; try reflexivity.
  unfold ListMultiWin.__init__. py_unfold. cbn.
  now destruct (ListMultiWin.flag_options _ _).
Qed.

Lemma FieldInput_init_dummy (cls : input_class) (ref : nat) (field field' : Field)
    (inp : Input) :
  FieldInput.__init__ cls ref field = (Returns inp, field') ->
  (FieldInput.is_dummy inp = true <-> cls = cDummyInput).
Proof.
  unfold FieldInput.__init__. py_unfold.
  destruct cls; cbn; try (intros [= <- _]; cbn; split; (discriminate || reflexivity)).
  unfold ListMultiWin.__init__. py_unfold. cbn.
  destruct (ListMultiWin.flag_options _ _); cbn; [| discriminate].
  intros [= <- _]. cbn. split; discriminate.
Qed.

Lemma add_input_state (ref : nat) (field : Field) :
  snd (FormWin.add_input ref field) = after_init field.
Proof.
  unfold FormWin.add_input, after_init. py_unfold. cbn beta iota.
  destruct (String.eqb_spec (fld_type field) "hidden") as [Hhidden | Hhidden].
  { rewrite decide_True; [reflexivity |]. rewrite Hhidden. apply list_elem_of_here. }
  destruct (FormWin.input_classes !! fld_type field) as [cls |] eqn:Hcls;
    cbn -[String.eqb].
  - rewrite decide_True.
    2:{ apply list_elem_of_further.
        destruct (decide (fld_type field ∈ recognized_types)) as [| Hnot];
          [assumption |].
        rewrite (input_classes_unrecognized _ Hnot) in Hcls. discriminate. }
    pose proof (FieldInput_init_state cls ref field) as Hstate.
    destruct (String.eqb (fld_type field) "fixed"); cbn -[String.eqb];
      destruct (FieldInput.__init__ cls ref field) as [[obj | e] f1]; exact Hstate.
  - rewrite decide_False.
    2:{ intros Hin. apply elem_of_cons in Hin as [Hin | Hin]; [contradiction |].
        destruct (input_classes_recognized _ Hin) as [cls Hsome]. congruence. }
    destruct (String.eqb (fld_type field) "fixed"); reflexivity.
Qed.

Lemma add_input_hidden (ref : nat) (field : Field) :
  String.eqb (fld_type field) "hidden" = true ->
  FormWin.add_input ref field = (Returns None, field).
Proof. intros Hhidden. unfold FormWin.add_input. py_unfold. cbn beta iota. now rewrite Hhidden. Qed.

(** The entry the loop body appends for a field that is not hidden. *)
Lemma add_input_entry (ref : nat) (field field' : Field) (added : option FormWin.entry) :
  String.eqb (fld_type field) "hidden" = false ->
  FormWin.add_input ref field = (Returns added, field') ->
  exists inp,
    added = Some inp
    /\ _field (FormWin.input inp) = ref
    /\ (FieldInput.is_dummy (FormWin.input inp) = true <-> fld_type field = "fixed")
    /\ FormWin.label inp =
         (if String.eqb (fld_type field) "fixed" then fld_value field
          else VStr (fld_label field))
    /\ FormWin.instructions inp = fld_instructions field.
Proof.
  intros Hhidden. unfold FormWin.add_input. py_unfold. cbn beta iota.
  rewrite Hhidden.
  destruct (FormWin.input_classes !! fld_type field) as [cls |] eqn:Hcls;
    cbn -[String.eqb].
  - destruct (String.eqb_spec (fld_type field) "fixed") as [Hfixed | Hfixed];
      cbn -[String.eqb];
      destruct (FieldInput.__init__ cls ref field) as [[obj | e] f1] eqn:Hinit;
      try discriminate;
      intros [= <- _]; eexists; (split; [reflexivity |]); cbn;
      (split; [exact (FieldInput_init_ref _ _ _ _ _ Hinit) |]);
      (split; [| split; reflexivity]);
      rewrite (FieldInput_init_dummy _ _ _ _ _ Hinit);
      rewrite <- input_classes_fixed, Hcls; split; congruence.
  - assert (Hfixed : fld_type field <> "fixed").
    { intros Hfixed. rewrite Hfixed in Hcls. discriminate. }
    rewrite (eqb_other _ _ Hfixed). cbn.
    intros [= <- _]. eexists. split; [reflexivity |]. cbn.
    split; [reflexivity |]. split; [split; [discriminate | contradiction] |].
    now split.
Qed.

Lemma add_inputs_shape (fields : list (string * Field)) :
  forall (ref : nat) (acc inputs : list FormWin.entry) fields',
    FormWin.add_inputs ref fields acc = (Returns inputs, fields') ->
    fields' = map (fun field => (fst field, after_init (snd field))) fields
    /\ exists new,
         inputs = (acc ++ new)%list
         /\ map (fun inp => _field (FormWin.input inp)) new = shown_refs ref fields
         /\ forall inp, inp ∈ new ->
              exists name f,
                fields !! (_field (FormWin.input inp) - ref)%nat = Some (name, f)
                /\ (ref <= _field (FormWin.input inp))%nat
                /\ (FieldInput.is_dummy (FormWin.input inp) = true
                    <-> fld_type f = "fixed")
                /\ FormWin.label inp =
                     (if String.eqb (fld_type f) "fixed" then fld_value f
                      else VStr (fld_label f))
                /\ FormWin.instructions inp = fld_instructions f.
Proof.
  induction fields as [| [name field] rest IH]; intros ref acc inputs fields'.
  - cbn. intros [= <- <-]. split; [reflexivity |]. exists [].
    split; [now rewrite app_nil_r |]. split; [reflexivity |].
    intros inp Hin. now apply elem_of_nil in Hin.
  - cbn [FormWin.add_inputs].
    pose proof (add_input_state ref field) as Hstate.
    destruct (FormWin.add_input ref field) as [[added | e] field1] eqn:Hadd;
      [| discriminate].
    cbn in Hstate. subst field1.
    destruct (FormWin.add_inputs (S ref) rest _) as [r rest'] eqn:Hrest.
    intros [= -> <-].
    destruct (IH _ _ _ _ Hrest) as (Hfields & new & Hinputs & Hrefs & Hnew).
    split; [cbn; now rewrite Hfields |].
    cbn [shown_refs].
    destruct (String.eqb (fld_type field) "hidden") eqn:Hhidden.
    + rewrite (add_input_hidden ref field Hhidden) in Hadd.
      injection Hadd as <-. exists new. split; [exact Hinputs |].
      split; [exact Hrefs |].
      intros inp Hin. destruct (Hnew inp Hin) as (n & f & Hk & Hle & Hrest').
      exists n, f. split; [| split; [lia | exact Hrest']].
      replace (_field (FormWin.input inp) - ref)%nat
        with (S (_field (FormWin.input inp) - S ref)) by lia.
      exact Hk.
    + destruct (add_input_entry ref field _ added Hhidden Hadd)
        as (inp0 & -> & Href & Hdummy & Hlabel & Hinstr).
      exists (inp0 :: new). split; [now rewrite Hinputs, <- app_assoc |].
      split; [cbn; now rewrite Href, Hrefs |].
      intros inp Hin. apply elem_of_cons in Hin as [-> | Hin].
      * exists name, field. rewrite Href, Nat.sub_diag.
        split; [reflexivity |]. split; [lia |]. split; [exact Hdummy |].
        now split.
      * destruct (Hnew inp Hin) as (n & f & Hk & Hle & Hrest').
        exists n, f. split; [| split; [lia | exact Hrest']].
        replace (_field (FormWin.input inp) - ref)%nat
          with (S (_field (FormWin.input inp) - S ref)) by lia.
        exact Hk.
Qed.

(** The shape of what [FormWin.__init__] returns. *)
Lemma FormWin_init_shape (form form' : Form) (self : FormWin.t) :
  FormWin.__init__ form = (Returns self, form') ->
  FormWin.current_input self = 0
  /\ wired (form_fields form) (FormWin.inputs self)
  /\ (forall inp name f,
        inp ∈ FormWin.inputs self ->
        form_fields form !! _field (FormWin.input inp) = Some (name, f) ->
        FormWin.label inp =
          (if String.eqb (fld_type f) "fixed" then fld_value f
           else VStr (fld_label f))
        /\ FormWin.instructions inp = fld_instructions f)
  /\ form' =
       {| form_title := form_title form;
          form_instructions := form_instructions form;
          form_fields :=
            map (fun field => (fst field, after_init (snd field))) (form_fields form) |}.
Proof.
  unfold FormWin.__init__.
  destruct (FormWin.add_inputs 0 (form_fields form) []) as [[inputs | e] fields'] eqn:Hadd;
    [| discriminate].
  intros [= <- <-]. cbn [FormWin.current_input FormWin.inputs].
  destruct (add_inputs_shape _ _ _ _ _ Hadd) as (Hfields & new & Hinputs & Hrefs & Hnew).
  cbn in Hinputs. subst inputs.
  split; [reflexivity |]. split; [split; [exact Hrefs |] |]; [| split].
  - intros inp name f Hin Hf.
    destruct (Hnew inp Hin) as (n & g & Hk & _ & Hdummy & _).
    rewrite Nat.sub_0_r, Hf in Hk. now injection Hk as _ <-.
  - intros inp name f Hin Hf.
    destruct (Hnew inp Hin) as (n & g & Hk & _ & _ & Hlabel & Hinstr).
    rewrite Nat.sub_0_r, Hf in Hk. injection Hk as _ <-. now split.
  - unfold FormObj.with_fields. now rewrite Hfields.
Qed.

(** X10. When [FormWin.__init__] returns, the focus index is 0; there is
    one input window per field that is not hidden, in field order, each
    referring to its field; the window is a [DummyInput] exactly for a fixed
    field, whose entry has the field's value as its label (any other entry
    has the field's label), and each entry has the field's instructions.
    The form has the same title, instructions and fields, except that a
    field of an unknown type that is not hidden has its type name as value. *)
Theorem X10_construction_shape (form form' : Form) (self : FormWin.t) :
  FormWin.__init__ form = (Returns self, form') ->
  FormWin.current_input self = 0
  /\ wired (form_fields form) (FormWin.inputs self)
  /\ (forall inp name f,
        inp ∈ FormWin.inputs self ->
        form_fields form !! _field (FormWin.input inp) = Some (name, f) ->
        FormWin.label inp =
          (if String.eqb (fld_type f) "fixed" then fld_value f
           else VStr (fld_label f))
        /\ FormWin.instructions inp = fld_instructions f)
  /\ form' =
       {| form_title := form_title form;
          form_instructions := form_instructions form;
          form_fields :=
            map (fun field => (fst field, after_init (snd field))) (form_fields form) |}.
Proof. apply FormWin_init_shape. Qed.

Lemma X10_construction_shape_witness :
  let hidden := {| fld_type := "hidden"; fld_label := ""; fld_instructions := "";
                   fld_value := VStr "token"; fld_options := [] |} in
  let fixed := {| fld_type := "fixed"; fld_label := "ignored";
                  fld_instructions := ""; fld_value := VStr "About you";
                  fld_options := [] |} in
  let other := {| fld_type := "custom-x"; fld_label := "Custom";
                  fld_instructions := "free text"; fld_value := VNone;
                  fld_options := [] |} in
  let form := {| form_title := "t"; form_instructions := "";
                 form_fields := [("h", hidden); ("f", fixed); ("o", other)] |} in
  exists self form',
    FormWin.__init__ form = (Returns self, form')
    /\ map (fun inp => _field (FormWin.input inp)) (FormWin.inputs self) = [1%nat; 2%nat]
    /\ map FormWin.label (FormWin.inputs self) = [VStr "About you"; VStr "Custom"]
    /\ form_fields form' =
         [("h", hidden); ("f", fixed);
          ("o", {| fld_type := "custom-x"; fld_label := "Custom";
                   fld_instructions := "free text"; fld_value := VStr "custom-x";
                   fld_options := [] |})].
Proof.
  intros hidden fixed other form.
  destruct (FormWin.__init__ form) as [[self | e] form'] eqn:Hinit;
    [| vm_compute in Hinit; discriminate Hinit].
  destruct (X10_construction_shape form form' self Hinit)
    as (_ & [Hrefs _] & _ & Hform).
  exists self, form'. split; [reflexivity |]. split; [exact Hrefs |].
  split; [| now rewrite Hform].
  vm_compute in Hinit. now injection Hinit as <- _.
Defined.

(** ** What the reply pass does to each field *)

Lemma shown_refs_spec (fields : list (string * Field)) :
  forall (ref i : nat),
    i ∈ shown_refs ref fields <->
    (ref <= i)%nat
    /\ exists name f, fields !! (i - ref)%nat = Some (name, f)
                      /\ fld_type f <> "hidden".
Proof.
  induction fields as [| [name field] rest IH]; intros ref i.
  - cbn. split; [intros Hin; now apply elem_of_nil in Hin |].
    intros (_ & n & f & Hk & _). discriminate.
  - cbn [shown_refs].
    assert (Htail : i ∈ shown_refs (S ref) rest <->
                    (ref < i)%nat
                    /\ exists n f, ((name, field) :: rest) !! (i - ref)%nat = Some (n, f)
                                   /\ fld_type f <> "hidden").
    { rewrite IH. split.
      - intros (Hle & n & f & Hk & Hty). split; [lia |]. exists n, f.
        replace (i - ref)%nat with (S (i - S ref)) by lia. now split.
      - intros (Hlt & n & f & Hk & Hty). split; [lia |]. exists n, f.
        replace (i - ref)%nat with (S (i - S ref)) in Hk by lia. now split. }
    destruct (String.eqb_spec (fld_type field) "hidden") as [Hhidden | Hshown].
    + rewrite Htail. split.
      * intros (Hlt & Hrest). split; [lia | exact Hrest].
      * intros (Hle & n & f & Hk & Hty). split; [| now exists n, f].
        destruct (decide (i = ref)) as [-> | Hne]; [| lia].
        rewrite Nat.sub_diag in Hk. cbn in Hk. injection Hk as _ <-. contradiction.
    + rewrite elem_of_cons, Htail. split.
      * intros [-> | (Hlt & Hrest)].
        -- split; [lia |]. exists name, field. now rewrite Nat.sub_diag.
        -- split; [lia | exact Hrest].
      * intros (Hle & Hrest).
        destruct (decide (i = ref)) as [-> | Hne]; [now left |].
        right. split; [lia | exact Hrest].
Qed.

Lemma shown_refs_NoDup (fields : list (string * Field)) :
  forall ref, NoDup (shown_refs ref fields).
Proof.
  induction fields as [| [name field] rest IH]; intros ref; [apply NoDup_nil_2 |].
  cbn [shown_refs]. destruct (String.eqb (fld_type field) "hidden"); [apply IH |].
  apply NoDup_cons_2; [| apply IH].
  intros Hin. apply shown_refs_spec in Hin as [Hle _]. lia.
Qed.

(** Every [reply] but the one [DummyInput] inherits empties the label and
    leaves the type and the instructions, whether it returns or raises. *)
Lemma reply_field_shape (inp : Input) (field : Field) :
  FieldInput.is_dummy inp = false ->
  let field' := snd (FieldInput.reply inp field) in
  fld_label field' = ""
  /\ fld_type field' = fld_type field
  /\ fld_instructions field' = fld_instructions field.
Proof.
  destruct inp as [ref c [| w | w | w | w | w]]; cbn; intros Hdummy;
    try discriminate; try now repeat split.
  unfold ListSingleWin.reply, index. py_simpl.
  destruct (getitem _ _); now repeat split.
Qed.

Lemma reply_inputs_untouched (inputs : list FormWin.entry) (form : Form) (i : nat) :
  (forall inp, inp ∈ inputs -> FieldInput.is_dummy (FormWin.input inp) = false ->
               _field (FormWin.input inp) <> i) ->
  form_fields (snd (FormWin.reply_inputs inputs form)) !! i = form_fields form !! i.
Proof.
  revert form. induction inputs as [| inp rest IH]; intros form Hrefs; [reflexivity |].
  assert (Hrest : forall e, e ∈ rest -> FieldInput.is_dummy (FormWin.input e) = false ->
                            _field (FormWin.input e) <> i).
  { intros e He. apply Hrefs. now apply list_elem_of_further. }
  cbn [FormWin.reply_inputs]. py_unfold.
  destruct (FieldInput.is_dummy (FormWin.input inp)) eqn:Hdummy; [now apply IH |].
  pose proof (on_field_other (_field (FormWin.input inp)) i
                (FieldInput.reply (FormWin.input inp)) form
                (Hrefs inp (list_elem_of_here _ _) Hdummy)) as Hother.
  destruct (FormObj.on_field _ _ form) as [[[] | e] form']; cbn in *.
  - rewrite IH by assumption. exact Hother.
  - exact Hother.
Qed.

Lemma on_field_at (ref : nat) (m : Py Field unit) (form : Form) name f :
  form_fields form !! ref = Some (name, f) ->
  FormObj.on_field ref m form =
    (fst (m f),
     FormObj.with_fields (<[ref := (name, snd (m f))]> (form_fields form)) form).
Proof.
  intros Href. unfold FormObj.on_field. rewrite Href. now destruct (m f).
Qed.

(** When the pass returns and no two inputs refer to the same field, the
    field of an input that is not a dummy is what the [reply] of that input
    makes of it. *)
Lemma reply_inputs_at (inputs : list FormWin.entry) :
  forall (form : Form) (inp : FormWin.entry) name f,
    NoDup (map (fun inp => _field (FormWin.input inp)) inputs) ->
    fst (FormWin.reply_inputs inputs form) = Returns tt ->
    inp ∈ inputs ->
    FieldInput.is_dummy (FormWin.input inp) = false ->
    form_fields form !! _field (FormWin.input inp) = Some (name, f) ->
    form_fields (snd (FormWin.reply_inputs inputs form)) !! _field (FormWin.input inp)
    = Some (name, snd (FieldInput.reply (FormWin.input inp) f)).
Proof.
  induction inputs as [| first rest IH]; intros form inp name f Hnodup Hret Hin Hdummy Hf.
  - now apply elem_of_nil in Hin.
  - cbn [map] in Hnodup. apply NoDup_cons in Hnodup as [Hfresh Hnodup].
    cbn [FormWin.reply_inputs] in *. py_unfold.
    apply elem_of_cons in Hin as [-> | Hin].
    + rewrite Hdummy in *.
      rewrite (on_field_at _ _ _ _ _ Hf) in *.
      destruct (FieldInput.reply (FormWin.input first) f) as [[[] | e] f'] eqn:Hreply;
        cbn in Hret |- *; [| discriminate].
      rewrite reply_inputs_untouched.
      * cbn. apply list_lookup_insert_eq. now apply lookup_lt_Some in Hf.
      * intros e He _ Heq. apply Hfresh. rewrite <- Heq.
        apply list_elem_of_fmap. now exists e.
    + assert (Hne : _field (FormWin.input first) <> _field (FormWin.input inp)).
      { intros Heq. apply Hfresh. rewrite Heq. apply list_elem_of_fmap. now exists inp. }
      destruct (FieldInput.is_dummy (FormWin.input first)); [now apply IH |].
      pose proof (on_field_other _ _ (FieldInput.reply (FormWin.input first)) form Hne)
        as Hother.
      destruct (FormObj.on_field _ _ form) as [[[] | e] form1]; cbn in *;
        [| discriminate].
      apply IH; try assumption. now rewrite Hother.
Qed.

(** X11. With the input windows of a form's fields (as [FormWin.__init__]
    builds them, and as they stay under keys and navigation): the reply pass
    leaves every hidden field and every fixed field of the form exactly as
    it is, whether it returns or raises; when it returns, the title and
    the instructions of the form are empty and every other field has an
    empty label and the type and instructions it had. *)
Theorem X11_reply_pass_by_field (self : FormWin.t) (form : Form) :
  wired (form_fields form) (FormWin.inputs self) ->
  let form' := snd (FormWin.reply self form) in
  (forall i name f,
     form_fields form !! i = Some (name, f) ->
     fld_type f = "hidden" \/ fld_type f = "fixed" ->
     form_fields form' !! i = Some (name, f))
  /\ (fst (FormWin.reply self form) = Returns tt ->
      form_title form' = "" /\ form_instructions form' = ""
      /\ forall i name f,
           form_fields form !! i = Some (name, f) ->
           fld_type f <> "hidden" -> fld_type f <> "fixed" ->
           exists f',
             form_fields form' !! i = Some (name, f')
             /\ fld_label f' = ""
             /\ fld_type f' = fld_type f
             /\ fld_instructions f' = fld_instructions f).
Proof.
  intros [Hrefs Hdummies]. cbn zeta.
  assert (Hfields : form_fields (snd (FormWin.reply self form)) =
                    form_fields (snd (FormWin.reply_inputs (FormWin.inputs self) form))).
  { unfold FormWin.reply. py_unfold.
    now destruct (FormWin.reply_inputs (FormWin.inputs self) form) as [[[] | e] form1]. }
  split.
  - intros i name f Hi Hty. rewrite Hfields, reply_inputs_untouched; [exact Hi |].
    intros inp Hin Hdummy Href. subst i.
    destruct Hty as [Hhidden | Hfixed].
    + assert (Hshown : _field (FormWin.input inp) ∈ shown_refs 0 (form_fields form)).
      { rewrite <- Hrefs. apply list_elem_of_fmap. now exists inp. }
      apply shown_refs_spec in Hshown as (_ & n & g & Hk & Hnot).
      rewrite Nat.sub_0_r, Hi in Hk. injection Hk as _ <-. contradiction.
    + apply (Hdummies inp name f Hin Hi) in Hfixed. congruence.
  - intros Hret.
    assert (Hpass : fst (FormWin.reply_inputs (FormWin.inputs self) form) = Returns tt).
    { unfold FormWin.reply in Hret. py_unfold.
      destruct (FormWin.reply_inputs (FormWin.inputs self) form) as [[[] | e] form1];
        [reflexivity | discriminate]. }
    split; [| split].
    + unfold FormWin.reply. py_unfold.
      destruct (FormWin.reply_inputs (FormWin.inputs self) form) as [[[] | e] form1];
        [reflexivity | discriminate].
    + unfold FormWin.reply. py_unfold.
      destruct (FormWin.reply_inputs (FormWin.inputs self) form) as [[[] | e] form1];
        [reflexivity | discriminate].
    + intros i name f Hi Hhidden Hfixed.
      assert (Hshown : i ∈ shown_refs 0 (form_fields form)).
      { apply shown_refs_spec. split; [lia |]. exists name, f.
        now rewrite Nat.sub_0_r. }
      rewrite <- Hrefs in Hshown.
      apply list_elem_of_fmap in Hshown as (inp & -> & Hin).
      assert (Hdummy : FieldInput.is_dummy (FormWin.input inp) = false).
      { destruct (FieldInput.is_dummy (FormWin.input inp)) eqn:Hd; [| reflexivity].
        apply (Hdummies inp name f Hin Hi) in Hd. contradiction. }
      exists (snd (FieldInput.reply (FormWin.input inp) f)).
      split.
      * rewrite Hfields. apply reply_inputs_at; try assumption.
        rewrite Hrefs. apply shown_refs_NoDup.
      * apply (reply_field_shape _ f Hdummy).
Qed.

Lemma after_init_type (field : Field) : fld_type (after_init field) = fld_type field.
Proof. unfold after_init. now destruct (decide _). Qed.

Lemma shown_refs_types (fields fields' : list (string * Field)) :
  map (fun field => fld_type (snd field)) fields'
  = map (fun field => fld_type (snd field)) fields ->
  forall ref, shown_refs ref fields' = shown_refs ref fields.
Proof.
  revert fields'. induction fields as [| [n f] rest IH]; intros [| [n' f'] rest'];
    try discriminate; [reflexivity |].
  cbn [map snd]. intros [= Hty Hrest] ref. cbn [shown_refs].
  now rewrite Hty, (IH rest' Hrest).
Qed.

(** The windows of a form are the windows of any form with the same field
    types: of the form as [FormWin.__init__] leaves it, and of the form
    after a reply pass. *)
Lemma wired_types (fields fields' : list (string * Field))
    (inputs : list FormWin.entry) :
  map (fun field => fld_type (snd field)) fields'
  = map (fun field => fld_type (snd field)) fields ->
  wired fields inputs -> wired fields' inputs.
Proof.
  intros Htypes [Hrefs Hdummies]. split.
  - now rewrite (shown_refs_types _ _ Htypes).
  - intros inp name f' Hin Hf'.
    assert (Hty : map (fun field => fld_type (snd field)) fields'
                    !! _field (FormWin.input inp) = Some (fld_type f')).
    { now rewrite list_lookup_fmap, Hf'. }
    rewrite Htypes, list_lookup_fmap in Hty.
    destruct (fields !! _field (FormWin.input inp)) as [[n f] |] eqn:Hf;
      [| discriminate].
    cbn in Hty. injection Hty as Hty. rewrite <- Hty.
    exact (Hdummies inp n f Hin Hf).
Qed.

Lemma X11_reply_pass_by_field_witness :
  let hidden := {| fld_type := "hidden"; fld_label := "h"; fld_instructions := "";
                   fld_value := VStr "token"; fld_options := [] |} in
  let fixed := {| fld_type := "fixed"; fld_label := "f"; fld_instructions := "";
                  fld_value := VStr "About you"; fld_options := [] |} in
  let text := {| fld_type := "text-single"; fld_label := "Name";
                 fld_instructions := "your name"; fld_value := VStr "hello";
                 fld_options := [] |} in
  let form := {| form_title := "t"; form_instructions := "i";
                 form_fields := [("h", hidden); ("f", fixed); ("t", text)] |} in
  exists self form',
    FormWin.__init__ form = (Returns self, form)
    /\ FormWin.reply self form = (Returns tt, form')
    /\ form_fields form' !! 0%nat = Some ("h", hidden)
    /\ form_fields form' !! 1%nat = Some ("f", fixed)
    /\ exists f', form_fields form' !! 2%nat = Some ("t", f')
                  /\ fld_label f' = "" /\ fld_instructions f' = "your name".
Proof.
  intros hidden fixed text form.
  destruct (FormWin.__init__ form) as [[self | e] form1] eqn:Hinit;
    [| vm_compute in Hinit; discriminate Hinit].
  destruct (FormWin_init_shape form form1 self Hinit) as (_ & Hwired & _ & Hform).
  assert (Hform1 : form1 = form) by (rewrite Hform; reflexivity).
  subst form1.
  destruct (X11_reply_pass_by_field self form Hwired) as [Hkept Hreplied].
  assert (Hret : FormWin.reply self form = (Returns tt, snd (FormWin.reply self form))).
  { vm_compute in Hinit. injection Hinit as <-. reflexivity. }
  exists self, (snd (FormWin.reply self form)).
  split; [reflexivity |]. split; [exact Hret |].
  split; [apply (Hkept 0%nat "h" hidden eq_refl); now left |].
  split; [apply (Hkept 1%nat "f" fixed eq_refl); now right |].
  destruct Hreplied as (_ & _ & Hother); [now rewrite Hret |].
  destruct (Hother 2%nat "t" text eq_refl) as (f' & Hf' & Hlabel & _ & Hinstr);
    [discriminate | discriminate |].
  exists f'. now repeat split.
Defined.

(** ** The list of input windows is fixed at construction *)

Section Keeps.
Context {S : Type} (R : S -> S -> Prop).
Hypothesis R_refl : forall s, R s s.
Hypothesis R_trans : forall s1 s2 s3, R s1 s2 -> R s2 s3 -> R s1 s3.

Lemma keeps_mret {A} (a : A) : keeps R (mret a).
Proof. intros s. apply R_refl. Qed.

Lemma keeps_get : keeps R get.
Proof. intros s. apply R_refl. Qed.

Lemma keeps_lift {A} (r : result A) : keeps R (lift r).
Proof. intros s. apply R_refl. Qed.

Lemma keeps_bind {A B} (m : Py S A) (k : A -> Py S B) :
  keeps R m -> (forall a, keeps R (k a)) -> keeps R (m ≫= k).
Proof.
  intros Hm Hk s. py_unfold. specialize (Hm s).
  destruct (m s) as [[a | e] s1]; cbn in *; [| exact Hm].
  exact (R_trans _ _ _ Hm (Hk a s1)).
Qed.
End Keeps.

Lemma in_class_same_object {T A} (wrap : T -> Win) (m : Py T A) (w : T) (self : Input) :
  (forall w1 w2, class_of (wrap w1) = class_of (wrap w2)) ->
  win self = wrap w ->
  same_object self (snd (FieldInput.in_class wrap m w self)).
Proof.
  intros Hwrap Hself. unfold FieldInput.in_class, same_object.
  destruct (m w) as [r w']. cbn. split; [reflexivity |]. rewrite Hself. apply Hwrap.
Qed.

Lemma refresh_same_object : keeps same_object FieldInput.refresh.
Proof.
  intros [ref c [| w | w | w | w | w]]; unfold FieldInput.refresh; cbn [win];
    now apply in_class_same_object.
Qed.

Lemma set_color_same_object (c : Z) : keeps same_object (FieldInput.set_color c).
Proof.
  intros obj. unfold FieldInput.set_color. py_unfold. cbn.
  pose proof (refresh_same_object
                {| _field := _field obj; color := c; win := win obj |}) as Hkept.
  destruct (FieldInput.refresh _) as [[[] | e] obj']; exact Hkept.
Qed.

Lemma do_command_same_object Input_do_command (args : list key) :
  keeps same_object (FieldInput.do_command Input_do_command args).
Proof.
  intros [ref c [| w | w | w | w | w]]; unfold FieldInput.do_command; cbn [win];
    now apply in_class_same_object.
Qed.

Lemma same_wiring_refl (self : FormWin.t) : same_wiring self self.
Proof. reflexivity. Qed.

Lemma same_wiring_trans (s1 s2 s3 : FormWin.t) :
  same_wiring s1 s2 -> same_wiring s2 s3 -> same_wiring s1 s3.
Proof. unfold same_wiring. congruence. Qed.

Lemma on_inputs_same_wiring {A} (i : Z) (m : Py Input A) :
  keeps same_object m -> keeps same_wiring (FormWin.on_inputs i m).
Proof.
  intros Hm [inputs cur]. unfold FormWin.on_inputs, at_index, same_wiring. cbn.
  destruct (getitem inputs i) as [inp |] eqn:Hinp; [| reflexivity].
  unfold FormWin.on_obj. specialize (Hm (FormWin.input inp)).
  destruct (m (FormWin.input inp)) as [r obj]. cbn in *.
  rewrite list_fmap_insert. apply list_insert_id.
  rewrite list_lookup_fmap, (getitem_position _ _ _ Hinp). cbn.
  unfold wiring. cbn. destruct Hm as [-> ->]. reflexivity.
Qed.

Lemma set_current_input_same_wiring (i : Z) :
  keeps same_wiring (FormWin.set_current_input i).
Proof. intros self. reflexivity. Qed.

Ltac keeps_wiring :=
  repeat first
    [ apply (keeps_bind same_wiring same_wiring_trans)
    | apply (keeps_mret same_wiring same_wiring_refl)
    | apply (keeps_get same_wiring same_wiring_refl)
    | apply (keeps_lift same_wiring same_wiring_refl)
    | apply set_current_input_same_wiring
    | apply on_inputs_same_wiring
    | apply set_color_same_object
    | apply refresh_same_object
    | apply do_command_same_object
    | match goal with
      | |- forall _, _ => intro
      | |- keeps _ (match ?l with [] => _ | _ :: _ => _ end) => destruct l
      | |- keeps _ (if ?b then _ else _) => destruct b
      end ].

Lemma go_to_next_input_same_wiring : keeps same_wiring FormWin.go_to_next_input.
Proof. unfold FormWin.go_to_next_input. keeps_wiring. Qed.

Lemma go_to_previous_input_same_wiring : keeps same_wiring FormWin.go_to_previous_input.
Proof. unfold FormWin.go_to_previous_input. keeps_wiring. Qed.

Lemma on_input_same_wiring Input_do_command (key : key) :
  keeps same_wiring (FormWin.on_input Input_do_command key).
Proof. unfold FormWin.on_input. keeps_wiring. Qed.

Lemma refresh_labels_same_wiring (fields : list (string * Field)) :
  forall i, keeps same_wiring (FormWin.refresh_labels fields i).
Proof.
  induction fields as [| [name field] rest IH]; intros i; cbn [FormWin.refresh_labels].
  - keeps_wiring.
  - destruct (String.eqb (fld_type field) "hidden"); [apply IH |].
    apply (keeps_bind same_wiring same_wiring_trans); [keeps_wiring |]. intros self.
    apply (keeps_bind same_wiring same_wiring_trans); [keeps_wiring |]. intros _.
    apply IH.
Qed.

Lemma refresh_inputs_same_wiring (n : nat) :
  forall i, keeps same_wiring (FormWin.refresh_inputs n i).
Proof.
  induction n as [| n IH]; intros i; cbn [FormWin.refresh_inputs].
  - keeps_wiring.
  - apply (keeps_bind same_wiring same_wiring_trans); [keeps_wiring |]. intros _.
    apply IH.
Qed.

Lemma refresh_same_wiring (form : Form) : keeps same_wiring (FormWin.refresh form).
Proof.
  unfold FormWin.refresh.
  apply (keeps_bind same_wiring same_wiring_trans);
    [apply refresh_labels_same_wiring |]. intros _.
  apply (keeps_bind same_wiring same_wiring_trans); [keeps_wiring |]. intros self.
  apply (keeps_bind same_wiring same_wiring_trans);
    [apply refresh_inputs_same_wiring |]. intros _.
  keeps_wiring.
Qed.

(** X12. [go_to_next_input], [go_to_previous_input], [on_input] (for any
    key and any line editor) and [refresh] leave the list of input windows
    wired as it was, whether they return or raise: as many entries, in the
    same order, each with the label and instructions it had, each window of
    the class it had and referring to the field it referred to. *)
Theorem X12_wiring_kept Input_do_command (key : key) (form : Form) (self : FormWin.t) :
  same_wiring self (snd (FormWin.go_to_next_input self))
  /\ same_wiring self (snd (FormWin.go_to_previous_input self))
  /\ same_wiring self (snd (FormWin.on_input Input_do_command key self))
  /\ same_wiring self (snd (FormWin.refresh form self)).
Proof.
  split; [apply go_to_next_input_same_wiring |].
  split; [apply go_to_previous_input_same_wiring |].
  split; [apply on_input_same_wiring | apply refresh_same_wiring].
Qed.

(** ** When the reply pass raises *)

Lemma run_bind_raises {S A B} (m : Py S A) (k : A -> Py S B) (s s' : S) e :
  m s = (Raises e, s') -> (m ≫= k) s = (Raises e, s').
Proof. intros Hm. py_unfold. now rewrite Hm. Qed.

Lemma reply_raise_inv (inp : Input) (field field' : Field) (e : exception) :
  FieldInput.is_dummy inp = false ->
  FieldInput.reply inp field = (Raises e, field') ->
  e = IndexError
  /\ exists w, win inp = ListSingle w
               /\ getitem (ListSingleWin.options w) (ListSingleWin.val_pos w) = None.
Proof.
  destruct inp as [ref c [| w | w | w | w | w]]; cbn; intros Hdummy;
    try discriminate.
  unfold ListSingleWin.reply, index. py_simpl.
  destruct (getitem _ _) eqn:Hcursor; [discriminate |].
  intros [= <- _]. split; [reflexivity |]. now exists w.
Qed.

Lemma on_field_title (ref : nat) (m : Py Field unit) (form : Form) :
  form_title (snd (FormObj.on_field ref m form)) = form_title form
  /\ form_instructions (snd (FormObj.on_field ref m form)) = form_instructions form.
Proof.
  unfold FormObj.on_field.
  destruct (form_fields form !! ref) as [[name f] |]; [| easy].
  destruct (m f) as [r f']. easy.
Qed.

Lemma reply_inputs_title (inputs : list FormWin.entry) (form : Form) :
  form_title (snd (FormWin.reply_inputs inputs form)) = form_title form
  /\ form_instructions (snd (FormWin.reply_inputs inputs form)) = form_instructions form.
Proof.
  revert form. induction inputs as [| inp rest IH]; intros form; [easy |].
  cbn [FormWin.reply_inputs]. py_unfold.
  destruct (FieldInput.is_dummy (FormWin.input inp)); [apply IH |].
  pose proof (on_field_title (_field (FormWin.input inp))
                (FieldInput.reply (FormWin.input inp)) form) as Hfield.
  destruct (FormObj.on_field _ _ form) as [[[] | e] form1]; cbn in *; [| exact Hfield].
  destruct (IH form1) as [-> ->]. exact Hfield.
Qed.

Lemma reply_inputs_raise_inv (inputs : list FormWin.entry) (form form' : Form)
    (e : exception) :
  FormWin.reply_inputs inputs form = (Raises e, form') ->
  e = IndexError
  /\ exists inp w,
       inp ∈ inputs /\ win (FormWin.input inp) = ListSingle w
       /\ getitem (ListSingleWin.options w) (ListSingleWin.val_pos w) = None.
Proof.
  revert form. induction inputs as [| inp rest IH]; intros form; [discriminate |].
  cbn [FormWin.reply_inputs]. py_unfold.
  assert (Hrest : forall form1,
            FormWin.reply_inputs rest form1 = (Raises e, form') ->
            e = IndexError
            /\ exists inp0 w,
                 inp0 ∈ inp :: rest /\ win (FormWin.input inp0) = ListSingle w
                 /\ getitem (ListSingleWin.options w) (ListSingleWin.val_pos w) = None).
  { intros form1 Hraise. destruct (IH form1 Hraise) as (He & inp0 & w & Hin & Hrest).
    split; [exact He |]. exists inp0, w. split; [now apply list_elem_of_further | exact Hrest]. }
  destruct (FieldInput.is_dummy (FormWin.input inp)) eqn:Hdummy; [apply Hrest |].
  unfold FormObj.on_field at 1.
  destruct (form_fields form !! _field (FormWin.input inp)) as [[name f] |];
    [| apply Hrest].
  destruct (FieldInput.reply (FormWin.input inp) f) as [[[] | e'] f'] eqn:Hreply;
    [apply Hrest |].
  intros [= <- _]. destruct (reply_raise_inv _ _ _ _ Hdummy Hreply) as (He & w & Hw & Hcursor).
  split; [exact He |]. exists inp, w. split; [apply list_elem_of_here | now split].
Qed.

(** X13. [FormWin.reply] never raises anything but [IndexError] (it never
    reaches the [NotImplementedError] of [FieldInput.reply]), and it raises
    only when some list-single window has its cursor on no option; the title
    and the instructions of the form are then as they were, not emptied. *)
Theorem X13_reply_raises (self : FormWin.t) (form form' : Form) (e : exception) :
  FormWin.reply self form = (Raises e, form') ->
  e = IndexError
  /\ (exists inp w,
        inp ∈ FormWin.inputs self /\ win (FormWin.input inp) = ListSingle w
        /\ getitem (ListSingleWin.options w) (ListSingleWin.val_pos w) = None)
  /\ form_title form' = form_title form
  /\ form_instructions form' = form_instructions form.
Proof.
  unfold FormWin.reply. py_unfold.
  pose proof (reply_inputs_title (FormWin.inputs self) form) as Htitle.
  destruct (FormWin.reply_inputs (FormWin.inputs self) form) as [[[] | e'] form1] eqn:Hpass;
    [discriminate |].
  intros [= <- <-]. destruct (reply_inputs_raise_inv _ _ _ _ Hpass) as [He Hwin].
  split; [exact He |]. split; [exact Hwin | exact Htitle].
Qed.

Lemma X13_reply_raises_witness :
  let w := {| ListSingleWin.options := []; ListSingleWin.val_pos := 0 |} in
  let self := {| FormWin.inputs :=
                   [{| FormWin.label := VStr "Colour"; FormWin.instructions := "";
                       FormWin.input := {| _field := 0; color := 14;
                                           win := ListSingle w |} |}];
                 FormWin.current_input := 0 |} in
  let form := {| form_title := "Survey"; form_instructions := "Pick";
                 form_fields :=
                   [("c", {| fld_type := "list-single"; fld_label := "Colour";
                             fld_instructions := ""; fld_value := VNone;
                             fld_options := [] |})] |} in
  exists form',
    FormWin.reply self form = (Raises IndexError, form')
    /\ form_title form' = "Survey" /\ form_instructions form' = "Pick".
Proof.
  intros w self form.
  destruct (FormWin.reply self form) as [[[] | e] form'] eqn:Hreply;
    [vm_compute in Hreply; discriminate Hreply |].
  destruct (X13_reply_raises self form form' e Hreply) as (-> & _ & Htitle & Hinstr).
  exists form'. now repeat split.
Defined.

(** X14. [on_send] does not touch the input windows and never calls
    [_on_cancel].  When it returns it has made exactly one call, [_on_send]
    with the form as it leaves it; when it raises (in the library's
    [Form.reply] or in the reply pass) it has made no call. *)
Theorem X14_send_calls (Form_reply : Py Form unit) (self : DataFormsTab.t) :
  let r := fst (DataFormsTab.on_send Form_reply self) in
  let self' := snd (DataFormsTab.on_send Form_reply self) in
  DataFormsTab.form_win self' = DataFormsTab.form_win self
  /\ match r with
     | Returns _ =>
         DataFormsTab.calls self' =
           (DataFormsTab.calls self ++ [DataFormsTab.OnSend (DataFormsTab._form self')])%list
     | Raises _ => DataFormsTab.calls self' = DataFormsTab.calls self
     end.
Proof.
  cbn zeta. destruct self as [form win calls].
  unfold DataFormsTab.on_send, DataFormsTab.on_form, DataFormsTab.invoke.
  py_unfold. cbn.
  destruct (Form_reply form) as [[[] | e] form1]; cbn; [| now split].
  destruct (FormWin.reply win form1) as [[[] | e] form2]; cbn; now split.
Qed.

(** ** How far [go_to_next_input] takes the focus *)

Lemma repeat_next_bound (n : nat) :
  forall self,
    focus_in_range self ->
    all_draw (FormWin.inputs self) ->
    exists self',
      repeat_call n FormWin.go_to_next_input self = (Returns tt, self')
      /\ same_windows (FormWin.inputs self) (FormWin.inputs self')
      /\ Z.min (len (FormWin.inputs self) - 1) (FormWin.current_input self + Z.of_nat n)
         <= FormWin.current_input self' <= len (FormWin.inputs self) - 1.
Proof.
  induction n as [| n IH]; intros [inputs cur]; unfold focus_in_range; cbn;
    intros Hrange Hdraw.
  - eexists. split; [reflexivity |]. cbn. split; [apply same_windows_refl | lia].
  - assert (Hstep : exists inputs1 cur1,
              FormWin.go_to_next_input
                {| FormWin.inputs := inputs; FormWin.current_input := cur |} =
              (Returns tt, {| FormWin.inputs := inputs1; FormWin.current_input := cur1 |})
              /\ same_windows inputs inputs1
              /\ Z.min (len inputs - 1) (cur + 1) <= cur1 <= len inputs - 1).
    { destruct (Z.eq_dec cur (len inputs - 1)) as [Hlast | Hnotlast].
      - exists inputs, cur. split; [now apply go_to_next_input_last |].
        split; [apply same_windows_refl | lia].
      - destruct (go_to_next_input_moves inputs cur) as
          (inputs1 & cur1 & Hrun & Hsame & Hcur1 & _); [lia | assumption |].
        exists inputs1, cur1. split; [exact Hrun |]. split; [exact Hsame | lia]. }
    destruct Hstep as (inputs1 & cur1 & Hrun & Hsame & Hcur1).
    pose proof Hsame as (Hlen & _ & Hdraw1).
    destruct (IH {| FormWin.inputs := inputs1; FormWin.current_input := cur1 |})
      as (self' & Hrun' & Hsame' & Hcur').
    { unfold focus_in_range. cbn. lia. }
    { cbn. now apply Hdraw1. }
    cbn in Hrun', Hsame', Hcur'. rewrite Hlen in Hcur'.
    exists self'. split.
    + erewrite run_bind by exact Hrun. exact Hrun'.
    + split; [exact (same_windows_trans _ _ _ Hsame Hsame') | lia].
Qed.

(** X15. From a focus in range, with windows that can be drawn, every call
    of [go_to_next_input] returns and takes the focus at least one index
    further until it is on the last index: after [n] calls it is at least
    [min (len-1) (cur+n)], so that enough calls leave it on the last index,
    dummy or not. *)
Theorem X15_advance_reaches_end (n : nat) (self : FormWin.t) :
  focus_in_range self ->
  all_draw (FormWin.inputs self) ->
  exists self',
    repeat_call n FormWin.go_to_next_input self = (Returns tt, self')
    /\ Z.min (len (FormWin.inputs self) - 1) (FormWin.current_input self + Z.of_nat n)
       <= FormWin.current_input self' <= len (FormWin.inputs self) - 1
    /\ (len (FormWin.inputs self) - 1 - FormWin.current_input self <= Z.of_nat n ->
        FormWin.current_input self' = len (FormWin.inputs self) - 1).
Proof.
  intros Hrange Hdraw.
  destruct (repeat_next_bound n self Hrange Hdraw) as (self' & Hrun & _ & Hcur).
  exists self'. split; [exact Hrun |]. split; [exact Hcur | lia].
Qed.

Lemma X15_advance_reaches_end_witness :
  let text := {| fld_type := "text-single"; fld_label := "Name";
                 fld_instructions := ""; fld_value := VStr "";
                 fld_options := [] |} in
  let fixed := {| fld_type := "fixed"; fld_label := ""; fld_instructions := "";
                  fld_value := VStr "Section"; fld_options := [] |} in
  let form := {| form_title := "t"; form_instructions := "";
                 form_fields := [("a", text); ("b", fixed); ("c", fixed)] |} in
  exists self form' self',
    FormWin.__init__ form = (Returns self, form')
    /\ repeat_call 2 FormWin.go_to_next_input self = (Returns tt, self')
    /\ FormWin.current_input self' = 2.
Proof.
  intros text fixed form.
  destruct (FormWin.__init__ form) as [[self | e] form'] eqn:Hinit;
    [| vm_compute in Hinit; discriminate Hinit].
  destruct (FormWin_init_ready form form' self Hinit) as (Hzero & Hrange & Hdraw).
  assert (Hlen : len (FormWin.inputs self) = 3).
  { vm_compute in Hinit. injection Hinit as <- _. reflexivity. }
  assert (Hinputs : FormWin.inputs self <> []).
  { intros Hnil. rewrite Hnil in Hlen. discriminate. }
  assert (Hfields : forall name f, (name, f) ∈ form_fields form -> has_options f).
  { intros name f Hin [Hty | Hty]; cbn in Hin;
      repeat (apply elem_of_cons in Hin as [[= -> ->] | Hin]; [discriminate Hty |]);
      now apply elem_of_nil in Hin. }
  destruct (X15_advance_reaches_end 2 self (Hrange Hinputs) (Hdraw Hfields))
    as (self' & Hrun & _ & Hend).
  exists self, form', self'. split; [reflexivity |]. split; [exact Hrun |].
  rewrite Hend, Hlen; [reflexivity |]. rewrite Hlen, Hzero. lia.
Defined.

(** ** Navigation keeps the focus in range and the highlight on it *)

Lemma refresh_state (obj : Input) : snd (FieldInput.refresh obj) = obj.
Proof.
  destruct obj as [ref c [| w | w | w | w | w]]; try reflexivity.
  - destruct w as [opts p]. unfold FieldInput.refresh, FieldInput.in_class,
      ListMultiWin.refresh. py_unfold. cbn. now destruct (index opts p).
  - destruct w as [opts p]. unfold FieldInput.refresh, FieldInput.in_class,
      ListSingleWin.refresh. py_unfold. cbn. now destruct (index opts p).
Qed.

(** [set_color] sets the colour, whether the redraw after it raises or not. *)
Lemma set_color_state (c : Z) (obj : Input) :
  snd (FieldInput.set_color c obj) =
    {| _field := _field obj; color := c; win := win obj |}.
Proof.
  unfold FieldInput.set_color. py_unfold. cbn.
  pose proof (refresh_state {| _field := _field obj; color := c; win := win obj |})
    as Hstate.
  now destruct (FieldInput.refresh _) as [[[] | e] obj'].
Qed.

Lemma on_inputs_set_color_run (c : Z) (inputs : list FormWin.entry) (cur i : Z)
    (inp : FormWin.entry) :
  0 <= i -> inputs !! Z.to_nat i = Some inp ->
  exists r,
    FormWin.on_inputs i (FieldInput.set_color c)
      {| FormWin.inputs := inputs; FormWin.current_input := cur |} =
    (r, {| FormWin.inputs := <[Z.to_nat i := recolour c inp]> inputs;
           FormWin.current_input := cur |}).
Proof.
  intros Hi Hinp. unfold FormWin.on_inputs, at_index, FormWin.on_obj. cbn.
  rewrite getitem_nonneg, Hinp, position_nonneg by assumption.
  pose proof (set_color_state c (FormWin.input inp)) as Hstate.
  destruct (FieldInput.set_color c (FormWin.input inp)) as [r obj]. cbn in Hstate.
  subst obj. now exists r.
Qed.

Lemma lookup_in_range {A} (l : list A) (i : Z) :
  0 <= i < len l -> exists x, l !! Z.to_nat i = Some x.
Proof.
  intros Hi. apply lookup_lt_is_Some_2. unfold len in Hi. lia.
Qed.

Lemma all_plain_unhighlight (inputs : list FormWin.entry) (cur : Z)
    (inp : FormWin.entry) :
  0 <= cur ->
  highlight_ok {| FormWin.inputs := inputs; FormWin.current_input := cur |} ->
  inputs !! Z.to_nat cur = Some inp ->
  all_plain (<[Z.to_nat cur := recolour 14 inp]> inputs).
Proof.
  intros Hcur Hok Hinp k e Hk.
  destruct (decide (k = Z.to_nat cur)) as [-> | Hne].
  - rewrite list_lookup_insert_eq in Hk by (now apply lookup_lt_Some in Hinp).
    now injection Hk as <-.
  - rewrite list_lookup_insert_ne in Hk by congruence.
    apply (Hok k e Hk). cbn. lia.
Qed.

Lemma all_plain_highlight_ok (inputs : list FormWin.entry) (cur : Z) :
  all_plain inputs ->
  highlight_ok {| FormWin.inputs := inputs; FormWin.current_input := cur |}.
Proof. intros Hplain k e Hk _. exact (Hplain k e Hk). Qed.

Lemma all_plain_highlight (inputs : list FormWin.entry) (i : Z) (inp : FormWin.entry) :
  0 <= i ->
  all_plain inputs ->
  highlight_ok {| FormWin.inputs := <[Z.to_nat i := recolour 13 inp]> inputs;
                  FormWin.current_input := i |}.
Proof.
  intros Hi Hplain k e Hk Hne. cbn in *.
  rewrite list_lookup_insert_ne in Hk by lia. exact (Hplain k e Hk).
Qed.

(** The states [go_to_next_input] can leave behind, away from the last
    index. *)
Lemma go_to_next_input_states (inputs : list FormWin.entry) (cur : Z) :
  0 <= cur < len inputs - 1 ->
  exists inp,
    inputs !! Z.to_nat cur = Some inp
    /\ let inputs1 := <[Z.to_nat cur := recolour 14 inp]> inputs in
       let self' := snd (FormWin.go_to_next_input
                           {| FormWin.inputs := inputs; FormWin.current_input := cur |}) in
       self' = {| FormWin.inputs := inputs1; FormWin.current_input := cur |}
       \/ self' = {| FormWin.inputs := inputs1; FormWin.current_input := cur + 1 |}
       \/ exists i new,
            cur < i <= len inputs - 1
            /\ self' = {| FormWin.inputs := <[Z.to_nat i := recolour 13 new]> inputs1;
                          FormWin.current_input := i |}.
Proof.
  intros Hcur.
  destruct (lookup_in_range inputs cur) as [old Hold]; [lia |].
  exists old. split; [exact Hold |]. cbn zeta.
  set (inputs1 := <[Z.to_nat cur := recolour 14 old]> inputs).
  assert (Hlen1 : len inputs1 = len inputs) by apply len_insert.
  unfold FormWin.go_to_next_input.
  erewrite run_bind by reflexivity. cbn [FormWin.inputs FormWin.current_input].
  rewrite match_nonempty by (intros ->; unfold len in Hcur; cbn in Hcur; lia).
  replace (cur =? len inputs - 1) with false by (symmetry; apply Z.eqb_neq; lia).
  destruct (on_inputs_set_color_run 14 inputs cur cur old) as [[[] | e] Hrun];
    [lia | exact Hold | | left; now erewrite run_bind_raises by exact Hrun].
  erewrite run_bind by exact Hrun. fold inputs1.
  erewrite run_bind by reflexivity.
  erewrite run_bind by reflexivity. cbn [FormWin.inputs FormWin.current_input].
  destruct (next_jump_spec inputs1 (cur + 1) 0) as (j & Hj & Hj0 & Hjlast & _); [lia |].
  destruct (dummy_at_in_range inputs1 (cur + 1 + j)) as [b Hb]; [lia |].
  erewrite run_bind by (unfold lift; rewrite Hj; reflexivity).
  erewrite run_bind by (unfold lift; rewrite Hb; reflexivity).
  destruct b; [right; left; reflexivity |].
  erewrite run_bind by reflexivity.
  erewrite run_bind by reflexivity. cbn [FormWin.inputs FormWin.current_input].
  destruct (lookup_in_range inputs1 (cur + 1 + j)) as [new Hnew]; [lia |].
  destruct (on_inputs_set_color_run 13 inputs1 (cur + 1 + j) (cur + 1 + j) new)
    as [r Hrun']; [lia | exact Hnew |].
  rewrite Hrun'. right; right. exists (cur + 1 + j), new. split; [lia | reflexivity].
Qed.

Lemma previous_jump_bound (inputs : list FormWin.entry) (cur jump j : Z) :
  FormWin.previous_jump inputs cur jump = Returns j ->
  jump <= j /\ (j <= cur \/ j = jump).
Proof.
  funelim (FormWin.previous_jump inputs cur jump); intros Hret;
    try discriminate.
  - injection Hret as <-. lia.
  - pose proof (proj1 (Z.gtb_lt _ _) E) as Hpos.
    destruct (H _ Hret) as [Hle Hbound]. lia.
  - injection Hret as <-. lia.
Qed.

(** The states [go_to_previous_input] can leave behind, away from index 0:
    the first is what a redraw that raises leaves. *)
Lemma go_to_previous_input_states (inputs : list FormWin.entry) (cur : Z) :
  0 < cur < len inputs ->
  exists inp,
    inputs !! Z.to_nat cur = Some inp
    /\ let inputs1 := <[Z.to_nat cur := recolour 14 inp]> inputs in
       let run := FormWin.go_to_previous_input
                    {| FormWin.inputs := inputs; FormWin.current_input := cur |} in
       (snd run = {| FormWin.inputs := inputs1; FormWin.current_input := cur |}
        /\ exists e, fst run = Raises e)
       \/ snd run = {| FormWin.inputs := inputs1; FormWin.current_input := cur - 1 |}
       \/ exists i new,
            0 <= i <= cur - 1
            /\ snd run = {| FormWin.inputs := <[Z.to_nat i := recolour 13 new]> inputs1;
                            FormWin.current_input := i |}.
Proof.
  intros Hcur.
  destruct (lookup_in_range inputs cur) as [old Hold]; [lia |].
  exists old. split; [exact Hold |]. cbn zeta.
  set (inputs1 := <[Z.to_nat cur := recolour 14 old]> inputs).
  assert (Hlen1 : len inputs1 = len inputs) by apply len_insert.
  unfold FormWin.go_to_previous_input.
  erewrite run_bind by reflexivity. cbn [FormWin.inputs FormWin.current_input].
  rewrite match_nonempty by (intros ->; unfold len in Hcur; cbn in Hcur; lia).
  replace (cur =? 0) with false by (symmetry; apply Z.eqb_neq; lia).
  destruct (on_inputs_set_color_run 14 inputs cur cur old) as [[[] | e] Hrun];
    [lia | exact Hold | |
     left; erewrite run_bind_raises by exact Hrun; split; [reflexivity | now exists e]].
  erewrite run_bind by exact Hrun. fold inputs1.
  erewrite run_bind by reflexivity.
  erewrite run_bind by reflexivity. cbn [FormWin.inputs FormWin.current_input].
  destruct (FormWin.previous_jump inputs1 (cur - 1) 0) as [j | e] eqn:Hj;
    [| right; left; now erewrite run_bind_raises by reflexivity].
  apply previous_jump_bound in Hj as Hbound.
  erewrite run_bind by reflexivity.
  destruct (FormWin.dummy_at inputs1 (cur - 1 + j)) as [b | e] eqn:Hb;
    [| right; left; now erewrite run_bind_raises by reflexivity].
  erewrite run_bind by reflexivity.
  destruct b; [right; left; reflexivity |].
  erewrite run_bind by reflexivity.
  erewrite run_bind by reflexivity. cbn [FormWin.inputs FormWin.current_input].
  destruct (lookup_in_range inputs1 (cur - 1 - j)) as [new Hnew]; [lia |].
  destruct (on_inputs_set_color_run 13 inputs1 (cur - 1 - j) (cur - 1 - j) new)
    as [r Hrun']; [lia | exact Hnew |].
  rewrite Hrun'. right; right. exists (cur - 1 - j), new. split; [lia | reflexivity].
Qed.

Lemma go_to_previous_input_first (inputs : list FormWin.entry) :
  FormWin.go_to_previous_input
    {| FormWin.inputs := inputs; FormWin.current_input := 0 |} =
  (Returns tt, {| FormWin.inputs := inputs; FormWin.current_input := 0 |}).
Proof.
  unfold FormWin.go_to_previous_input.
  erewrite run_bind by reflexivity. cbn [FormWin.inputs FormWin.current_input].
  now destruct inputs.
Qed.

(** X16. From a focus in range, [go_to_next_input] and
    [go_to_previous_input], whether they return or raise, leave the focus in
    range and no window highlighted but the one under the focus, if that was
    so before.  [go_to_next_input] never takes the focus back and
    [go_to_previous_input] never takes it on; when [go_to_previous_input]
    returns from an index other than 0, the focus is on a smaller index. *)
Theorem X16_navigation_invariant (self : FormWin.t) :
  focus_in_range self ->
  highlight_ok self ->
  let next := FormWin.go_to_next_input self in
  let previous := FormWin.go_to_previous_input self in
  (focus_in_range (snd next) /\ highlight_ok (snd next)
   /\ FormWin.current_input self <= FormWin.current_input (snd next))
  /\ (focus_in_range (snd previous) /\ highlight_ok (snd previous)
      /\ FormWin.current_input (snd previous) <= FormWin.current_input self
      /\ (fst previous = Returns tt -> 0 < FormWin.current_input self ->
          FormWin.current_input (snd previous) < FormWin.current_input self)).
Proof.
  destruct self as [inputs cur]. unfold focus_in_range. cbn.
  intros Hrange Hok. split.
  - destruct (Z.eq_dec cur (len inputs - 1)) as [Hlast | Hnotlast].
    { rewrite go_to_next_input_last by assumption. cbn. split; [lia |].
      split; [exact Hok | lia]. }
    destruct (go_to_next_input_states inputs cur) as (old & Hold & Hstates); [lia |].
    cbn zeta in Hstates.
    pose proof (all_plain_unhighlight inputs cur old (proj1 Hrange) Hok Hold) as Hplain.
    destruct Hstates as [-> | [-> | (i & new & Hi & ->)]];
      cbn [FormWin.inputs FormWin.current_input]; rewrite ?len_insert.
    + split; [lia |]. split; [now apply all_plain_highlight_ok | lia].
    + split; [lia |]. split; [now apply all_plain_highlight_ok | lia].
    + split; [lia |]. split; [apply all_plain_highlight; [lia | exact Hplain] | lia].
  - destruct (Z.eq_dec cur 0) as [-> | Hnotfirst].
    { rewrite go_to_previous_input_first. cbn. split; [lia |].
      split; [exact Hok |]. split; lia. }
    destruct (go_to_previous_input_states inputs cur) as (old & Hold & Hstates); [lia |].
    cbn zeta in Hstates.
    pose proof (all_plain_unhighlight inputs cur old (proj1 Hrange) Hok Hold) as Hplain.
    destruct Hstates as [[-> [e ->]] | [-> | (i & new & Hi & ->)]];
      cbn [FormWin.inputs FormWin.current_input]; rewrite ?len_insert.
    + split; [lia |]. split; [now apply all_plain_highlight_ok |].
      split; [lia | discriminate].
    + split; [lia |]. split; [now apply all_plain_highlight_ok |]. split; lia.
    + split; [lia |]. split; [apply all_plain_highlight; [lia | exact Hplain] |].
      split; lia.
Qed.

Lemma X16_navigation_invariant_witness :
  let entry c w := {| FormWin.label := VStr "l"; FormWin.instructions := "";
                      FormWin.input := {| _field := 0; color := c; win := w |} |} in
  let text := TextSingle {| TextSingleWin.text := ""; TextSingleWin.pos := 0 |} in
  let self := {| FormWin.inputs := [entry 14 text; entry 14 Dummy; entry 14 Dummy;
                                    entry 13 text];
                 FormWin.current_input := 3 |} in
  let self' := snd (FormWin.go_to_previous_input self) in
  focus_in_range self' /\ highlight_ok self' /\ FormWin.current_input self' < 3.
Proof.
  intros entry text self.
  assert (Hrange : focus_in_range self) by (unfold focus_in_range, len; cbn; lia).
  assert (Hok : highlight_ok self).
  { intros k inp Hk Hne. cbn in Hk, Hne.
    destruct k as [| [| [| [| k]]]]; cbn in Hk; try discriminate;
      try (injection Hk as <-; reflexivity). lia. }
  destruct (X16_navigation_invariant self Hrange Hok)
    as (_ & Hin & Hhigh & _ & Hless).
  split; [exact Hin |]. split; [exact Hhigh |].
  apply Hless; [reflexivity | cbn; lia].
Defined.

(** ** [FormWin.refresh] *)

Lemma index_nil {A} (i : Z) : index (@nil A) i = Raises IndexError.
Proof. unfold index. now rewrite getitem_nil. Qed.

Lemma refresh_draws (obj : Input) :
  draws obj -> FieldInput.refresh obj = (Returns tt, obj).
Proof.
  destruct obj as [ref c [| w | w | w | w | w]]; unfold draws; cbn;
    intros Hdraws; try reflexivity.
  - destruct w as [opts p]. destruct Hdraws as [o Ho]. cbn in Ho.
    unfold FieldInput.refresh, FieldInput.in_class, ListMultiWin.refresh, index.
    py_simpl. now rewrite Ho.
  - destruct w as [opts p]. destruct Hdraws as [o Ho]. cbn in Ho.
    unfold FieldInput.refresh, FieldInput.in_class, ListSingleWin.refresh, index.
    py_simpl. now rewrite Ho.
Qed.

Lemma on_inputs_refresh (self : FormWin.t) (i : Z) (inp : FormWin.entry) :
  getitem (FormWin.inputs self) i = Some inp ->
  draws (FormWin.input inp) ->
  FormWin.on_inputs i FieldInput.refresh self = (Returns tt, self).
Proof.
  intros Hinp Hdraws. destruct self as [inputs cur]. unfold FormWin.on_inputs. cbn in *.
  erewrite at_index_same; [reflexivity | exact Hinp |].
  unfold FormWin.on_obj. rewrite (refresh_draws _ Hdraws). now destruct inp.
Qed.

Lemma shown_refs_length (fields : list (string * Field)) :
  forall ref ref', length (shown_refs ref fields) = length (shown_refs ref' fields).
Proof.
  induction fields as [| [name field] rest IH]; intros ref ref'; [reflexivity |].
  cbn [shown_refs]. destruct (String.eqb (fld_type field) "hidden"); cbn;
    now rewrite (IH (S ref) (S ref')).
Qed.

(** The first loop of [refresh] reads one entry of [self.inputs] per field
    that is not hidden, from index 0 on. *)
Lemma refresh_labels_run (fields : list (string * Field)) (self : FormWin.t) :
  forall (i : Z) (ref : nat),
    0 <= i <= len (FormWin.inputs self) ->
    FormWin.refresh_labels fields i self =
      (if i + Z.of_nat (length (shown_refs ref fields)) <=? len (FormWin.inputs self)
       then Returns tt else Raises IndexError, self).
Proof.
  induction fields as [| [name field] rest IH]; intros i ref Hi.
  - cbn [FormWin.refresh_labels shown_refs length].
    destruct (Z.leb_spec (i + Z.of_nat 0) (len (FormWin.inputs self)));
      [reflexivity | lia].
  - cbn [FormWin.refresh_labels shown_refs].
    destruct (String.eqb (fld_type field) "hidden"); [apply IH, Hi |].
    erewrite run_bind by reflexivity.
    cbn [length]. unfold index. rewrite getitem_nonneg by lia.
    destruct (FormWin.inputs self !! Z.to_nat i) as [inp |] eqn:Hinp.
    + erewrite run_bind by reflexivity.
      apply lookup_lt_Some in Hinp.
      rewrite (IH (i + 1) (S ref)) by (unfold len; lia).
      replace (i + 1 + Z.of_nat (length (shown_refs (S ref) rest)))
        with (i + Z.of_nat (S (length (shown_refs (S ref) rest)))) by lia.
      reflexivity.
    + erewrite run_bind_raises by reflexivity.
      apply lookup_ge_None in Hinp.
      destruct (Z.leb_spec (i + Z.of_nat (S (length (shown_refs (S ref) rest))))
                  (len (FormWin.inputs self))); [unfold len in *; lia | reflexivity].
Qed.

Lemma refresh_inputs_run (self : FormWin.t) (n : nat) :
  forall i : Z,
    0 <= i -> i + Z.of_nat n <= len (FormWin.inputs self) ->
    all_draw (FormWin.inputs self) ->
    FormWin.refresh_inputs n i self = (Returns tt, self).
Proof.
  induction n as [| n IH]; intros i Hi Hlen Hdraw; [reflexivity |].
  cbn [FormWin.refresh_inputs].
  destruct (lookup_in_range (FormWin.inputs self) i) as [inp Hinp]; [lia |].
  erewrite run_bind; [apply IH; [lia | lia | exact Hdraw] |].
  apply (on_inputs_refresh self i inp).
  - now rewrite getitem_nonneg.
  - apply Hdraw. eapply list_elem_of_lookup_2, Hinp.
Qed.

Lemma add_inputs_hidden (fields : list (string * Field)) :
  forall ref acc,
    Forall (fun field => fld_type (snd field) = "hidden") fields ->
    FormWin.add_inputs ref fields acc = (Returns acc, fields).
Proof.
  induction fields as [| [name field] rest IH]; intros ref acc Hhidden; [reflexivity |].
  apply Forall_cons in Hhidden as [Hfield Hrest]. cbn in Hfield.
  assert (Hadd : FormWin.add_input ref field = (Returns None, field)).
  { unfold FormWin.add_input. erewrite run_bind by reflexivity.
    rewrite Hfield. reflexivity. }
  cbn [FormWin.add_inputs]. rewrite Hadd, (IH (S ref) acc Hrest). reflexivity.
Qed.

Lemma refresh_no_input (form : Form) (self : FormWin.t) :
  FormWin.inputs self = [] ->
  FormWin.refresh form self = (Raises IndexError, self).
Proof.
  intros Hempty. unfold FormWin.refresh.
  pose proof (refresh_labels_run (form_fields form) self 0 0) as Hlabels.
  destruct (0 + Z.of_nat (length (shown_refs 0 (form_fields form)))
            <=? len (FormWin.inputs self));
    [| now erewrite run_bind_raises by (apply Hlabels; unfold len; lia)].
  erewrite run_bind by (apply Hlabels; unfold len; lia).
  erewrite run_bind by reflexivity. rewrite Hempty. cbn [length FormWin.refresh_inputs].
  erewrite run_bind by reflexivity.
  erewrite run_bind by reflexivity.
  erewrite run_bind_raises; [reflexivity |].
  destruct self as [inputs cur]. cbn in Hempty. subst inputs.
  unfold FormWin.on_inputs, at_index. cbn [FormWin.inputs FormWin.current_input].
  now rewrite getitem_nil.
Qed.

(** X17. A form all of whose fields are hidden (or that has no field):
    [FormWin.__init__] returns, with no input window and the form as it was.
    On that [FormWin], [refresh] raises [IndexError], while a key and the two
    focus moves return and change nothing. *)
Theorem X17_no_visible_field
    (Input_do_command : key -> Py TextSingleWin.t unit) (form : Form) (key : key) :
  Forall (fun field => fld_type (snd field) = "hidden") (form_fields form) ->
  let self := {| FormWin.inputs := []; FormWin.current_input := 0 |} in
  FormWin.__init__ form = (Returns self, form)
  /\ FormWin.refresh form self = (Raises IndexError, self)
  /\ FormWin.on_input Input_do_command key self = (Returns tt, self)
  /\ FormWin.go_to_next_input self = (Returns tt, self)
  /\ FormWin.go_to_previous_input self = (Returns tt, self).
Proof.
  intros Hhidden self. split; [| split; [now apply refresh_no_input | now repeat split]].
  unfold FormWin.__init__. rewrite (add_inputs_hidden _ 0 [] Hhidden).
  now destruct form.
Qed.

Lemma X17_no_visible_field_witness :
  let hidden := {| fld_type := "hidden"; fld_label := "token";
                   fld_instructions := ""; fld_value := VStr "42";
                   fld_options := [] |} in
  let form := {| form_title := "t"; form_instructions := "";
                 form_fields := [("token", hidden)] |} in
  exists self,
    FormWin.__init__ form = (Returns self, form)
    /\ FormWin.refresh form self = (Raises IndexError, self).
Proof.
  intros hidden form.
  destruct (X17_no_visible_field (fun _ => mret tt) form "a")
    as (Hinit & Hrefresh & _).
  { apply Forall_cons_2; [reflexivity | apply Forall_nil_2]. }
  eexists. split; [exact Hinit | exact Hrefresh].
Defined.

(** X18. With the focus in range and every list window's cursor on an
    option, [refresh] returns exactly when the form has no more fields that
    are not hidden than there are input windows.  When it returns, the
    window under the focus has the colour 13 and nothing else has changed;
    otherwise it raises [IndexError] and nothing has changed. *)
Theorem X18_refresh (form : Form) (self : FormWin.t) :
  focus_in_range self ->
  all_draw (FormWin.inputs self) ->
  let shown := length (shown_refs 0 (form_fields form)) in
  let inputs := FormWin.inputs self in
  let cur := FormWin.current_input self in
  ((shown <= length inputs)%nat ->
   exists inp,
     inputs !! Z.to_nat cur = Some inp
     /\ FormWin.refresh form self =
          (Returns tt, {| FormWin.inputs := <[Z.to_nat cur := recolour 13 inp]> inputs;
                          FormWin.current_input := cur |}))
  /\ ((length inputs < shown)%nat ->
      FormWin.refresh form self = (Raises IndexError, self)).
Proof.
  intros Hrange Hdraw. cbn zeta. destruct self as [inputs cur].
  unfold focus_in_range in Hrange. cbn [FormWin.inputs FormWin.current_input] in *.
  unfold FormWin.refresh.
  pose proof (refresh_labels_run (form_fields form)
                {| FormWin.inputs := inputs; FormWin.current_input := cur |} 0 0)
    as Hlabels.
  cbn [FormWin.inputs] in Hlabels. split; intros Hshown.
  - destruct (Z.leb_spec (0 + Z.of_nat (length (shown_refs 0 (form_fields form))))
                (len inputs)); [| unfold len in *; lia].
    destruct (lookup_in_range inputs cur Hrange) as [inp Hinp].
    exists inp. split; [exact Hinp |].
    erewrite run_bind by (apply Hlabels; lia).
    erewrite run_bind by reflexivity. cbn [FormWin.inputs].
    erewrite run_bind
      by (apply refresh_inputs_run; [lia | unfold len; cbn; lia | exact Hdraw]).
    erewrite run_bind by reflexivity. cbn [FormWin.inputs FormWin.current_input].
    assert (Hdraws : draws (FormWin.input inp))
      by (apply Hdraw; eapply list_elem_of_lookup_2, Hinp).
    erewrite run_bind
      by (apply (on_inputs_set_color 13 inputs cur cur inp);
          [lia | now rewrite getitem_nonneg by lia | exact Hdraws]).
    erewrite run_bind by reflexivity. cbn [FormWin.inputs FormWin.current_input].
    apply (on_inputs_refresh _ cur (recolour 13 inp)); [| exact Hdraws].
    cbn [FormWin.inputs]. rewrite getitem_nonneg by lia.
    apply list_lookup_insert_eq. now apply lookup_lt_Some in Hinp.
  - destruct (Z.leb_spec (0 + Z.of_nat (length (shown_refs 0 (form_fields form))))
                (len inputs)); [unfold len in *; lia |].
    now erewrite run_bind_raises by (apply Hlabels; lia).
Qed.

Lemma X18_refresh_witness :
  let entry w := {| FormWin.label := VStr "l"; FormWin.instructions := "";
                    FormWin.input := {| _field := 0; color := 14; win := w |} |} in
  let text := entry (TextSingle {| TextSingleWin.text := ""; TextSingleWin.pos := 0 |}) in
  let field ty := {| fld_type := ty; fld_label := "l"; fld_instructions := "";
                     fld_value := VNone; fld_options := [] |} in
  let self := {| FormWin.inputs := [text]; FormWin.current_input := 0 |} in
  FormWin.refresh
    {| form_title := ""; form_instructions := "";
       form_fields := [("a", field "text-single"); ("b", field "text-single")] |} self =
  (Raises IndexError, self).
Proof.
  intros entry text field self.
  apply X18_refresh.
  - unfold focus_in_range, len. cbn. lia.
  - intros inp Hin. apply elem_of_cons in Hin as [-> | Hin]; [exact I |].
    now apply elem_of_nil in Hin.
  - cbn. lia.
Defined.

(** ** Moving the focus and redrawing leave the windows' contents alone *)

Lemma refresh_same_win : keeps same_win FieldInput.refresh.
Proof. intros obj. unfold same_win. now rewrite refresh_state. Qed.

Lemma set_color_same_win (c : Z) : keeps same_win (FieldInput.set_color c).
Proof. intros obj. unfold same_win. now rewrite set_color_state. Qed.

Lemma same_contents_refl (self : FormWin.t) : same_contents self self.
Proof. reflexivity. Qed.

Lemma same_contents_trans (s1 s2 s3 : FormWin.t) :
  same_contents s1 s2 -> same_contents s2 s3 -> same_contents s1 s3.
Proof. unfold same_contents. congruence. Qed.

Lemma on_inputs_same_contents {A} (i : Z) (m : Py Input A) :
  keeps same_win m -> keeps same_contents (FormWin.on_inputs i m).
Proof.
  intros Hm [inputs cur]. unfold FormWin.on_inputs, at_index, same_contents, contents.
  cbn. destruct (getitem inputs i) as [inp |] eqn:Hinp; [| reflexivity].
  unfold FormWin.on_obj. specialize (Hm (FormWin.input inp)).
  destruct (m (FormWin.input inp)) as [r obj]. cbn in *.
  rewrite list_fmap_insert. apply list_insert_id.
  rewrite list_lookup_fmap, (getitem_position _ _ _ Hinp). cbn.
  now rewrite Hm.
Qed.

Lemma set_current_input_same_contents (i : Z) :
  keeps same_contents (FormWin.set_current_input i).
Proof. intros self. reflexivity. Qed.

Ltac keeps_contents :=
  repeat first
    [ apply (keeps_bind same_contents same_contents_trans)
    | apply (keeps_mret same_contents same_contents_refl)
    | apply (keeps_get same_contents same_contents_refl)
    | apply (keeps_lift same_contents same_contents_refl)
    | apply set_current_input_same_contents
    | apply on_inputs_same_contents
    | apply set_color_same_win
    | apply refresh_same_win
    | match goal with
      | |- forall _, _ => intro
      | |- keeps _ (match ?l with [] => _ | _ :: _ => _ end) => destruct l
      | |- keeps _ (if ?b then _ else _) => destruct b
      end ].

Lemma refresh_labels_same_contents (fields : list (string * Field)) :
  forall i, keeps same_contents (FormWin.refresh_labels fields i).
Proof.
  induction fields as [| [name field] rest IH]; intros i; cbn [FormWin.refresh_labels].
  - keeps_contents.
  - destruct (String.eqb (fld_type field) "hidden"); [apply IH |].
    apply (keeps_bind same_contents same_contents_trans); [keeps_contents |]. intros self.
    apply (keeps_bind same_contents same_contents_trans); [keeps_contents |]. intros _.
    apply IH.
Qed.

Lemma refresh_inputs_same_contents (n : nat) :
  forall i, keeps same_contents (FormWin.refresh_inputs n i).
Proof.
  induction n as [| n IH]; intros i; cbn [FormWin.refresh_inputs].
  - keeps_contents.
  - apply (keeps_bind same_contents same_contents_trans); [keeps_contents |]. intros _.
    apply IH.
Qed.

(** X19. [go_to_next_input], [go_to_previous_input] and [refresh] never
    change what an input window holds (the text and its cursor, the cursor of
    a list, the flags of its options, the value of a boolean), from any
    state and whether they return or raise: they only set colours and the
    focus index.  So does any number of focus moves in a row. *)
Theorem X19_contents_kept (form : Form) (self : FormWin.t) (n m : nat) :
  same_contents self (snd (FormWin.go_to_next_input self))
  /\ same_contents self (snd (FormWin.go_to_previous_input self))
  /\ same_contents self (snd (FormWin.refresh form self))
  /\ same_contents self
       (snd ((repeat_call n FormWin.go_to_next_input;;
              repeat_call m FormWin.go_to_previous_input) self)).
Proof.
  assert (Hnext : keeps same_contents FormWin.go_to_next_input)
    by (unfold FormWin.go_to_next_input; keeps_contents).
  assert (Hprevious : keeps same_contents FormWin.go_to_previous_input)
    by (unfold FormWin.go_to_previous_input; keeps_contents).
  assert (Hrepeat : forall k (move : Py FormWin.t unit),
             keeps same_contents move -> keeps same_contents (repeat_call k move)).
  { intros k move Hmove. induction k as [| k IH]; cbn [repeat_call].
    - apply (keeps_mret same_contents same_contents_refl).
    - apply (keeps_bind same_contents same_contents_trans); [exact Hmove |].
      intros _. exact IH. }
  split; [apply Hnext |]. split; [apply Hprevious |]. split.
  - revert self. change (keeps same_contents (FormWin.refresh form)).
    unfold FormWin.refresh.
    apply (keeps_bind same_contents same_contents_trans);
      [apply refresh_labels_same_contents |]. intros _.
    apply (keeps_bind same_contents same_contents_trans); [keeps_contents |]. intros self.
    apply (keeps_bind same_contents same_contents_trans);
      [apply refresh_inputs_same_contents |]. intros _.
    keeps_contents.
  - revert self.
    change (keeps same_contents
              (repeat_call n FormWin.go_to_next_input;;
               repeat_call m FormWin.go_to_previous_input)).
    apply (keeps_bind same_contents same_contents_trans); [now apply Hrepeat |].
    intros _. now apply Hrepeat.
Qed.

(** ** [DataFormsTab.on_input]: where a key goes *)

(** X20. Whatever [Tab.__init__] has bound, KEY_UP runs
    [form_win.go_to_previous_input], KEY_DOWN [form_win.go_to_next_input],
    ^G [on_cancel] and ^Y [on_send].  Any other key runs the command
    [Tab.__init__] has bound to it, if there is one, and the input window
    under the focus does not see it; only a key that is bound to nothing
    goes to [form_win.on_input]. *)
Theorem X20_key_dispatch
    (Form_reply : Py Form unit) (Input_do_command : key -> Py TextSingleWin.t unit)
    (Tab_key_func : gmap string (Py DataFormsTab.t unit)) :
  let on_input := DataFormsTab.on_input Form_reply Input_do_command Tab_key_func in
  on_input "KEY_UP" = DataFormsTab.on_form_win FormWin.go_to_previous_input
  /\ on_input "KEY_DOWN" = DataFormsTab.on_form_win FormWin.go_to_next_input
  /\ on_input "^G" = DataFormsTab.on_cancel
  /\ on_input "^Y" = DataFormsTab.on_send Form_reply
  /\ forall key,
       key ∉ tab_keys ->
       on_input key =
         match Tab_key_func !! key with
         | Some command => command
         | None => DataFormsTab.on_form_win (FormWin.on_input Input_do_command key)
         end.
Proof.
  cbn zeta. unfold DataFormsTab.on_input, DataFormsTab.key_func.
  repeat split.
  - now rewrite !lookup_insert_ne, lookup_insert_eq by discriminate.
  - now rewrite !lookup_insert_ne, lookup_insert_eq by discriminate.
  - now rewrite lookup_insert_ne, lookup_insert_eq by discriminate.
  - now rewrite lookup_insert_eq.
  - intros key Hkey. unfold tab_keys in Hkey.
    rewrite !lookup_insert_ne; [reflexivity | | | |];
      intros <-; apply Hkey; repeat constructor.
Qed.

(** ** A field that is sent without having been edited *)

(** X21. For a field of type boolean, jid-single, text-private or
    text-single, [add_input] returns an entry and leaves the field as it
    is.  The reply of its window, if no key has edited it, empties the label
    and answers with the truth value of the field's value for a boolean (a
    field without value is answered False, a non-empty string True), and
    with the field's value if it is a string, the empty string if not, for
    the text classes.  Building a window from the answered field gives the
    same window again. *)
Theorem X21_unedited_answer (ref : nat) (field : Field) :
  fld_type field ∈ ["boolean"; "jid-single"; "text-private"; "text-single"] ->
  exists cls inp,
    FormWin.input_classes !! fld_type field = Some cls
    /\ FormWin.add_input ref field = (Returns (Some inp), field)
    /\ let field' := answered (unedited_answer cls (fld_value field)) field in
       FieldInput.reply (FormWin.input inp) field = (Returns tt, field')
       /\ exists inp',
            FormWin.add_input ref field' = (Returns (Some inp'), field')
            /\ FormWin.input inp' = FormWin.input inp.
Proof.
  destruct field as [ty l ins v opts]. cbn [fld_type fld_value]. intros Hty.
  repeat (apply elem_of_cons in Hty as [-> | Hty];
          [eexists _, _; split; [vm_compute; reflexivity |];
           split; [vm_compute; reflexivity |];
           cbn zeta; split; [reflexivity |]; eexists; split;
           [vm_compute; reflexivity |];
           destruct v as [| [] | s | [| s rest]]; reflexivity |]).
  now apply elem_of_nil in Hty.
Qed.

Lemma X21_unedited_answer_witness :
  let field := {| fld_type := "boolean"; fld_label := "Public";
                  fld_instructions := ""; fld_value := VStr "0";
                  fld_options := [] |} in
  exists inp,
    FormWin.add_input 3 field = (Returns (Some inp), field)
    /\ FieldInput.reply (FormWin.input inp) field =
         (Returns tt, answered (VBool true) field).
Proof.
  intros field.
  destruct (X21_unedited_answer 3 field) as (cls & inp & Hcls & Hadd & Hreply & _).
  { apply list_elem_of_here. }
  exists inp. split; [exact Hadd |].
  injection Hcls as <-. exact Hreply.
Defined.

(** ** No call makes a window impossible to draw *)

Lemma refresh_still_draws : keeps still_draws FieldInput.refresh.
Proof. intros obj. unfold still_draws. now rewrite refresh_state. Qed.

Lemma set_color_still_draws (c : Z) : keeps still_draws (FieldInput.set_color c).
Proof. intros obj. unfold still_draws. now rewrite set_color_state. Qed.

Lemma do_command_still_draws Input_do_command (key : key) :
  keeps still_draws (FieldInput.do_command Input_do_command [key]).
Proof. intros obj. unfold still_draws. apply do_command_draws. Qed.

Lemma still_drawable_refl (self : FormWin.t) : still_drawable self self.
Proof. now split. Qed.

Lemma still_drawable_trans (s1 s2 s3 : FormWin.t) :
  still_drawable s1 s2 -> still_drawable s2 s3 -> still_drawable s1 s3.
Proof. intros [Hlen Hdraw] [Hlen' Hdraw']. split; [congruence | tauto]. Qed.

Lemma on_inputs_still_drawable {A} (i : Z) (m : Py Input A) :
  keeps still_draws m -> keeps still_drawable (FormWin.on_inputs i m).
Proof.
  intros Hm [inputs cur]. unfold FormWin.on_inputs, at_index, still_drawable. cbn.
  destruct (getitem inputs i) as [inp |] eqn:Hinp; [| now split].
  unfold FormWin.on_obj. specialize (Hm (FormWin.input inp)).
  destruct (m (FormWin.input inp)) as [r obj]. cbn in *.
  split; [apply length_insert |].
  intros Hdraw new Hnew. apply list_elem_of_lookup_1 in Hnew as [k Hk].
  apply getitem_position in Hinp as Hpos.
  destruct (decide (k = position inputs i)) as [-> | Hne].
  - rewrite list_lookup_insert_eq in Hk by (now apply lookup_lt_Some in Hpos).
    injection Hk as <-. cbn. apply Hm, Hdraw. eapply list_elem_of_lookup_2, Hpos.
  - rewrite list_lookup_insert_ne in Hk by congruence.
    apply Hdraw. eapply list_elem_of_lookup_2, Hk.
Qed.

Lemma set_current_input_still_drawable (i : Z) :
  keeps still_drawable (FormWin.set_current_input i).
Proof. intros self. now split. Qed.

Ltac keeps_drawable :=
  repeat first
    [ apply (keeps_bind still_drawable still_drawable_trans)
    | apply (keeps_mret still_drawable still_drawable_refl)
    | apply (keeps_get still_drawable still_drawable_refl)
    | apply (keeps_lift still_drawable still_drawable_refl)
    | apply set_current_input_still_drawable
    | apply on_inputs_still_drawable
    | apply set_color_still_draws
    | apply refresh_still_draws
    | apply do_command_still_draws
    | match goal with
      | |- forall _, _ => intro
      | |- keeps _ (match ?l with [] => _ | _ :: _ => _ end) => destruct l
      | |- keeps _ (if ?b then _ else _) => destruct b
      end ].

Lemma refresh_labels_still_drawable (fields : list (string * Field)) :
  forall i, keeps still_drawable (FormWin.refresh_labels fields i).
Proof.
  induction fields as [| [name field] rest IH]; intros i; cbn [FormWin.refresh_labels].
  - keeps_drawable.
  - destruct (String.eqb (fld_type field) "hidden"); [apply IH |].
    apply (keeps_bind still_drawable still_drawable_trans); [keeps_drawable |].
    intros self.
    apply (keeps_bind still_drawable still_drawable_trans); [keeps_drawable |].
    intros _. apply IH.
Qed.

Lemma refresh_inputs_still_drawable (n : nat) :
  forall i, keeps still_drawable (FormWin.refresh_inputs n i).
Proof.
  induction n as [| n IH]; intros i; cbn [FormWin.refresh_inputs].
  - keeps_drawable.
  - apply (keeps_bind still_drawable still_drawable_trans); [keeps_drawable |].
    intros _. apply IH.
Qed.

Lemma act_still_drawable Input_do_command (a : action) :
  keeps still_drawable (act Input_do_command a).
Proof.
  destruct a as [k | | | form]; cbn [act].
  - unfold FormWin.on_input. keeps_drawable.
  - unfold FormWin.go_to_next_input. keeps_drawable.
  - unfold FormWin.go_to_previous_input. keeps_drawable.
  - unfold FormWin.refresh.
    apply (keeps_bind still_drawable still_drawable_trans);
      [apply refresh_labels_still_drawable |]. intros _.
    apply (keeps_bind still_drawable still_drawable_trans); [keeps_drawable |].
    intros self.
    apply (keeps_bind still_drawable still_drawable_trans);
      [apply refresh_inputs_still_drawable |]. intros _.
    keeps_drawable.
Qed.

(** X22. If the cursor of every list window is on an option (as after
    construction from list fields that have options), it still is after any
    sequence of keys, focus moves and redraws, whatever the line editor does
    to a text window and wherever the sequence stops, by returning or at the
    first call that raises; and there are as many input windows as before.
    So no call on the [FormWin] can bring a list window into a state in
    which drawing it raises [IndexError]. *)
Theorem X22_drawable_kept
    (Input_do_command : key -> Py TextSingleWin.t unit) (actions : list action)
    (self : FormWin.t) :
  all_draw (FormWin.inputs self) ->
  let self' := snd (for_each actions (act Input_do_command) self) in
  all_draw (FormWin.inputs self')
  /\ length (FormWin.inputs self') = length (FormWin.inputs self).
Proof.
  intros Hdraw. cbn zeta.
  assert (Hkept : keeps still_drawable (for_each actions (act Input_do_command))).
  { induction actions as [| a rest IH]; cbn [for_each].
    - apply (keeps_mret still_drawable still_drawable_refl).
    - apply (keeps_bind still_drawable still_drawable_trans);
        [apply act_still_drawable | intros _; exact IH]. }
  destruct (Hkept self) as [Hlen Hdraw']. split; [now apply Hdraw' | exact Hlen].
Qed.

Lemma X22_drawable_kept_witness :
  let opt v := {| opt_value := v; opt_label := v |} in
  let single := {| ListSingleWin.options := [opt "a"; opt "b"];
                   ListSingleWin.val_pos := 1 |} in
  let self := {| FormWin.inputs :=
                   [{| FormWin.label := VStr "l"; FormWin.instructions := "";
                       FormWin.input := {| _field := 0; color := 14;
                                           win := ListSingle single |} |}];
                 FormWin.current_input := 0 |} in
  all_draw
    (FormWin.inputs
       (snd (for_each [Key "KEY_RIGHT"; Next; Key "KEY_RIGHT"; Previous; Key "x"]
               (act (fun _ => mret tt)) self))).
Proof.
  intros opt single self.
  apply (X22_drawable_kept (fun _ => mret tt)).
  intros inp Hin. apply elem_of_cons in Hin as [-> | Hin].
  - unfold draws. cbn. now eexists.
  - now apply elem_of_nil in Hin.
Defined.
